(** * Conditioning subsystem: conditioners, dropout policies, provider, fuser

    A shallow embedding of [msh/conditioners/base.py] and the properties of
    its specification.

    Conventions of the embedding.
    - A Python call that may raise returns a [result]: [Ok v] or [Raise e].
    - A [torch.Tensor] is a shape together with its elements, read by a
      multi-index.  The element type is any [Scalar], an interface with
      the constants and operations the module uses and with the
      identities of IEEE arithmetic that its masking relies on: an
      element is a float value, the two zeros being one value, and
      [x * 0 = 0] is asked of the finite values only, since an infinity
      or a NaN times zero is NaN.  These identities hold of the IEEE
      operations as they are, rounding and overflow included.
      [FloatValue] is such a type with infinities and NaN, and without
      rounding.
    - Python [dict]s keep insertion order, so they are association lists
      with at most one binding per key.
    - The objects that the dropout policies mutate in place live in an
      explicit store, addressed by location. *)

From Stdlib Require Import ZArith QArith String List Bool Lia Permutation.
From stdpp Require Import base list gmap strings.
Import ListNotations.

Local Open Scope string_scope.
Local Open Scope list_scope.
Local Open Scope nat_scope.

Set Implicit Arguments.
Unset Strict Implicit.

(** ** Exceptions and results *)

Inductive exn : Type :=
| ValueError (msg : string)
| KeyError (key : string)
| IndexError (msg : string)
| AssertionError (msg : string)
| TypeError (msg : string)
| TorchError (msg : string)
| MissingInputs (names : list string).   (* the RuntimeError of [prepare] *)

Inductive result (A : Type) : Type :=
| Ok (a : A)
| Raise (e : exn).
Arguments Ok {A} a.
Arguments Raise {A} e.

Definition rbind {A B} (m : result A) (k : A -> result B) : result B :=
  match m with
  | Ok a => k a
  | Raise e => Raise e
  end.

Declare Scope result_scope.
Delimit Scope result_scope with result.
Notation "x <- m ;; k" := (rbind m (fun x => k))
  (at level 100, m at next level, right associativity) : result_scope.
Notation "'assert!' b 'else' e ;; k" := (if b then k else Raise e)
  (at level 100, b at next level, e at next level, right associativity) : result_scope.
Local Open Scope result_scope.

(** Python's [for x in xs: acc = body(acc, x)], stopping at the first raise. *)
Fixpoint for_each {A S} (xs : list A) (body : S -> A -> result S) (s : S)
  : result S :=
  match xs with
  | [] => Ok s
  | x :: xs' => s' <- body s x ;; for_each xs' body s'
  end.

(** ** Python dictionaries: insertion-ordered association lists *)

Definition pydict (V : Type) : Type := list (string * V).

Fixpoint dict_get {V} (d : pydict V) (k : string) : option V :=
  match d with
  | [] => None
  | (k', v) :: d' => if String.eqb k k' then Some v else dict_get d' k
  end.

(** [d[k] = v]: an existing key keeps its position, a new one goes last. *)
Fixpoint dict_set {V} (d : pydict V) (k : string) (v : V) : pydict V :=
  match d with
  | [] => [(k, v)]
  | (k', v') :: d' =>
      if String.eqb k k' then (k', v) :: d' else (k', v') :: dict_set d' k v
  end.

Definition dict_keys {V} (d : pydict V) : list string := map fst d.

(** [d[k]], raising [KeyError]. *)
Definition dict_item {V} (d : pydict V) (k : string) : result V :=
  match dict_get d k with
  | Some v => Ok v
  | None => Raise (KeyError k)
  end.

(** [k in ks] for a list or set of strings. *)
Definition str_in (k : string) (ks : list string) : bool :=
  existsb (String.eqb k) ks.

(** [defaultdict(list)]: reading a missing key yields the empty list. *)
Definition dd_get {V} (d : pydict (list V)) (k : string) : list V :=
  match dict_get d k with Some l => l | None => [] end.

(** [d[k].append(v)] and [d[k].extend(vs)] on a [defaultdict(list)]. *)
Definition dd_extend {V} (d : pydict (list V)) (k : string) (vs : list V)
  : pydict (list V) :=
  dict_set d k (dd_get d k ++ vs).

Definition dd_append {V} (d : pydict (list V)) (k : string) (v : V)
  : pydict (list V) :=
  dd_extend d k [v].

(** ** Scalars: the element type of floating tensors *)

(** The elements of a float tensor.  [finite] tells the values that are
    neither an infinity nor a NaN.  The identities are those of IEEE
    arithmetic on values: adding zero and multiplying by one change
    nothing, whatever the value, but multiplying by zero gives zero for
    a finite value only. *)
Class Scalar (R : Type) : Type := {
  zero : R;
  one : R;
  add : R -> R -> R;
  mul : R -> R -> R;
  sub : R -> R -> R;
  finite : R -> Prop;
  add_zero_r : forall x, add x zero = x;
  add_zero_l : forall x, add zero x = x;
  mul_one_r : forall x, mul x one = x;
  mul_zero_r : forall x, finite x -> mul x zero = zero;
  sub_diag_one : sub one one = zero;
  sub_zero_one : sub one zero = one
}.

(** Integers, all finite: the elements of the worked examples. *)
#[export] Instance Z_Scalar : Scalar Z := {|
  zero := 0%Z; one := 1%Z; add := Z.add; mul := Z.mul; sub := Z.sub;
  finite := fun _ => True;
  add_zero_r := Z.add_0_r;
  add_zero_l := Z.add_0_l;
  mul_one_r := Z.mul_1_r;
  mul_zero_r := fun x _ => Z.mul_0_r x;
  sub_diag_one := eq_refl;
  sub_zero_one := eq_refl
|}.

(** Float values with the infinities and NaN: integers for the finite
    values, and the IEEE 754 rules wherever an infinity or a NaN takes
    part.  NaN is absorbing, opposite infinities add up to NaN, and an
    infinity times zero is NaN. *)
Module FloatValue.
Inductive t : Type :=
| Num (z : Z)
| Inf (negative : bool)
| NaN.

Definition neg (x : t) : t :=
  match x with
  | Num z => Num (- z)
  | Inf s => Inf (negb s)
  | NaN => NaN
  end.

Definition add (x y : t) : t :=
  match x, y with
  | NaN, _ | _, NaN => NaN
  | Num a, Num b => Num (a + b)
  | Num _, Inf s | Inf s, Num _ => Inf s
  | Inf s1, Inf s2 => if Bool.eqb s1 s2 then Inf s1 else NaN
  end.

Definition sub (x y : t) : t := add x (neg y).

(** An infinity times the finite value [z]. *)
Definition scale_inf (s : bool) (z : Z) : t :=
  if (z =? 0)%Z then NaN else Inf (xorb s (z <? 0)%Z).

Definition mul (x y : t) : t :=
  match x, y with
  | NaN, _ | _, NaN => NaN
  | Num a, Num b => Num (a * b)
  | Num a, Inf s | Inf s, Num a => scale_inf s a
  | Inf s1, Inf s2 => Inf (xorb s1 s2)
  end.

Definition finite (x : t) : Prop :=
  match x with
  | Num _ => True
  | _ => False
  end.
End FloatValue.

#[export] Instance FloatValue_Scalar : Scalar FloatValue.t := {|
  zero := FloatValue.Num 0; one := FloatValue.Num 1;
  add := FloatValue.add; mul := FloatValue.mul; sub := FloatValue.sub;
  finite := FloatValue.finite;
  add_zero_r := fun x =>
    match x return FloatValue.add x (FloatValue.Num 0) = x with
    | FloatValue.Num z => f_equal FloatValue.Num (Z.add_0_r z)
    | FloatValue.Inf _ | FloatValue.NaN => eq_refl
    end;
  add_zero_l := fun x =>
    match x return FloatValue.add (FloatValue.Num 0) x = x with
    | FloatValue.Num _ | FloatValue.Inf _ | FloatValue.NaN => eq_refl
    end;
  mul_one_r := fun x =>
    match x return FloatValue.mul x (FloatValue.Num 1) = x with
    | FloatValue.Num z => f_equal FloatValue.Num (Z.mul_1_r z)
    | FloatValue.Inf true | FloatValue.Inf false | FloatValue.NaN => eq_refl
    end;
  mul_zero_r := fun x =>
    match x return FloatValue.finite x ->
                   FloatValue.mul x (FloatValue.Num 0) = FloatValue.Num 0 with
    | FloatValue.Num z => fun _ => f_equal FloatValue.Num (Z.mul_0_r z)
    | FloatValue.Inf _ | FloatValue.NaN => fun Hfinite => match Hfinite with end
    end;
  sub_diag_one := eq_refl;
  sub_zero_one := eq_refl
|}.

(** ** Tensors *)

Record Tensor (A : Type) : Type := mkTensor {
  shape : list nat;
  elem : list nat -> A
}.
Arguments mkTensor {A} shape elem.

Section TensorOps.
Context {A : Type}.

(** [t.dim()] and [t.size(d)] *)
Definition ndim (t : Tensor A) : nat := length (shape t).
Definition size (t : Tensor A) (d : nat) : nat := nth d (shape t) 0.

Definition full (s : list nat) (a : A) : Tensor A := mkTensor s (fun _ => a).

Definition tmap {B} (f : A -> B) (t : Tensor A) : Tensor B :=
  mkTensor (shape t) (fun idx => f (elem t idx)).

(** [t[0]]: select index 0 along the leading dimension. *)
Definition select_first (t : Tensor A) : result (Tensor A) :=
  match shape t with
  | [] => Raise (IndexError "invalid index of a 0-dim tensor")
  | 0 :: _ => Raise (IndexError "index 0 is out of bounds for dimension 0 with size 0")
  | S _ :: s' => Ok (mkTensor s' (fun idx => elem t (0 :: idx)))
  end.

(** [t[..., 0]]: select index 0 along the last dimension. *)
Definition select_last (t : Tensor A) : result (Tensor A) :=
  match rev (shape t) with
  | [] => Raise (IndexError "invalid index of a 0-dim tensor")
  | 0 :: _ => Raise (IndexError "index 0 is out of bounds for the last dimension with size 0")
  | S _ :: _ =>
      Ok (mkTensor (removelast (shape t)) (fun idx => elem t (idx ++ [0])))
  end.

(** [t[..., None]]: a new last dimension of size 1. *)
Definition unsqueeze_last (t : Tensor A) : Tensor A :=
  mkTensor (shape t ++ [1]) (fun idx => elem t (removelast idx)).

(** [t[:, :, :1]]: keep at most the first entry of dimension 2. *)
Definition slice3_first (t : Tensor A) : result (Tensor A) :=
  match shape t with
  | b :: c :: n :: s' => Ok (mkTensor (b :: c :: Nat.min 1 n :: s') (elem t))
  | _ => Raise (IndexError "too many indices for tensor")
  end.

(** [torch.cat([a, b], dim=1)]: equal ranks and equal sizes off dimension 1. *)
Definition cat1 (a b : Tensor A) : result (Tensor A) :=
  match shape a, shape b with
  | a0 :: a1 :: sa, b0 :: b1 :: sb =>
      if decide (a0 = b0 /\ sa = sb) then
        Ok (mkTensor (a0 :: a1 + b1 :: sa)
              (fun idx =>
                 match idx with
                 | i0 :: i1 :: rest =>
                     if i1 <? a1 then elem a idx
                     else elem b (i0 :: i1 - a1 :: rest)
                 | _ => elem a idx
                 end))
      else Raise (TorchError "Sizes of tensors must match except in dimension 1")
  | _, _ => Raise (TorchError "Dimension out of range or ranks differ")
  end.
End TensorOps.

(** *** Broadcasting *)

(** Shapes are aligned at their last dimension; two sizes are compatible
    when they are equal or one of them is 1. *)
Fixpoint broadcast_rev (r1 r2 : list nat) : option (list nat) :=
  match r1, r2 with
  | [], r | r, [] => Some r
  | a :: r1', b :: r2' =>
      match broadcast_rev r1' r2' with
      | None => None
      | Some r =>
          if a =? b then Some (a :: r)
          else if a =? 1 then Some (b :: r)
          else if b =? 1 then Some (a :: r)
          else None
      end
  end.

Definition broadcast_shapes (s1 s2 : list nat) : option (list nat) :=
  option_map (@rev nat) (broadcast_rev (rev s1) (rev s2)).

(** The index an operand of shape [s] is read at, for an index of the
    broadcast result: leading result dimensions the operand lacks are
    dropped and a dimension of size 1 is always read at 0. *)
Definition bindex (s idx : list nat) : list nat :=
  let idx' := skipn (length idx - length s) idx in
  map (fun '(n, i) => if n =? 1 then 0 else i) (combine s idx').

Definition pointwise {A B C} (f : A -> B -> C) (a : Tensor A) (b : Tensor B)
  : result (Tensor C) :=
  match broadcast_shapes (shape a) (shape b) with
  | Some s =>
      Ok (mkTensor s (fun idx =>
            f (elem a (bindex (shape a) idx)) (elem b (bindex (shape b) idx))))
  | None => Raise (TorchError "The size of tensors must match")
  end.

(** [a += b]: the broadcast shape has to be the shape of [a]. *)
Definition iadd `{Scalar R} (a b : Tensor R) : result (Tensor R) :=
  r <- pointwise add a b ;;
  assert! bool_decide (shape r = shape a)
    else TorchError "output with shape doesn't match the broadcast shape" ;;
  Ok r.

Section FloatOps.
Context `{Scalar R}.

Definition zeros (s : list nat) : Tensor R := full s zero.
Definition zeros_like {A} (t : Tensor A) : Tensor R := zeros (shape t).

(** [mask.float()] *)
Definition to_float (m : Tensor bool) : Tensor R :=
  tmap (fun b : bool => if b then one else zero) m.

(** [1 - t] *)
Definition one_minus (t : Tensor R) : Tensor R := tmap (sub one) t.

(** [x * t] for a Python number [x] *)
Definition scale (x : R) (t : Tensor R) : Tensor R := tmap (mul x) t.

(** Sum of [f 0 .. f (n-1)], added left to right. *)
Definition sum_upto (n : nat) (f : nat -> R) : R :=
  fold_left (fun acc i => add acc (f i)) (seq 0 n) zero.

(** [torch.nn.functional.linear(x, weight, bias)] with [weight] of shape
    [[out; in]] and [bias] of shape [[out]]: [x @ weight.T + bias]. *)
Definition linear (x weight : Tensor R) (bias : option (Tensor R))
  : result (Tensor R) :=
  match shape weight, rev (shape x) with
  | [out_f; in_f], last_x :: _ =>
      assert! last_x =? in_f
        else TorchError "mat1 and mat2 shapes cannot be multiplied" ;;
      assert! match bias with
              | Some b => bool_decide (shape b = [out_f])
              | None => true
              end
        else TorchError "bias shape does not match" ;;
      Ok (mkTensor (removelast (shape x) ++ [out_f])
            (fun idx =>
               let o := List.last idx 0 in
               let pre := removelast idx in
               let dot := sum_upto in_f (fun i =>
                            mul (elem x (pre ++ [i])) (elem weight [o; i])) in
               match bias with
               | Some b => add dot (elem b [o])
               | None => dot
               end))
  | _, _ => Raise (TorchError "linear: bad operand ranks")
  end.
End FloatOps.

(** Integer ([torch.long]) tensors of rank 1 are lists of 64-bit values. *)
Definition wrap64 (z : Z) : Z := ((z + 2 ^ 63) mod 2 ^ 64 - 2 ^ 63)%Z.

Definition LongVec : Type := list Z.

(** ** Data model *)

(** A text condition is a string or [None]. *)
Abbreviation TextCondition := (option string).

(** Return type of a conditioner: a condition tensor [[B, T, D]] and a
    mask [[B, T]] of its valid positions. *)
Module ConditionType.
Record t (R : Type) : Type := make {
  condition : Tensor R;
  mask : Tensor bool
}.
Arguments make {R} condition mask.
End ConditionType.

(** Input of the waveform conditioners. *)
Module WavCondition.
Record t (R : Type) : Type := make {
  wav : Tensor R;
  length : LongVec;
  sample_rate : Z;
  path : list (option string);
  seek_time : list (option Q)
}.
Arguments make {R} wav length sample_rate path seek_time.

Section Methods.
Context `{Scalar R}.

Definition is_nullified (w : t R) : bool :=
  List.last (shape (wav w)) 0 =? 1.

(** [length = int(sample_rate * duration)], here given directly. *)
Definition dummy_wav_condition (batch_size : nat) (length : nat)
  (sample_rate : Z) (channels : nat) : t R :=
  make (zeros [batch_size; channels; length])
       (repeat (Z.of_nat length) batch_size)
       sample_rate
       (repeat None batch_size)
       (repeat None batch_size).
End Methods.
End WavCondition.

(** The set of potential inputs of the conditioners for one example.  [t]
    is the content of the dataclass; where instances are mutated they are
    objects of a store, see [Store] below. *)
Module ConditionAttributes.
Record t (R : Type) : Type := make {
  text : pydict TextCondition;
  wav : pydict (WavCondition.t R)
}.
Arguments make {R} text wav.

Definition text_attributes {R} (ca : t R) : list string := dict_keys (text ca).
Definition wav_attributes {R} (ca : t R) : list string := dict_keys (wav ca).

(** [frozenset(["text", "wav"])].  The order in which a frozenset of
    strings is iterated is fixed per process by string hashing;
    [text_first] tells which of the two orders the process has. *)
Definition condition_types (text_first : bool) : list string :=
  if text_first then ["text"; "wav"] else ["wav"; "text"].
End ConditionAttributes.

(** ** Conditioner contract *)

Module BaseConditioner.
Section WithScalar.
Context `{Scalar R}.
(** The opaque prepared representation of a conditioner. *)
Variable Prepared : Type.

Inductive OutputProj : Type :=
| Linear (weight : Tensor R) (bias : option (Tensor R)) (to_dtype : R -> R)
    (* [to_dtype] casts an element to the dtype of the parameters *)
| Identity.

Record t : Type := make {
  dim : nat;
  output_dim : nat;
  pad_empty : bool;
  output_proj : OutputProj;
  learnt_padding : option (Tensor R);
  (* the abstract method, supplied by each subclass *)
  _get_condition : Prepared -> result (ConditionType.t R)
}.

(** [__init__].  The random initial values of the projection weight and
    of the padding (already scaled by 0.2) are arguments. *)
Definition init (dim output_dim : nat)
    (force_linear pad_empty output_bias learn_padding : bool)
    (weight0 padding0 : list nat -> R) (to_dtype : R -> R)
    (get_condition : Prepared -> result (ConditionType.t R)) : t :=
  make dim output_dim pad_empty
    (if force_linear || negb (dim =? output_dim) then
       Linear (mkTensor [output_dim; dim] weight0)
              (if output_bias then Some (zeros [output_dim]) else None)
              to_dtype
     else Identity)
    (if learn_padding then Some (mkTensor [1; 1; output_dim] padding0)
     else None)
    get_condition.

(** [self.output_proj(cond.to(dtype))] where [dtype] is that of the
    projection's parameters, or of [cond] when it has none. *)
Definition apply_output_proj (p : OutputProj) (cond : Tensor R)
  : result (Tensor R) :=
  match p with
  | Linear weight bias to_dtype => linear (tmap to_dtype cond) weight bias
  | Identity => Ok cond
  end.

Definition forward (self : t) (inputs : Prepared)
  : result (ConditionType.t R) :=
  cm <- _get_condition self inputs ;;
  let cond := ConditionType.condition cm in
  let mask := ConditionType.mask cm in
  match shape cond with
  | [B; T; C] =>
      cm' <- (if (T =? 0) && pad_empty self then
                let cond' := zeros [B; T; C] in
                sel <- select_last cond' ;;
                Ok (cond', full (shape sel) false)
              else Ok (cond, mask)) ;;
      let '(cond, mask) := cm' in
      cond <- apply_output_proj (output_proj self) cond ;;
      let maskf := unsqueeze_last (to_float mask) in
      cond <- match learnt_padding self with
              | Some padding =>
                  kept <- pointwise mul cond maskf ;;
                  pad <- pointwise mul padding (one_minus maskf) ;;
                  pointwise add kept pad
              | None => pointwise mul cond maskf
              end ;;
      Ok (ConditionType.make cond mask)
  | _ => Raise (ValueError "not enough or too many values to unpack (expected 3)")
  end.
End WithScalar.
Arguments OutputProj : clear implicits.
Arguments t : clear implicits.
End BaseConditioner.

(** ** Nullifying a waveform condition *)

Definition nullify_wav `{Scalar R} (wav : WavCondition.t R)
  : result (WavCondition.t R) :=
  sl <- slice3_first (WavCondition.wav wav) ;;
  Ok (WavCondition.make
        (zeros_like sl)
        (map (fun _ => 0%Z) (WavCondition.length wav))
        (WavCondition.sample_rate wav)
        (repeat None (List.length (WavCondition.path wav)))
        (repeat None (List.length (WavCondition.seek_time wav)))).

(** ** The store of mutable objects and the generator *)

Definition loc : Type := nat.

(** [torch.Generator]: the stream of uniform draws its seed determines and
    the number of draws consumed so far. *)
Module Generator.
Record t : Type := make {
  draws : nat -> Q;
  consumed : nat
}.

(** [torch.rand(1, generator=g).item()] *)
Definition rand (g : t) : Q * t :=
  (draws g (consumed g), make (draws g) (S (consumed g))).

(** [g.manual_seed(seed)], for the stream [stream seed] of the seed. *)
Definition manual_seed (stream : Z -> nat -> Q) (seed : Z) : t :=
  make (stream seed) 0.
End Generator.

(** What the dropout policies read and write.  A [ConditionAttributes]
    instance holds references to its two dictionaries, which are objects
    of their own: [copy] makes new dictionaries and nullification assigns
    into a dictionary.  The three kinds of objects have a region each, and
    a location is an index into the region of its kind.  [rng] is the
    generator [self.rng] of the dropout module. *)
Record Store (R : Type) : Type := mkStore {
  attrs : list (loc * loc);                    (* (text, wav) of an instance *)
  text_dicts : list (pydict TextCondition);
  wav_dicts : list (pydict (WavCondition.t R));
  rng : Generator.t
}.
Arguments mkStore {R} attrs text_dicts wav_dicts rng.

(** Computations that read and write the store and may raise. *)
Definition M (R A : Type) : Type := Store R -> result (A * Store R).

Declare Scope store_scope.
Delimit Scope store_scope with store.

Section StoreMonad.
Context {R : Type}.

Definition ret {A} (a : A) : M R A := fun s => Ok (a, s).

Definition raise {A} (e : exn) : M R A := fun _ => Raise e.

Definition sbind {A B} (m : M R A) (k : A -> M R B) : M R B :=
  fun s =>
    match m s with
    | Ok (a, s') => k a s'
    | Raise e => Raise e
    end.

Definition lift {A} (r : result A) : M R A :=
  fun s => match r with Ok a => Ok (a, s) | Raise e => Raise e end.

Definition deref {A} (region : Store R -> list A) (l : loc) : M R A :=
  fun s =>
    match region s !! l with
    | Some o => Ok (o, s)
    | None => Raise (TypeError "dangling reference")
    end.

Definition new_attrs (tw : loc * loc) : M R loc :=
  fun s => Ok (List.length (attrs s),
               mkStore (attrs s ++ [tw]) (text_dicts s) (wav_dicts s) (rng s)).

Definition new_text_dict (d : pydict TextCondition) : M R loc :=
  fun s => Ok (List.length (text_dicts s),
               mkStore (attrs s) (text_dicts s ++ [d]) (wav_dicts s) (rng s)).

Definition new_wav_dict (d : pydict (WavCondition.t R)) : M R loc :=
  fun s => Ok (List.length (wav_dicts s),
               mkStore (attrs s) (text_dicts s) (wav_dicts s ++ [d]) (rng s)).

Definition set_text_dict (l : loc) (d : pydict TextCondition) : M R unit :=
  fun s => Ok (tt, mkStore (attrs s) (<[l := d]> (text_dicts s))
                     (wav_dicts s) (rng s)).

Definition set_wav_dict (l : loc) (d : pydict (WavCondition.t R)) : M R unit :=
  fun s => Ok (tt, mkStore (attrs s) (text_dicts s)
                     (<[l := d]> (wav_dicts s)) (rng s)).

Definition rand : M R Q :=
  fun s =>
    let '(x, g) := Generator.rand (rng s) in
    Ok (x, mkStore (attrs s) (text_dicts s) (wav_dicts s) g).
End StoreMonad.

Notation "x <- m ;; k" := (sbind m (fun x => k))
  (at level 100, m at next level, right associativity) : store_scope.

Section StoreLoops.
Context {R : Type}.
Local Open Scope store_scope.

(** [for x in xs: body(x)] *)
Fixpoint for_ {A} (xs : list A) (body : A -> M R unit) : M R unit :=
  match xs with
  | [] => ret tt
  | x :: xs' => _ <- body x ;; for_ xs' body
  end.

(** [[f(x) for x in xs]] *)
Fixpoint comprehension {A B} (xs : list A) (f : A -> M R B) : M R (list B) :=
  match xs with
  | [] => ret []
  | x :: xs' => y <- f x ;; ys <- comprehension xs' f ;; ret (y :: ys)
  end.

(** [ConditionAttributes.copy]:
    [ConditionAttributes(dict(self.text), dict(self.wav))] *)
Definition copy (self : loc) : M R loc :=
  tw <- deref (@attrs R) self ;;
  td <- deref (@text_dicts R) (fst tw) ;;
  t' <- new_text_dict td ;;
  wd <- deref (@wav_dicts R) (snd tw) ;;
  w' <- new_wav_dict wd ;;
  new_attrs (t', w').

(** The keys of [getattr(sample, condition_type)].  A loop over them may
    assign to keys that exist, which leaves the keys and their order as
    they are. *)
Definition attribute_keys (sample : loc) (condition_type : string)
  : M R (list string) :=
  tw <- deref (@attrs R) sample ;;
  if String.eqb condition_type "text" then
    d <- deref (@text_dicts R) (fst tw) ;; ret (dict_keys d)
  else if String.eqb condition_type "wav" then
    d <- deref (@wav_dicts R) (snd tw) ;; ret (dict_keys d)
  else raise (TypeError "ConditionAttributes has no such attribute").
End StoreLoops.

(** The content of the [ConditionAttributes] instance at [l], if any. *)
Definition read_attrs {R} (s : Store R) (l : loc)
  : option (ConditionAttributes.t R) :=
  match attrs s !! l with
  | Some (t, w) =>
      match text_dicts s !! t, wav_dicts s !! w with
      | Some td, Some wd => Some (ConditionAttributes.make td wd)
      | _, _ => None
      end
  | None => None
  end.

(** ** Dropout policies *)

Section Dropout.
Context `{Scalar R}.
(** Order in which this process iterates [condition_types()]. *)
Variable text_first : bool.
Local Open Scope store_scope.

(** Nullify one attribute of [sample], in place. *)
Definition dropout_condition_ (sample : loc) (condition_type condition : string)
  : M R unit :=
  let valid_conditions := ConditionAttributes.condition_types text_first in
  if negb (str_in condition_type valid_conditions) then
    raise (ValueError "dropout_condition got an unexpected condition type!")
  else
    keys <- attribute_keys sample condition_type ;;
    if negb (str_in condition keys) then
      raise (ValueError "dropout_condition received an unexpected condition!")
    else
      tw <- deref (@attrs R) sample ;;
      if String.eqb condition_type "wav" then
        wd <- deref (@wav_dicts R) (snd tw) ;;
        wav_cond <- lift (dict_item wd condition) ;;
        nw <- lift (nullify_wav wav_cond) ;;
        set_wav_dict (snd tw) (dict_set wd condition nw)
      else
        td <- deref (@text_dicts R) (fst tw) ;;
        set_text_dict (fst tw) (dict_set td condition None).
End Dropout.

(** [x < y] on Python floats. *)
Definition Qltb (x y : Q) : bool := negb (Qle_bool y x).

(** Dropout with a given probability per attribute.  The generator
    [self.rng] that [DropoutModule] seeds is the [rng] of the store. *)
Module AttributeDropout.
Record t : Type := make {
  training : bool;
  active_on_eval : bool;
  dropouts : gmap string Q
}.

Section Forward.
Context `{Scalar R}.
Variable text_first : bool.
Local Open Scope store_scope.

Definition forward (self : t) (condition_attributes_batch : list loc)
  : M R (list loc) :=
  if negb (training self) && negb (active_on_eval self) then
    ret condition_attributes_batch
  else
    batch <- comprehension condition_attributes_batch copy ;;
    _ <- for_ batch (fun condition_attributes =>
      for_ (ConditionAttributes.condition_types text_first) (fun condition_type =>
        keys <- attribute_keys condition_attributes condition_type ;;
        for_ keys (fun condition =>
          match dropouts self !! condition with
          | Some p =>
              x <- rand ;;
              if Qltb x p then
                dropout_condition_ text_first condition_attributes
                  condition_type condition
              else ret tt
          | None => ret tt
          end))) ;;
    ret batch.
End Forward.
End AttributeDropout.

(** Classifier-free-guidance dropout: all attributes share one decision.
    Its constructor takes [p] and the seed, and nothing else. *)
Module ClassifierFreeGuidanceDropout.
Record t : Type := make {
  training : bool;
  p : Q
}.

Section Forward.
Context `{Scalar R}.
Variable text_first : bool.
Local Open Scope store_scope.

Definition forward (self : t) (samples : list loc) : M R (list loc) :=
  if negb (training self) then ret samples
  else
    x <- rand ;;
    let drop := Qltb x (p self) in
    if negb drop then ret samples
    else
      samples <- comprehension samples copy ;;
      _ <- for_ (ConditionAttributes.condition_types text_first) (fun condition_type =>
        for_ samples (fun sample =>
          keys <- attribute_keys sample condition_type ;;
          for_ keys (fun condition =>
            dropout_condition_ text_first sample condition_type condition))) ;;
      ret samples.
End Forward.
End ClassifierFreeGuidanceDropout.

(** ** Condition provider *)

Module ConditionProvider.
(** What [isinstance] tells about a registered conditioner. *)
Inductive Family : Type :=
| TextFamily        (* a [_BaseTextConditioner] *)
| WaveformFamily    (* a [_BaseWaveformConditioner] *)
| OtherFamily.      (* any other [BaseConditioner] *)

Definition Family_eqb (a b : Family) : bool :=
  match a, b with
  | TextFamily, TextFamily | WaveformFamily, WaveformFamily
  | OtherFamily, OtherFamily => true
  | _, _ => false
  end.

(** The collated input handed to a conditioner's [prepare]. *)
Inductive RawBatch (R : Type) : Type :=
| TextBatch (texts : list TextCondition)
| WavBatch (wavs : WavCondition.t R).
Arguments TextBatch {R} texts.
Arguments WavBatch {R} wavs.

Section WithScalar.
Context `{Scalar R}.
Variable Prepared : Type.
(** [msh.data.audio_utils.stack_and_pad_audio], which is not part of
    this module. *)
Variable stack_and_pad_audio : list (Tensor R) -> result (Tensor R).

Record Conditioner : Type := mkConditioner {
  family : Family;
  prepare_input : RawBatch R -> result Prepared
}.

Record t : Type := make {
  conditioners : pydict Conditioner
}.

Definition names_of (f : Family) (self : t) : list string :=
  map fst (List.filter (fun kv => Family_eqb (family (snd kv)) f) (conditioners self)).

Definition text_conditions (self : t) : list string := names_of TextFamily self.
Definition wav_conditions (self : t) : list string := names_of WaveformFamily self.

Definition _collate_text (self : t) (samples : list (ConditionAttributes.t R))
  : result (pydict (list TextCondition)) :=
  let texts := map (@ConditionAttributes.text R) samples in
  for_each texts (fun out text =>
    for_each (text_conditions self) (fun out condition =>
      v <- dict_item text condition ;;
      Ok (dd_append out condition v)) out) [].

(** The five [defaultdict(list)] of [_collate_wavs]. *)
Record WavLists : Type := mkWavLists {
  wavs : pydict (list (Tensor R));
  lengths : pydict (list LongVec);
  sample_rates : pydict (list Z);
  paths : pydict (list (option string));
  seek_times : pydict (list (option Q))
}.

(** [torch.cat] of a list of rank-1 integer tensors. *)
Definition cat_long (ts : list LongVec) : result LongVec :=
  match ts with
  | [] => Raise (TorchError "torch.cat(): expected a non-empty list of Tensors")
  | _ => Ok (concat ts)
  end.

Definition collect_wav (acc : WavLists) (sample : ConditionAttributes.t R)
    (attribute : string) : result WavLists :=
  w <- dict_item (ConditionAttributes.wav sample) attribute ;;
  let wav := WavCondition.wav w in
  assert! ndim wav =? 3
    else AssertionError "Got wav with wrong dim, but expected 3 [1, C, T]" ;;
  assert! size wav 0 =? 1
    else AssertionError "Got wav [B, C, T], but expected B == 1" ;;
  wav0 <- select_first wav ;;
  Ok (mkWavLists
        (dd_append (wavs acc) attribute wav0)
        (dd_append (lengths acc) attribute (WavCondition.length w))
        (dd_append (sample_rates acc) attribute (WavCondition.sample_rate w))
        (dd_extend (paths acc) attribute (WavCondition.path w))
        (dd_extend (seek_times acc) attribute (WavCondition.seek_time w))).

Definition stack_wav (acc : WavLists) (out : pydict (WavCondition.t R))
    (attribute : string) : result (pydict (WavCondition.t R)) :=
  match dd_get (sample_rates acc) attribute with
  | [] => Raise (IndexError "list index out of range")
  | sample_rate :: _ =>
      assert! forallb (fun sr => Z.eqb sr sample_rate)
                (dd_get (sample_rates acc) attribute)
        else AssertionError "All sample rates in batch should match" ;;
      stacked_wav <- stack_and_pad_audio (dd_get (wavs acc) attribute) ;;
      len <- cat_long (dd_get (lengths acc) attribute) ;;
      Ok (dict_set out attribute
            (WavCondition.make stacked_wav len sample_rate
               (dd_get (paths acc) attribute)
               (dd_get (seek_times acc) attribute)))
  end.

Definition _collate_wavs (self : t) (samples : list (ConditionAttributes.t R))
  : result (pydict (WavCondition.t R)) :=
  acc <- for_each samples (fun acc sample =>
           for_each (wav_conditions self) (fun acc attribute =>
             collect_wav acc sample attribute) acc)
         (mkWavLists [] [] [] [] []) ;;
  (* stack all wavs to a single tensor *)
  for_each (wav_conditions self) (stack_wav acc) [].

(** The first assertion of [prepare], that every input is a
    [ConditionAttributes], holds by typing.  [missing_inputs] is a set in
    the source; here its names come in the order of the registry. *)
Definition prepare (self : t) (inputs : list (ConditionAttributes.t R))
  : result (pydict Prepared) :=
  text <- _collate_text self inputs ;;
  wavs <- _collate_wavs self inputs ;;
  let registered := dict_keys (conditioners self) in
  let fed := dict_keys text ++ dict_keys wavs in
  assert! forallb (fun k => str_in k registered) fed
    else AssertionError "Got an unexpected attribute!" ;;
  let missing_inputs := List.filter (fun k => negb (str_in k fed)) registered in
  match missing_inputs with
  | _ :: _ => Raise (MissingInputs missing_inputs)
  | [] =>
      for_each
        (map (fun kv => (fst kv, TextBatch (snd kv))) text
         ++ map (fun kv => (fst kv, WavBatch (snd kv))) wavs)
        (fun output ab =>
           c <- dict_item (conditioners self) (fst ab) ;;
           pr <- prepare_input c (snd ab) ;;
           Ok (dict_set output (fst ab) pr))
        []
  end.
End WithScalar.
Arguments Conditioner : clear implicits.
Arguments t : clear implicits.
Arguments WavLists : clear implicits.
End ConditionProvider.

(** ** Condition fuser *)

Module ConditionFuser.
Definition FUSING_METHODS : list string := ["sum"; "prepend"; "cross"].

Section WithScalar.
Context `{Scalar R}.
(** [msh.modules.transformer.create_sin_embedding], which is not part
    of this module; it is given the positions and the channel width. *)
Variable create_sin_embedding : Tensor Z -> nat -> Tensor R.

(** Modelled from the spec: the base class [StreamingModule] is not
    among the sources.  It contributes the two fields
    [_streaming_state], a dictionary that holds the fuser's per-example
    offsets under the key "offsets" while a streaming session is under
    way, and [_is_streaming], set while the fuser operates in
    streaming mode. *)
Record t : Type := make {
  cross_attention_pos_emb : bool;
  cross_attention_pos_emb_scale : R;
  fuse2cond : pydict (list string);
  cond2fuse : pydict string;
  _streaming_state : pydict LongVec;
  _is_streaming : bool
}.

Definition init (fuse2cond : pydict (list string))
    (cross_attention_pos_emb : bool) (cross_attention_pos_emb_scale : R)
  : result t :=
  assert! forallb (fun k => str_in k FUSING_METHODS) (dict_keys fuse2cond)
    else AssertionError "Got invalid fuse method" ;;
  let cond2fuse :=
    fold_left (fun c2f mc =>
        fold_left (fun c2f condition => dict_set c2f condition (fst mc))
          (snd mc) c2f)
      fuse2cond [] in
  Ok (make cross_attention_pos_emb cross_attention_pos_emb_scale
        fuse2cond cond2fuse [] false).

(** Modelled from the spec: entering a streaming session, which
    [StreamingModule] provides.  A session starts in streaming mode
    with no offsets carried over from an earlier session. *)
Definition start_streaming (self : t) : t :=
  make (cross_attention_pos_emb self) (cross_attention_pos_emb_scale self)
    (fuse2cond self) (cond2fuse self) [] true.

Definition set_streaming_state (self : t) (k : string) (v : LongVec) : t :=
  make (cross_attention_pos_emb self) (cross_attention_pos_emb_scale self)
    (fuse2cond self) (cond2fuse self)
    (dict_set (_streaming_state self) k v) (_is_streaming self).

(** [torch.arange(n).view(1, -1, 1)] *)
Definition arange_1n1 (n : nat) : Tensor Z :=
  mkTensor [1; n; 1] (fun idx => Z.of_nat (nth 1 idx 0)).

(** One turn of the loop over [conditions.items()]. *)
Definition fuse_one (self : t) (first_step : bool)
    (acc : Tensor R * option (Tensor R))
    (item : string * ConditionType.t R)
  : result (Tensor R * option (Tensor R)) :=
  let '(input, cross_attention_output) := acc in
  let cond := ConditionType.condition (snd item) in
  op <- dict_item (cond2fuse self) (fst item) ;;
  if String.eqb op "sum" then
    input' <- iadd input cond ;; Ok (input', cross_attention_output)
  else if String.eqb op "prepend" then
    if first_step then
      input' <- cat1 cond input ;; Ok (input', cross_attention_output)
    else Ok acc
  else if String.eqb op "cross" then
    match cross_attention_output with
    | Some c => c' <- cat1 c cond ;; Ok (input, Some c')
    | None => Ok (input, Some cond)
    end
  else Raise (ValueError "unknown op").

Definition forward (self : t) (input : Tensor R)
    (conditions : pydict (ConditionType.t R))
  : result ((Tensor R * option (Tensor R)) * t) :=
  match shape input with
  | [B; T; _] =>
      let '(first_step, offsets) :=
        match dict_get (_streaming_state self) "offsets" with
        | Some offsets => (false, offsets)
        | None => (true, repeat 0%Z B)
        end in
      assert! forallb (fun k => str_in k (dict_keys (cond2fuse self)))
                (dict_keys conditions)
        else AssertionError
               "given conditions contain unknown attributes for fuser" ;;
      fused <- for_each conditions (fuse_one self first_step) (input, None) ;;
      let '(input, cross_attention_output) := fused in
      cross_attention_output <-
        match cross_attention_output with
        | Some c =>
            if cross_attention_pos_emb self then
              let positions := arange_1n1 (size c 1) in
              let pos_emb :=
                create_sin_embedding positions (List.last (shape c) 0) in
              c' <- pointwise add c
                      (scale (cross_attention_pos_emb_scale self) pos_emb) ;;
              Ok (Some c')
            else Ok (Some c)
        | None => Ok None
        end ;;
      let self' :=
        if _is_streaming self then
          set_streaming_state self "offsets"
            (map (fun o => wrap64 (o + Z.of_nat T)) offsets)
        else self in
      Ok ((input, cross_attention_output), self')
  | _ => Raise (ValueError "not enough or too many values to unpack (expected 3)")
  end.
End WithScalar.
Arguments t : clear implicits.
End ConditionFuser.

(** * Vocabulary of the properties *)

Section Vocabulary.
Context `{Scalar R}.
Local Open Scope store_scope.

Local Abbreviation CA := (ConditionAttributes.t R).
Local Abbreviation Wav := (WavCondition.t R).

(** ** Conditioners *)

(** Channel [c] of the padding value: of the learnt padding vector, or
    zero. *)
Definition padding_value (padding : option (Tensor R)) (c : nat) : R :=
  match padding with
  | Some p => elem p [0; 0; c]
  | None => zero
  end.

(** What the blend of [forward] computes at one position, from the
    projected value [x], the mask [valid] of the position and the learnt
    padding [pad] of the channel, if any:
    [x * maskf + pad * (1 - maskf)], or [x * maskf]. *)
Definition blend_value (x : R) (valid : bool) (pad : option R) : R :=
  let maskf := if valid then one else zero in
  match pad with
  | Some p => add (mul x maskf) (mul p (sub one maskf))
  | None => mul x maskf
  end.

(** Channel [c] of the learnt padding vector, if there is one. *)
Definition padding_at (padding : option (Tensor R)) (c : nat) : option R :=
  option_map (fun p => elem p [0; 0; c]) padding.

(** ** Examples in the store *)

(** What [nullify_wav] returns for a waveform of rank 3. *)
Definition nullified (w : Wav) : Wav :=
  WavCondition.make
    (zeros (match shape (WavCondition.wav w) with
            | b :: c :: n :: s' => b :: c :: Nat.min 1 n :: s'
            | s => s
            end))
    (map (fun _ => 0%Z) (WavCondition.length w))
    (WavCondition.sample_rate w)
    (repeat None (List.length (WavCondition.path w)))
    (repeat None (List.length (WavCondition.seek_time w))).

(** An example as Python has it: no key occurs twice in a dictionary,
    and every waveform is 3-dim, [[B, C, T]]. *)
Definition well_formed (ca : CA) : Prop :=
  List.NoDup (dict_keys (ConditionAttributes.text ca)) /\
  List.NoDup (dict_keys (ConditionAttributes.wav ca)) /\
  Forall (fun kv => ndim (WavCondition.wav (snd kv)) = 3) (ConditionAttributes.wav ca).

(** The instance at [l] has its dictionaries at [t] and [w], with the
    content [ca]. *)
Definition holds (s : Store R) (l t w : loc) (ca : CA) : Prop :=
  attrs s !! l = Some (t, w) /\
  text_dicts s !! t = Some (ConditionAttributes.text ca) /\
  wav_dicts s !! w = Some (ConditionAttributes.wav ca).

(** The store after the dictionaries at [t] and [w] received the content
    [ca] and the generator became [g]. *)
Definition put (s : Store R) (t w : loc) (ca : CA) (g : Generator.t) : Store R :=
  mkStore (attrs s)
    (<[t := ConditionAttributes.text ca]> (text_dicts s))
    (<[w := ConditionAttributes.wav ca]> (wav_dicts s)) g.

(** The instances [ls] have their dictionaries at [tws] and the contents
    [cas]. *)
Inductive placed (s : Store R) : list loc -> list (loc * loc) -> list CA -> Prop :=
| placed_nil : placed s [] [] []
| placed_cons l t w ca ls tws cas :
    holds s l t w ca -> well_formed ca -> placed s ls tws cas ->
    placed s (l :: ls) ((t, w) :: tws) (ca :: cas).

(** [s'] differs from [s] at most in the dictionaries at [tws] and in
    the generator. *)
Definition changes_only (tws : list (loc * loc)) (s s' : Store R) : Prop :=
  attrs s' = attrs s /\
  (forall x, ~ In x (map fst tws) -> text_dicts s' !! x = text_dicts s !! x) /\
  (forall x, ~ In x (map snd tws) -> wav_dicts s' !! x = wav_dicts s !! x).

(** Every object of [s] is in [s'], unchanged. *)
Definition preserves (s s' : Store R) : Prop :=
  (forall l x, attrs s !! l = Some x -> attrs s' !! l = Some x) /\
  (forall l x, text_dicts s !! l = Some x -> text_dicts s' !! l = Some x) /\
  (forall l x, wav_dicts s !! l = Some x -> wav_dicts s' !! l = Some x).

(** A loop body that works on the instance it is given and on nothing
    else: [Rc] relates the content before and after, [Rg] the generator. *)
Definition acts_locally (body : loc -> M R unit)
    (Rc : CA -> CA -> Prop) (Rg : Generator.t -> Generator.t -> Prop) : Prop :=
  forall s l t w ca, holds s l t w ca -> well_formed ca ->
    exists ca' g',
      body l s = Ok (tt, put s t w ca' g') /\
      well_formed ca' /\ Rc ca ca' /\ Rg (rng s) g'.

(** The generator only advances. *)
Definition advanced (g g' : Generator.t) : Prop :=
  Generator.draws g' = Generator.draws g /\
  Generator.consumed g <= Generator.consumed g'.

(** The example keeps its keys. *)
Definition same_keys (ca ca' : CA) : Prop :=
  dict_keys (ConditionAttributes.text ca') = dict_keys (ConditionAttributes.text ca) /\
  dict_keys (ConditionAttributes.wav ca') = dict_keys (ConditionAttributes.wav ca).

(** An example with every text attribute [None], and one with every
    waveform nullified. *)
Definition null_text (ca : CA) : CA :=
  ConditionAttributes.make
    (map (fun kv => (fst kv, None)) (ConditionAttributes.text ca))
    (ConditionAttributes.wav ca).

Definition null_wavs (ca : CA) : CA :=
  ConditionAttributes.make
    (ConditionAttributes.text ca)
    (map (fun kv => (fst kv, nullified (snd kv))) (ConditionAttributes.wav ca)).

(** ** Loop bodies of the dropout policies *)

Variable text_first : bool.

(** One pass of the guidance dropout over one example. *)
Definition nullify_pass (condition_type : string) (sample : loc) : M R unit :=
  keys <- attribute_keys sample condition_type ;;
  for_ keys (fun condition =>
    dropout_condition_ text_first sample condition_type condition).

(** The body of the innermost loop of the attribute dropout, and its
    loop over the keys of one dictionary. *)
Definition gated_drop (self : AttributeDropout.t) (sample : loc)
    (condition_type condition : string) : M R unit :=
  match AttributeDropout.dropouts self !! condition with
  | Some p =>
      x <- rand ;;
      if Qltb x p then
        dropout_condition_ text_first sample condition_type condition
      else ret tt
  | None => ret tt
  end.

Definition gated_pass (self : AttributeDropout.t) (sample : loc)
    (condition_type : string) : M R unit :=
  keys <- attribute_keys sample condition_type ;;
  for_ keys (gated_drop self sample condition_type).

(** ** Waveform collation *)

(** A waveform as collation accepts it: rank 3, leading dimension 1. *)
Definition collatable (w : Wav) : Prop :=
  ndim (WavCondition.wav w) = 3 /\ size (WavCondition.wav w) 0 = 1.

(** From [acc] to [acc'], the lists of attribute [a] received the
    entries of the waveforms [ws], in this order. *)
Definition grows (acc acc' : ConditionProvider.WavLists R) (a : string)
    (ws : list Wav) : Prop :=
  dd_get (ConditionProvider.lengths acc') a
    = dd_get (ConditionProvider.lengths acc) a
      ++ map (@WavCondition.length R) ws /\
  dd_get (ConditionProvider.sample_rates acc') a
    = dd_get (ConditionProvider.sample_rates acc) a
      ++ map (@WavCondition.sample_rate R) ws /\
  dd_get (ConditionProvider.paths acc') a
    = dd_get (ConditionProvider.paths acc) a
      ++ concat (map (@WavCondition.path R) ws) /\
  dd_get (ConditionProvider.seek_times acc') a
    = dd_get (ConditionProvider.seek_times acc) a
      ++ concat (map (@WavCondition.seek_time R) ws).
End Vocabulary.

(** * Concrete inputs *)

(** Instances over [Z], on which the properties are exercised. *)

Module Examples.
(** A conditioner whose raw condition is empty in time, shape
    [[2; 0; 4]], built with [pad_empty=True]. *)
Definition raw_empty : ConditionType.t Z :=
  ConditionType.make (mkTensor [2; 0; 4] (fun _ => 5%Z))
                     (mkTensor [2; 0] (fun _ => true)).

Definition empty_conditioner : BaseConditioner.t Z unit :=
  BaseConditioner.init 4 4 true true false true
    (fun _ => 1%Z) (fun _ => 7%Z) (fun x => x) (fun _ => Ok raw_empty).

(** A conditioner whose raw condition has shape [[1; 2; 2]], valid at
    time 0 and padded at time 1, projected to 3 channels. *)
Definition raw_short : ConditionType.t Z :=
  ConditionType.make
    (mkTensor [1; 2; 2] (fun idx => Z.of_nat (10 * nth 1 idx 0 + nth 2 idx 0 + 1)))
    (mkTensor [1; 2] (fun idx => nth 1 idx 0 =? 0)).


(** [WavCondition.dummy_wav_condition(duration=0)]: a waveform with no
    sample. *)
Definition empty_wav : WavCondition.t Z :=
  WavCondition.dummy_wav_condition 1 0 24000 1.

(** Two waveforms of one example each. *)
Definition wav_a : WavCondition.t Z :=
  WavCondition.make (mkTensor [1; 1; 4] (fun _ => 1%Z)) [4%Z] 24000
    [Some "a.wav"] [Some 0%Q].

Definition wav_b : WavCondition.t Z :=
  WavCondition.make (mkTensor [1; 1; 3] (fun _ => 2%Z)) [3%Z] 24000
    [Some "b.wav"] [None].

(** [wav_b] declared at another sample rate, and with a batch of two. *)
Definition wav_b_16k : WavCondition.t Z :=
  WavCondition.make (mkTensor [1; 1; 3] (fun _ => 2%Z)) [3%Z] 16000
    [Some "b.wav"] [None].

Definition wav_pair : WavCondition.t Z :=
  WavCondition.make (mkTensor [2; 1; 3] (fun _ => 2%Z)) [3%Z; 3%Z] 24000
    [None; None] [None; None].

(** A store with one example, and a generator whose draws are all 0. *)
Definition rock : ConditionAttributes.t Z :=
  ConditionAttributes.make [("genre", Some "rock"); ("mood", None)]
                           [("self_wav", wav_a)].

Definition store0 : Store Z :=
  mkStore [(0, 0)] [ConditionAttributes.text rock] [ConditionAttributes.wav rock]
    (Generator.make (fun _ => 0%Q) 0).

(** Modelled from the spec: the external primitive that stacks
    waveforms of shape [[C, T_i]] into one tensor [[N, C, max T_i]],
    padded with zeros; [msh.data.audio_utils] is not among the sources. *)
Definition stack_and_pad_audio (ts : list (Tensor Z)) : result (Tensor Z) :=
  match ts with
  | [] => Raise (TorchError "stack expects a non-empty list")
  | t0 :: _ =>
      let T := fold_right Nat.max 0 (map (fun t => size t 1) ts) in
      Ok (mkTensor [List.length ts; size t0 0; T]
            (fun idx =>
               match idx with
               | [n; c; i] =>
                   match nth_error ts n with
                   | Some t => if i <? size t 1 then elem t [c; i] else 0%Z
                   | None => 0%Z
                   end
               | _ => 0%Z
               end))
  end.

(** Conditioners whose prepared representation is their collated input. *)
Definition text_conditioner
  : ConditionProvider.Conditioner Z (ConditionProvider.RawBatch Z) :=
  ConditionProvider.mkConditioner ConditionProvider.TextFamily (fun b => Ok b).

Definition wav_conditioner
  : ConditionProvider.Conditioner Z (ConditionProvider.RawBatch Z) :=
  ConditionProvider.mkConditioner ConditionProvider.WaveformFamily (fun b => Ok b).

Definition genre_provider
  : ConditionProvider.t Z (ConditionProvider.RawBatch Z) :=
  ConditionProvider.make [("genre", text_conditioner)].

Definition wav_provider
  : ConditionProvider.t Z (ConditionProvider.RawBatch Z) :=
  ConditionProvider.make [("self_wav", wav_conditioner)].

(** An example with the attribute [mood], which [genre_provider] does
    not know. *)
Definition rock_with_mood : ConditionAttributes.t Z :=
  ConditionAttributes.make [("genre", Some "rock"); ("mood", Some "happy")] [].

Definition with_wav (w : WavCondition.t Z) : ConditionAttributes.t Z :=
  ConditionAttributes.make [] [("self_wav", w)].

(** The configuration of the fuser example: [genre] is summed,
    [description] goes to cross-attention, [lyrics] is prepended. *)
Definition fuse2cond : pydict (list string) :=
  [("sum", ["genre"]); ("cross", ["description"]); ("prepend", ["lyrics"])].

Definition ones (s : list nat) : Tensor Z := full s 1%Z.

Definition condition_238 : ConditionType.t Z :=
  ConditionType.make (ones [2; 3; 8]) (full [2; 3] true).
End Examples.

(** * Vocabulary of the further properties *)

Section FuserVocabulary.
Context `{Scalar R}.
Variable create_sin_embedding : Tensor Z -> nat -> Tensor R.

(** The fusing method of a condition, and the conditions of one method. *)
Definition fused_by (self : ConditionFuser.t R) (op : string)
    (item : string * ConditionType.t R) : bool :=
  match dict_get (ConditionFuser.cond2fuse self) (fst item) with
  | Some op' => String.eqb op' op
  | None => false
  end.

(** The time length of a condition, [cond.shape[1]]. *)
Definition time_steps (item : string * ConditionType.t R) : nat :=
  size (ConditionType.condition (snd item)) 1.

(** A condition the fuser can fuse into a stream of [B] examples and [D]
    channels: its attribute is configured, a summed condition has one
    time step, to broadcast over time, and a prepended or
    cross-attention condition has any number of time steps. *)
Definition fusible (self : ConditionFuser.t R) (B D : nat)
    (item : string * ConditionType.t R) : Prop :=
  let cond := ConditionType.condition (snd item) in
  match dict_get (ConditionFuser.cond2fuse self) (fst item) with
  | Some op =>
      (op = "sum" /\ shape cond = [B; 1; D]) \/
      ((op = "prepend" \/ op = "cross") /\ exists n, shape cond = [B; n; D])
  | None => False
  end.

(** A streaming session: successive calls of [forward] on one fuser, each
    with its input and its conditions. *)
Fixpoint session (self : ConditionFuser.t R)
    (calls : list (Tensor R * pydict (ConditionType.t R)))
  : result (list (Tensor R * option (Tensor R)) * ConditionFuser.t R) :=
  match calls with
  | [] => Ok ([], self)
  | (input, conditions) :: calls' =>
      r <- ConditionFuser.forward create_sin_embedding self input conditions ;;
      rs <- session (snd r) calls' ;;
      Ok (fst r :: fst rs, snd rs)
  end.
End FuserVocabulary.

(** ** Outcome of the attribute dropout *)

Section DropoutVocabulary.
Context `{Scalar R}.
Variable self : AttributeDropout.t.

Local Abbreviation CA := (ConditionAttributes.t R).

(** The attribute [k] has a dropout probability. *)
Definition configured (k : string) : bool :=
  match AttributeDropout.dropouts self !! k with
  | Some _ => true
  | None => false
  end.

(** The number of attributes of an example that have a dropout
    probability. *)
Definition configured_count (ca : CA) : nat :=
  List.length (List.filter configured (dict_keys (ConditionAttributes.text ca))) +
  List.length (List.filter configured (dict_keys (ConditionAttributes.wav ca))).

(** An example with every configured attribute nullified. *)
Definition drop_configured (ca : CA) : CA :=
  ConditionAttributes.make
    (map (fun kv => (fst kv, if configured (fst kv) then None else snd kv))
       (ConditionAttributes.text ca))
    (map (fun kv => (fst kv, if configured (fst kv) then nullified (snd kv)
                             else snd kv))
       (ConditionAttributes.wav ca)).

(** The decisions of the attribute dropout, draw by draw.  [gate] goes
    through the entries of one dictionary once the generator has consumed
    [n] draws of the stream [draws]: an entry whose key is configured
    takes the next draw and is nullified, by [null], when the draw is
    below its probability.  It returns the dictionary and the number of
    draws consumed. *)
Variable draws : nat -> Q.

Fixpoint gate {V} (null : V -> V) (d : pydict V) (n : nat) : pydict V * nat :=
  match d with
  | [] => ([], n)
  | (k, v) :: d' =>
      match AttributeDropout.dropouts self !! k with
      | Some p =>
          let r := gate null d' (S n) in
          ((k, if Qltb (draws n) p then null v else v) :: fst r, snd r)
      | None =>
          let r := gate null d' n in
          ((k, v) :: fst r, snd r)
      end
  end.

(** One example: its two dictionaries, in the order of the condition
    types. *)
Definition gate_example (text_first : bool) (ca : CA) (n : nat) : CA * nat :=
  if text_first then
    let rt := gate (fun _ => None) (ConditionAttributes.text ca) n in
    let rw := gate (@nullified R _) (ConditionAttributes.wav ca) (snd rt) in
    (ConditionAttributes.make (fst rt) (fst rw), snd rw)
  else
    let rw := gate (@nullified R _) (ConditionAttributes.wav ca) n in
    let rt := gate (fun _ => None) (ConditionAttributes.text ca) (snd rw) in
    (ConditionAttributes.make (fst rt) (fst rw), snd rt).

(** A batch: its examples in order. *)
Fixpoint gate_batch (text_first : bool) (cas : list CA) (n : nat)
  : list CA * nat :=
  match cas with
  | [] => ([], n)
  | ca :: cas' =>
      let r := gate_example text_first ca n in
      let rs := gate_batch text_first cas' (snd r) in
      (fst r :: fst rs, snd rs)
  end.
End DropoutVocabulary.

(** Further instances over [Z]. *)

Module Cases.
(** The fuser that the constructor builds from [Examples.fuse2cond]. *)
Definition fuser : ConditionFuser.t Z :=
  match ConditionFuser.init Examples.fuse2cond false 1%Z with
  | Ok fuser => fuser
  | Raise _ => ConditionFuser.make false 1%Z [] [] [] false
  end.

(** It in a streaming session that has seen five time steps. *)
Definition fuser_later : ConditionFuser.t Z :=
  ConditionFuser.set_streaming_state (ConditionFuser.start_streaming fuser)
    "offsets" [5%Z; 5%Z].

Definition sin_embedding (positions : Tensor Z) (channels : nat) : Tensor Z :=
  Examples.ones [1].

Definition conditions : pydict (ConditionType.t Z) :=
  [("description", Examples.condition_238); ("lyrics", Examples.condition_238)].

(** A provider with a text and a waveform conditioner, and one with a
    conditioner that is neither. *)
Definition full_provider
  : ConditionProvider.t Z (ConditionProvider.RawBatch Z) :=
  ConditionProvider.make
    [("genre", Examples.text_conditioner); ("self_wav", Examples.wav_conditioner)].

Definition other_conditioner
  : ConditionProvider.Conditioner Z (ConditionProvider.RawBatch Z) :=
  ConditionProvider.mkConditioner ConditionProvider.OtherFamily (fun b => Ok b).

Definition misc_provider
  : ConditionProvider.t Z (ConditionProvider.RawBatch Z) :=
  ConditionProvider.make
    [("genre", Examples.text_conditioner); ("misc", other_conditioner)].

(** The attribute dropout that always drops [genre], in training mode. *)
Definition genre_dropout : AttributeDropout.t :=
  AttributeDropout.make true false {[ "genre" := 1%Q ]}.





End Cases.


(** * Facts about dictionaries and loops *)


(** * Facts about dictionaries *)

Section DictFacts.
Context {V : Type}.
Implicit Types (d : pydict V) (k : string) (v : V).

Lemma str_in_In k ks : str_in k ks = true <-> In k ks.
Proof.
  unfold str_in. rewrite existsb_exists. split.
  - intros (x & Hx & E). apply String.eqb_eq in E. now subst.
  - intros Hk. exists k. split; [assumption | apply String.eqb_refl].
Qed.

Lemma dict_get_In_keys d k v : dict_get d k = Some v -> In k (dict_keys d).
Proof.
  induction d as [|[k' v'] d IH]; simpl; [discriminate|].
  destruct (String.eqb k k') eqn:E.
  - apply String.eqb_eq in E. now left.
  - intros Hd. right. now apply IH.
Qed.

Lemma In_keys_dict_get d k : In k (dict_keys d) -> exists v, dict_get d k = Some v.
Proof.
  induction d as [|[k' v'] d IH]; simpl; [intros []|].
  destruct (String.eqb k k') eqn:E; [eauto|].
  intros [->|Hk]; [|now apply IH].
  now rewrite String.eqb_refl in E.
Qed.

Lemma dict_keys_set d k v : In k (dict_keys d) -> dict_keys (dict_set d k v) = dict_keys d.
Proof.
  induction d as [|[k' v'] d IH]; simpl; [intros []|].
  destruct (String.eqb k k') eqn:E; [reflexivity|].
  intros [->|Hk].
  - now rewrite String.eqb_refl in E.
  - simpl. f_equal. now apply IH.
Qed.

Lemma dict_keys_set_new d k v :
  ~ In k (dict_keys d) -> dict_keys (dict_set d k v) = dict_keys d ++ [k].
Proof.
  induction d as [|[k' v'] d IH]; simpl; [reflexivity|].
  intros Hk. destruct (String.eqb k k') eqn:E.
  - apply String.eqb_eq in E. subst k'. exfalso. apply Hk. now left.
  - simpl. f_equal. apply IH. intros Hc. apply Hk. now right.
Qed.

Lemma dict_get_set_eq d k v : dict_get (dict_set d k v) k = Some v.
Proof.
  induction d as [|[k' v'] d IH]; simpl.
  - now rewrite String.eqb_refl.
  - destruct (String.eqb k k') eqn:E; simpl; now rewrite E.
Qed.

Lemma dict_get_set_ne d k k' v : k' <> k -> dict_get (dict_set d k v) k' = dict_get d k'.
Proof.
  intros Hne. induction d as [|[k0 v0] d IH]; simpl.
  - destruct (String.eqb k' k) eqn:E; [apply String.eqb_eq in E; tauto | reflexivity].
  - destruct (String.eqb k k0) eqn:E; simpl.
    + apply String.eqb_eq in E. subst k0.
      destruct (String.eqb k' k) eqn:E'; [apply String.eqb_eq in E'; tauto | reflexivity].
    + now rewrite IH.
Qed.

(** Assigning [f] of the old value to every key, in the order of the
    keys, maps [f] over the values. *)
Lemma set_skips_head d k0 v0 (ks : list string) (f : V -> V) :
  ~ In k0 ks -> incl ks (dict_keys d) ->
  fold_left (fun d k => match dict_get d k with
                        | Some v => dict_set d k (f v) | None => d end)
    ks ((k0, v0) :: d)
  = (k0, v0) :: fold_left (fun d k => match dict_get d k with
                        | Some v => dict_set d k (f v) | None => d end) ks d.
Proof.
  revert d. induction ks as [|k ks IH]; intros d Hk0 Hin; simpl; [reflexivity|].
  assert (E : String.eqb k k0 = false).
  { apply String.eqb_neq. intros ->. apply Hk0. now left. }
  rewrite E.
  destruct (In_keys_dict_get (d:=d) (k:=k)) as [v Hv]; [apply Hin; now left|].
  rewrite Hv. apply IH.
  - intros Hc. apply Hk0. now right.
  - intros x Hx. rewrite dict_keys_set by eauto using dict_get_In_keys.
    apply Hin. now right.
Qed.

Lemma set_all_keys d (f : V -> V) :
  List.NoDup (dict_keys d) ->
  fold_left (fun d k => match dict_get d k with
                        | Some v => dict_set d k (f v) | None => d end)
    (dict_keys d) d
  = map (fun kv => (fst kv, f (snd kv))) d.
Proof.
  induction d as [|[k0 v0] d IH]; intros Hnd; simpl; [reflexivity|].
  rewrite String.eqb_refl.
  simpl in Hnd. apply List.NoDup_cons_iff in Hnd as [Hk0 Hnd].
  rewrite set_skips_head; [|assumption|apply incl_refl].
  now rewrite IH.
Qed.
End DictFacts.


Section DefaultDict.
Context {V : Type}.
Implicit Types (d : pydict (list V)) (k : string).

Lemma dd_get_extend_eq d k vs : dd_get (dd_extend d k vs) k = dd_get d k ++ vs.
Proof. unfold dd_extend, dd_get at 1. now rewrite dict_get_set_eq. Qed.

Lemma dd_get_extend_ne d k k' vs : k' <> k -> dd_get (dd_extend d k vs) k' = dd_get d k'.
Proof. intros Hne. unfold dd_extend, dd_get. now rewrite dict_get_set_ne. Qed.
End DefaultDict.



Section DictForall.
Context {V : Type} (P : V -> Prop).

Lemma Forall_dict_get (d : pydict V) k v :
  Forall (fun kv => P (snd kv)) d -> dict_get d k = Some v -> P v.
Proof.
  induction 1 as [|[k' v'] d Hv _ IH]; simpl; [discriminate|].
  destruct (String.eqb k k'); [now intros [= <-] | exact IH].
Qed.

Lemma Forall_dict_set (d : pydict V) k v :
  Forall (fun kv => P (snd kv)) d -> P v ->
  Forall (fun kv => P (snd kv)) (dict_set d k v).
Proof.
  intros Hd Hv. induction Hd as [|[k' v'] d Hv' Hd IH]; simpl.
  - now constructor.
  - destruct (String.eqb k k'); constructor; assumption.
Qed.
End DictForall.


(** * The conditioner contract *)


Lemma broadcast_mask B T O : broadcast_shapes [B; T; O] [B; T; 1] = Some [B; T; O].
Proof.
  unfold broadcast_shapes; simpl.
  rewrite !Nat.eqb_refl. simpl.
  destruct (O =? 1) eqn:E; simpl; try reflexivity.
Qed.

Lemma broadcast_padding B T O : broadcast_shapes [1; 1; O] [B; T; 1] = Some [B; T; O].
Proof. destruct B as [|[|B]], T as [|[|T]], O as [|[|O]]; reflexivity. Qed.

Lemma broadcast_same s : broadcast_shapes s s = Some s.
Proof.
  unfold broadcast_shapes.
  assert (Hr : forall r, broadcast_rev r r = Some r).
  { induction r as [|a r IH]; simpl; [reflexivity|]. now rewrite IH, Nat.eqb_refl. }
  rewrite Hr; simpl. now rewrite rev_involutive.
Qed.

Lemma read_dim n i : i < n -> (if n =? 1 then 0 else i) = i.
Proof. intros Hi. destruct (n =? 1) eqn:E; [apply Nat.eqb_eq in E; lia | reflexivity]. Qed.

Lemma bindex3 n0 n1 n2 i0 i1 i2 :
  bindex [n0; n1; n2] [i0; i1; i2] =
  [if n0 =? 1 then 0 else i0; if n1 =? 1 then 0 else i1; if n2 =? 1 then 0 else i2].
Proof. reflexivity. Qed.

Section Blend.
Context `{Scalar R}.

(** The blend, position by position, as the source computes it. *)
Lemma blend_raw (cond : Tensor R) (mask : Tensor bool)
    (padding : option (Tensor R)) B T O :
  shape cond = [B; T; O] ->
  shape mask = [B; T] ->
  (forall p, padding = Some p -> shape p = [1; 1; O]) ->
  let maskf := unsqueeze_last (to_float mask) in
  exists out,
    match padding with
    | Some padding =>
        kept <- pointwise mul cond maskf ;;
        pad <- pointwise mul padding (one_minus maskf) ;;
        pointwise add kept pad
    | None => pointwise mul cond maskf
    end = Ok out /\
    shape out = [B; T; O] /\
    forall b t c, b < B -> t < T -> c < O ->
      elem out [b; t; c]
      = blend_value (elem cond [b; t; c]) (elem mask [b; t]) (padding_at padding c).
Proof.
  intros Hc Hm Hp maskf.
  assert (Hmf : shape maskf = [B; T; 1]) by (unfold maskf; simpl; now rewrite Hm).
  destruct padding as [p|].
  - specialize (Hp p eq_refl).
    unfold pointwise at 1. rewrite Hc, Hmf, broadcast_mask. simpl rbind.
    unfold pointwise at 1. simpl shape. rewrite Hp, Hm. simpl app.
    rewrite broadcast_padding. simpl rbind.
    unfold pointwise. simpl shape. rewrite broadcast_same.
    eexists; split; [reflexivity|]. split; [reflexivity|].
    intros b t c Hb Ht Hcc. simpl.
    rewrite ?bindex3, ?(read_dim Hb), ?(read_dim Ht), ?(read_dim Hcc); simpl.
    rewrite ?bindex3, ?(read_dim Hb), ?(read_dim Ht), ?(read_dim Hcc); simpl.
    reflexivity.
  - unfold pointwise. rewrite Hc, Hmf, broadcast_mask.
    eexists; split; [reflexivity|]. split; [reflexivity|].
    intros b t c Hb Ht Hcc. simpl.
    rewrite ?bindex3, ?(read_dim Hb), ?(read_dim Ht), ?(read_dim Hcc); simpl.
    rewrite ?bindex3, ?(read_dim Hb), ?(read_dim Ht), ?(read_dim Hcc); simpl.
    reflexivity.
Qed.

(** A valid position keeps the value, if the padding is finite; a padded
    position takes the padding, if the value is finite. *)
Lemma blend_value_valid (x : R) (pad : option R) :
  (forall p, pad = Some p -> finite p) -> blend_value x true pad = x.
Proof.
  intros Hpad. unfold blend_value. destruct pad as [p|].
  - now rewrite sub_diag_one, mul_one_r, (mul_zero_r (Hpad p eq_refl)), add_zero_r.
  - apply mul_one_r.
Qed.

Lemma blend_value_padded (x : R) (pad : option R) :
  finite x ->
  blend_value x false pad = match pad with Some p => p | None => zero end.
Proof.
  intros Hx. unfold blend_value. destruct pad as [p|].
  - now rewrite sub_zero_one, mul_one_r, (mul_zero_r Hx), add_zero_l.
  - now apply mul_zero_r.
Qed.

Lemma padding_value_at (padding : option (Tensor R)) c :
  padding_value padding c
  = match padding_at padding c with Some p => p | None => zero end.
Proof. now destruct padding. Qed.

Lemma blend_spec (cond : Tensor R) (mask : Tensor bool)
    (padding : option (Tensor R)) B T O :
  shape cond = [B; T; O] ->
  shape mask = [B; T] ->
  (forall p, padding = Some p -> shape p = [1; 1; O]) ->
  let maskf := unsqueeze_last (to_float mask) in
  exists out,
    match padding with
    | Some padding =>
        kept <- pointwise mul cond maskf ;;
        pad <- pointwise mul padding (one_minus maskf) ;;
        pointwise add kept pad
    | None => pointwise mul cond maskf
    end = Ok out /\
    shape out = [B; T; O] /\
    forall b t c, b < B -> t < T -> c < O ->
      (elem mask [b; t] = true ->
       (forall p, padding = Some p -> finite (elem p [0; 0; c])) ->
       elem out [b; t; c] = elem cond [b; t; c]) /\
      (elem mask [b; t] = false ->
       finite (elem cond [b; t; c]) ->
       elem out [b; t; c] = padding_value padding c).
Proof.
  intros Hc Hm Hp maskf.
  destruct (blend_raw Hc Hm Hp) as (out & Hout & Hos & Hel).
  exists out. split; [exact Hout|]. split; [exact Hos|].
  intros b t c Hb Ht Hcc. rewrite (Hel b t c Hb Ht Hcc). split.
  - intros -> Hfin. apply blend_value_valid.
    intros p Hpc. destruct padding as [q|]; [|discriminate].
    injection Hpc as <-. now apply Hfin.
  - intros -> Hfin. rewrite padding_value_at. now apply blend_value_padded.
Qed.
End Blend.


Section Conditioner.
Context `{Scalar R}.
Variable Prepared : Type.

Import BaseConditioner.

(** A conditioner as its constructor builds it. *)
Variables (dim output_dim : nat)
  (force_linear pad_empty output_bias learn_padding : bool)
  (weight0 padding0 : list nat -> R) (to_dtype : R -> R)
  (get_condition : Prepared -> result (ConditionType.t R)).

Let self : BaseConditioner.t R Prepared :=
  init dim output_dim force_linear pad_empty output_bias learn_padding
    weight0 padding0 to_dtype get_condition.

Lemma output_proj_shape (cond : Tensor R) B T :
  shape cond = [B; T; dim] ->
  exists projected,
    apply_output_proj (output_proj self) cond = Ok projected /\
    shape projected = [B; T; output_dim].
Proof.
  intros Hc. unfold self, init; simpl.
  destruct (force_linear || negb (dim =? output_dim)) eqn:E; simpl.
  - unfold linear; simpl. rewrite Hc; simpl. rewrite Nat.eqb_refl.
    destruct output_bias; simpl.
    + rewrite bool_decide_eq_true_2 by reflexivity.
      eexists; split; reflexivity.
    + eexists; split; reflexivity.
  - apply orb_false_elim in E as [_ E]. apply negb_false_iff, Nat.eqb_eq in E.
    exists cond; split; [reflexivity | now rewrite <- E].
Qed.

Lemma learnt_padding_shape p :
  learnt_padding self = Some p -> shape p = [1; 1; output_dim].
Proof.
  unfold self, init; simpl. destruct learn_padding; [|discriminate].
  now intros [= <-].
Qed.

(** C3.  With [pad_empty] set, a raw condition of time dimension 0 is
    replaced by zeros of the same shape: the returned condition has
    time dimension 0 again, and so has the mask.  Nothing is padded to
    length 1. *)
Theorem pad_empty_keeps_zero_length inputs cm B :
  pad_empty = true ->
  get_condition inputs = Ok cm ->
  shape (ConditionType.condition cm) = [B; 0; dim] ->
  0 < dim ->
  exists out,
    forward self inputs = Ok out /\
    shape (ConditionType.condition out) = [B; 0; output_dim] /\
    shape (ConditionType.mask out) = [B; 0] /\
    size (ConditionType.condition out) 1 <> 1.
Proof.
  intros Hpad Hget Hc Hdim.
  pose proof output_proj_shape as Hop.
  pose proof learnt_padding_shape as Hlp.
  assert (Hg : _get_condition self inputs = Ok cm) by exact Hget.
  assert (Hpe : BaseConditioner.pad_empty self = true) by exact Hpad.
  clearbody self.
  unfold forward. rewrite Hg. cbn [rbind]. rewrite Hc, Hpe. cbn [Nat.eqb andb].
  assert (Hsel : select_last (zeros (R:=R) [B; 0; dim])
                 = Ok (mkTensor [B; 0] (fun idx => zero))).
  { unfold select_last; simpl. destruct dim; [lia | reflexivity]. }
  rewrite Hsel. cbn [rbind shape].
  destruct (Hop (zeros [B; 0; dim]) B 0 eq_refl) as (pz & Hpz & Hpzs).
  rewrite Hpz. cbn [rbind].
  destruct (@blend_spec R _ pz (full [B; 0] false) (learnt_padding self)
              B 0 output_dim Hpzs eq_refl Hlp)
    as (out & Hout & Hos & _).
  rewrite Hout. cbn [rbind].
  exists (ConditionType.make out (full [B; 0] false)).
  split; [reflexivity|]. split; [exact Hos|]. split; [reflexivity|].
  unfold size; simpl. rewrite Hos. simpl. discriminate.
Qed.
End Conditioner.

(** * The dropout policies *)


(** * Nullified waveforms *)

Section Nullified.
Context `{Scalar R}.


Lemma nullify_wav_rank3 (w : WavCondition.t R) :
  ndim (WavCondition.wav w) = 3 -> nullify_wav w = Ok (nullified w).
Proof.
  unfold ndim, nullify_wav, nullified, slice3_first.
  destruct (shape (WavCondition.wav w)) as [|b [|c [|n [|? ?]]]]; try discriminate.
  reflexivity.
Qed.

Lemma nullified_rank3 (w : WavCondition.t R) :
  ndim (WavCondition.wav w) = 3 -> ndim (WavCondition.wav (nullified w)) = 3.
Proof.
  unfold ndim, nullified; simpl.
  destruct (shape (WavCondition.wav w)) as [|b [|c [|n [|? ?]]]]; try discriminate.
  reflexivity.
Qed.
End Nullified.

(** * Instances in the store *)

Section StoreFacts.
Context `{Scalar R}.
Variable text_first : bool.
Local Open Scope store_scope.

Local Abbreviation CA := (ConditionAttributes.t R).
Implicit Types (s : Store R) (ca : CA) (cas : list CA).


Lemma holds_read (s : Store R) l t w ca : holds s l t w ca -> read_attrs s l = Some ca.
Proof.
  intros (Hl & Ht & Hw). unfold read_attrs. rewrite Hl, Ht, Hw. now destruct ca.
Qed.

Lemma read_holds (s : Store R) l ca :
  read_attrs s l = Some ca -> exists t w, holds s l t w ca.
Proof.
  unfold read_attrs, holds.
  destruct (attrs s !! l) as [[t w]|]; [|discriminate].
  destruct (text_dicts s !! t) as [td|] eqn:Ht; [|discriminate].
  destruct (wav_dicts s !! w) as [wd|] eqn:Hw; [|discriminate].
  intros [= <-]. exists t, w. simpl. now rewrite Ht, Hw.
Qed.

Lemma holds_put (s : Store R) l t w ca ca' g :
  holds s l t w ca -> holds (put s t w ca' g) l t w ca'.
Proof.
  intros (Hl & Ht & Hw). unfold holds, put; simpl. split; [assumption|].
  split; apply list_lookup_insert_eq; eapply lookup_lt_Some; eassumption.
Qed.

Lemma put_put (s : Store R) t w ca1 g1 ca2 g2 :
  put (put s t w ca1 g1) t w ca2 g2 = put s t w ca2 g2.
Proof. unfold put; simpl. now rewrite !list_insert_insert_eq. Qed.

Lemma put_same (s : Store R) l t w ca : holds s l t w ca -> put s t w ca (rng s) = s.
Proof.
  intros (Hl & Ht & Hw). unfold put. rewrite !list_insert_id by assumption.
  now destruct s.
Qed.

(** The two ways [dropout_condition_] changes an instance. *)
Lemma condition_types_text : str_in "text" (ConditionAttributes.condition_types text_first) = true.
Proof. now destruct text_first. Qed.

Lemma condition_types_wav : str_in "wav" (ConditionAttributes.condition_types text_first) = true.
Proof. now destruct text_first. Qed.

Lemma attribute_keys_text (s : Store R) l t w ca :
  holds s l t w ca ->
  attribute_keys l "text" s = Ok (dict_keys (ConditionAttributes.text ca), s).
Proof.
  intros (Hl & Ht & Hw). unfold attribute_keys, sbind, deref. rewrite Hl. simpl.
  now rewrite Ht.
Qed.

Lemma attribute_keys_wav (s : Store R) l t w ca :
  holds s l t w ca ->
  attribute_keys l "wav" s = Ok (dict_keys (ConditionAttributes.wav ca), s).
Proof.
  intros (Hl & Ht & Hw). unfold attribute_keys, sbind, deref. rewrite Hl. simpl.
  now rewrite Hw.
Qed.

Lemma drop_text (s : Store R) l t w ca k :
  holds s l t w ca ->
  In k (dict_keys (ConditionAttributes.text ca)) ->
  dropout_condition_ text_first l "text" k s
  = Ok (tt, put s t w
              (ConditionAttributes.make
                 (dict_set (ConditionAttributes.text ca) k None)
                 (ConditionAttributes.wav ca))
              (rng s)).
Proof.
  intros Hh Hk. unfold dropout_condition_.
  rewrite condition_types_text. cbn [negb].
  unfold sbind at 1. rewrite (attribute_keys_text Hh).
  apply str_in_In in Hk. rewrite Hk. cbn [negb].
  destruct Hh as (Hl & Ht & Hw).
  unfold sbind, deref. rewrite Hl. simpl. rewrite Ht.
  unfold set_text_dict, put. simpl.
  now rewrite (list_insert_id (wav_dicts s)) by exact Hw.
Qed.

Lemma drop_wav (s : Store R) l t w ca k wc :
  holds s l t w ca ->
  dict_get (ConditionAttributes.wav ca) k = Some wc ->
  ndim (WavCondition.wav wc) = 3 ->
  dropout_condition_ text_first l "wav" k s
  = Ok (tt, put s t w
              (ConditionAttributes.make
                 (ConditionAttributes.text ca)
                 (dict_set (ConditionAttributes.wav ca) k (nullified wc)))
              (rng s)).
Proof.
  intros Hh Hk Hr. unfold dropout_condition_.
  rewrite condition_types_wav. cbn [negb].
  unfold sbind at 1. rewrite (attribute_keys_wav Hh).
  pose proof (dict_get_In_keys Hk) as Hin.
  apply str_in_In in Hin. rewrite Hin. cbn [negb].
  destruct Hh as (Hl & Ht & Hw).
  unfold sbind, deref. rewrite Hl. simpl. rewrite Hw.
  unfold lift, dict_item. rewrite Hk, (nullify_wav_rank3 Hr).
  unfold set_wav_dict, put. simpl.
  now rewrite (list_insert_id (text_dicts s)) by exact Ht.
Qed.
End StoreFacts.
Section Passes.
Context `{Scalar R}.
Variable text_first : bool.
Local Open Scope store_scope.

Local Abbreviation CA := (ConditionAttributes.t R).
Implicit Types (s : Store R) (ca : CA) (cas : list CA).


Lemma well_formed_null_text ca : well_formed ca -> well_formed (null_text ca).
Proof.
  intros (Ht & Hw & Hr). repeat split; try assumption.
  unfold null_text, dict_keys; simpl. rewrite map_map; simpl. exact Ht.
Qed.

Lemma well_formed_null_wavs ca : well_formed ca -> well_formed (null_wavs ca).
Proof.
  intros (Ht & Hw & Hr). repeat split; try assumption.
  - unfold null_wavs, dict_keys; simpl. rewrite map_map; simpl. exact Hw.
  - unfold null_wavs; simpl. apply List.Forall_map. simpl.
    eapply List.Forall_impl; [|exact Hr]. intros kv. apply nullified_rank3.
Qed.

(** The loop over the keys of one dictionary, every key nullified. *)
Lemma nullify_text_keys ks : forall (s : Store R) l t w td wd,
  holds s l t w (ConditionAttributes.make td wd) ->
  incl ks (dict_keys td) ->
  for_ ks (dropout_condition_ text_first l "text") s
  = Ok (tt, put s t w
              (ConditionAttributes.make
                 (fold_left (fun d k => match dict_get d k with
                                        | Some v => dict_set d k None
                                        | None => d
                                        end) ks td) wd)
              (rng s)).
Proof.
  induction ks as [|k ks IH]; intros s l t w td wd Hh Hin; simpl.
  - unfold ret. now rewrite (put_same Hh).
  - assert (Hk : In k (dict_keys td)) by (apply Hin; now left).
    unfold sbind. rewrite (drop_text text_first Hh Hk). simpl.
    erewrite IH; [|eapply holds_put; exact Hh|].
    + rewrite put_put. simpl.
      destruct (In_keys_dict_get Hk) as [v ->]. reflexivity.
    + rewrite dict_keys_set by assumption. intros x Hx. apply Hin. now right.
Qed.

Lemma nullify_wav_keys ks : forall (s : Store R) l t w td wd,
  holds s l t w (ConditionAttributes.make td wd) ->
  incl ks (dict_keys wd) ->
  Forall (fun kv => ndim (WavCondition.wav (snd kv)) = 3) wd ->
  for_ ks (dropout_condition_ text_first l "wav") s
  = Ok (tt, put s t w
              (ConditionAttributes.make td
                 (fold_left (fun d k => match dict_get d k with
                                        | Some v => dict_set d k (nullified v)
                                        | None => d
                                        end) ks wd))
              (rng s)).
Proof.
  induction ks as [|k ks IH]; intros s l t w td wd Hh Hin Hr; simpl.
  - unfold ret. now rewrite (put_same Hh).
  - assert (Hk : In k (dict_keys wd)) by (apply Hin; now left).
    destruct (In_keys_dict_get Hk) as [wc Hwc].
    assert (Hr3 : ndim (WavCondition.wav wc) = 3).
    { exact (Forall_dict_get (P := fun v => ndim (WavCondition.wav v) = 3) Hr Hwc). }
    unfold sbind. rewrite (drop_wav text_first Hh Hwc Hr3). simpl.
    erewrite IH; [|eapply holds_put; exact Hh| |].
    + rewrite put_put. simpl. rewrite Hwc. reflexivity.
    + rewrite dict_keys_set by assumption. intros x Hx. apply Hin. now right.
    + apply (Forall_dict_set (P := fun v => ndim (WavCondition.wav v) = 3)); [assumption|].
      now apply nullified_rank3.
Qed.


Lemma nullify_pass_text (s : Store R) l t w ca :
  holds s l t w ca -> well_formed ca ->
  nullify_pass text_first "text" l s = Ok (tt, put s t w (null_text ca) (rng s)).
Proof.
  intros Hh (Ht & _). unfold nullify_pass, sbind.
  rewrite (attribute_keys_text Hh). destruct ca as [td wd]; simpl in *.
  rewrite (nullify_text_keys Hh) by apply incl_refl.
  unfold null_text; simpl.
  now rewrite <- (set_all_keys (fun _ => None) Ht).
Qed.

Lemma nullify_pass_wav (s : Store R) l t w ca :
  holds s l t w ca -> well_formed ca ->
  nullify_pass text_first "wav" l s = Ok (tt, put s t w (null_wavs ca) (rng s)).
Proof.
  intros Hh (_ & Hw & Hr). unfold nullify_pass, sbind.
  rewrite (attribute_keys_wav Hh). destruct ca as [td wd]; simpl in *.
  rewrite (nullify_wav_keys Hh) by (apply incl_refl || assumption).
  unfold null_wavs; simpl.
  now rewrite <- (set_all_keys nullified Hw).
Qed.
End Passes.


Section Batches.
Context `{Scalar R}.
Local Open Scope store_scope.

Local Abbreviation CA := (ConditionAttributes.t R).
Implicit Types (s : Store R) (ca : CA) (cas : list CA).


Lemma changes_only_put (s : Store R) l t w ca ca' g tws :
  holds s l t w ca -> changes_only ((t, w) :: tws) s (put s t w ca' g).
Proof.
  intros _. unfold changes_only, put; simpl. split; [reflexivity|].
  split; intros x Hx; apply list_lookup_insert_ne; intros ->; apply Hx; now left.
Qed.

Lemma placed_stable (s s' : Store R) ls tws cas :
  placed s ls tws cas ->
  attrs s' = attrs s ->
  (forall x, In x (map fst tws) -> text_dicts s' !! x = text_dicts s !! x) ->
  (forall x, In x (map snd tws) -> wav_dicts s' !! x = wav_dicts s !! x) ->
  placed s' ls tws cas.
Proof.
  intros Hp Ha. induction Hp as [|l t w ca ls tws cas (Hl & Ht & Hw) Hwf Hp IH];
    intros Htx Hwx; constructor.
  - unfold holds. rewrite Ha, Htx, Hwx by now left. auto.
  - assumption.
  - apply IH; intros x Hx; [apply Htx | apply Hwx]; now right.
Qed.


Lemma for_samples body Rc Rg :
  acts_locally body Rc Rg ->
  (forall g, Rg g g) -> (forall g1 g2 g3, Rg g1 g2 -> Rg g2 g3 -> Rg g1 g3) ->
  forall ls tws cas (s : Store R),
    placed s ls tws cas ->
    List.NoDup (map fst tws) -> List.NoDup (map snd tws) ->
    exists s' cas',
      for_ ls body s = Ok (tt, s') /\
      placed s' ls tws cas' /\
      Forall2 Rc cas cas' /\
      Rg (rng s) (rng s') /\
      changes_only tws s s'.
Proof.
  intros Hbody Hrefl Htrans ls.
  induction ls as [|l ls IH]; intros tws cas s Hp Hnt Hnw;
    inversion Hp as [|? t w ca ? tws0 cas0 Hh Hwf Hp0]; subst.
  - exists s, []. repeat split; try constructor; auto.
  - simpl in Hnt, Hnw.
    apply List.NoDup_cons_iff in Hnt as [Ht Hnt].
    apply List.NoDup_cons_iff in Hnw as [Hw Hnw].
    destruct (Hbody s l t w ca) as (ca' & g' & Hrun & Hwf' & Hc & Hg); try assumption.
    set (s1 := put s t w ca' g') in *.
    assert (Hp1 : placed s1 ls tws0 cas0).
    { eapply placed_stable; [exact Hp0|reflexivity| |];
        intros x Hx; apply list_lookup_insert_ne; intros ->; contradiction. }
    destruct (IH tws0 cas0 s1 Hp1 Hnt Hnw) as (s' & cas' & Hrun' & Hp' & Hcs & Hg' & Ha & Htx & Hwx).
    exists s', (ca' :: cas'). split; [|split; [|split; [|split]]].
    + simpl. unfold sbind. now rewrite Hrun.
    + constructor; [|assumption|assumption].
      pose proof (@holds_put R s l t w ca ca' g' Hh) as (Hl1 & Ht1 & Hw1).
      fold s1 in Hl1, Ht1, Hw1.
      unfold holds. now rewrite Ha, Htx, Hwx.
    + now constructor.
    + eapply Htrans; eassumption.
    + destruct (@changes_only_put s l t w ca ca' g' tws0 Hh) as (Ha0 & Htx0 & Hwx0).
      fold s1 in Ha0, Htx0, Hwx0.
      split; [congruence|]. split; intros x Hx.
      * rewrite Htx; [now apply Htx0|]. intros Hc'. apply Hx. now right.
      * rewrite Hwx; [now apply Hwx0|]. intros Hc'. apply Hx. now right.
Qed.
End Batches.


Section Copies.
Context `{Scalar R}.
Local Open Scope store_scope.

Local Abbreviation CA := (ConditionAttributes.t R).
Implicit Types (s : Store R) (ca : CA) (cas : list CA).


Lemma preserves_refl (s : Store R) : preserves s s.
Proof. repeat split; auto. Qed.

Lemma preserves_trans (s1 s2 s3 : Store R) :
  preserves s1 s2 -> preserves s2 s3 -> preserves s1 s3.
Proof. intros (A1 & B1 & C1) (A2 & B2 & C2). repeat split; auto. Qed.

Lemma preserves_read (s s' : Store R) l ca :
  preserves s s' -> read_attrs s l = Some ca -> read_attrs s' l = Some ca.
Proof.
  intros (Ha & Ht & Hw) Hr. apply read_holds in Hr as (t & w & Hl & Htd & Hwd).
  apply (@holds_read R s' l t w). repeat split; auto.
Qed.

Lemma preserves_holds (s s' : Store R) l t w ca :
  preserves s s' -> holds s l t w ca -> holds s' l t w ca.
Proof. intros (Ha & Ht & Hw) (Hl & Htd & Hwd). repeat split; auto. Qed.

Lemma copy_spec (s : Store R) l t w ca :
  holds s l t w ca ->
  copy l s
  = Ok (List.length (attrs s),
        mkStore (attrs s ++ [(List.length (text_dicts s), List.length (wav_dicts s))])
                (text_dicts s ++ [ConditionAttributes.text ca])
                (wav_dicts s ++ [ConditionAttributes.wav ca])
                (rng s)).
Proof.
  intros (Hl & Ht & Hw). unfold copy, sbind, deref. rewrite Hl. simpl.
  rewrite Ht. simpl. rewrite Hw. reflexivity.
Qed.

Lemma copies samples : forall cas (s : Store R),
  Forall2 (fun l ca => read_attrs s l = Some ca /\ well_formed ca) samples cas ->
  exists ls tws s1,
    comprehension samples copy s = Ok (ls, s1) /\
    preserves s s1 /\ rng s1 = rng s /\
    placed s1 ls tws cas /\
    List.NoDup (map fst tws) /\ List.NoDup (map snd tws) /\
    (forall x, In x (map fst tws) -> List.length (text_dicts s) <= x) /\
    (forall x, In x (map snd tws) -> List.length (wav_dicts s) <= x).
Proof.
  induction samples as [|l samples IH]; intros cas s Hall;
    inversion Hall as [|? ca ? cas0 [Hr Hwf] Hrest]; subst.
  - exists [], [], s. simpl. repeat split; auto using preserves_refl; try constructor;
      intros x [].
  - destruct (read_holds Hr) as (t & w & Hh).
    set (sa := mkStore (attrs s ++ [(List.length (text_dicts s), List.length (wav_dicts s))])
                (text_dicts s ++ [ConditionAttributes.text ca])
                (wav_dicts s ++ [ConditionAttributes.wav ca])
                (rng s)).
    assert (Hpa : preserves s sa).
    { repeat split; intros x y Hx; simpl; apply lookup_app_l_Some; exact Hx. }
    assert (Hrest' : Forall2 (fun l ca => read_attrs sa l = Some ca /\ well_formed ca)
                       samples cas0).
    { eapply Forall2_impl; [exact Hrest|]. intros x y [Hx Hy]. split; [|exact Hy].
      eapply preserves_read; eassumption. }
    destruct (IH cas0 sa Hrest') as (ls & tws & s1 & Hrun & Hp1 & Hg & Hpl & Hnt & Hnw & Hft & Hfw).
    exists (List.length (attrs s) :: ls),
           ((List.length (text_dicts s), List.length (wav_dicts s)) :: tws), s1.
    split; [|split; [|split; [|split; [|split; [|split; [|split]]]]]].
    + simpl. unfold sbind. rewrite (copy_spec Hh). fold sa. rewrite Hrun. reflexivity.
    + eapply preserves_trans; eassumption.
    + rewrite Hg. reflexivity.
    + constructor; [|assumption|assumption].
      eapply preserves_holds; [exact Hp1|].
      unfold holds, sa; simpl.
      rewrite !lookup_app_r by lia. rewrite !Nat.sub_diag. simpl. auto.
    + simpl. constructor; [|assumption]. intros Hc. apply Hft in Hc.
      simpl in Hc. rewrite length_app in Hc. simpl in Hc. lia.
    + simpl. constructor; [|assumption]. intros Hc. apply Hfw in Hc.
      simpl in Hc. rewrite length_app in Hc. simpl in Hc. lia.
    + simpl. intros x [<-|Hx]; [lia|]. apply Hft in Hx.
      simpl in Hx. rewrite length_app in Hx. lia.
    + simpl. intros x [<-|Hx]; [lia|]. apply Hfw in Hx.
      simpl in Hx. rewrite length_app in Hx. lia.
Qed.

(** A store that differs from a copy phase's only at the copies keeps
    every object of before the copy phase. *)
Lemma preserves_changes (s s1 s2 : Store R) tws :
  preserves s s1 -> changes_only tws s1 s2 ->
  (forall x, In x (map fst tws) -> List.length (text_dicts s) <= x) ->
  (forall x, In x (map snd tws) -> List.length (wav_dicts s) <= x) ->
  preserves s s2.
Proof.
  intros (Ha & Ht & Hw) (Ha2 & Ht2 & Hw2) Hft Hfw. repeat split; intros l x Hx.
  - rewrite Ha2. auto.
  - rewrite Ht2; [auto|]. intros Hc. apply Hft in Hc.
    apply lookup_lt_Some in Hx. lia.
  - rewrite Hw2; [auto|]. intros Hc. apply Hfw in Hc.
    apply lookup_lt_Some in Hx. lia.
Qed.

Lemma placed_read (s : Store R) ls tws cas :
  placed s ls tws cas -> Forall2 (fun l ca => read_attrs s l = Some ca) ls cas.
Proof. induction 1; constructor; eauto using holds_read. Qed.
End Copies.


Section Guidance.
Context `{Scalar R}.
Variable text_first : bool.
Local Open Scope store_scope.

Local Abbreviation CA := (ConditionAttributes.t R).
Implicit Types (s : Store R) (ca : CA) (cas : list CA).

Lemma changes_only_trans tws (s1 s2 s3 : Store R) :
  changes_only tws s1 s2 -> changes_only tws s2 s3 -> changes_only tws s1 s3.
Proof.
  intros (A1 & B1 & C1) (A2 & B2 & C2). split; [congruence|].
  split; intros x Hx; [rewrite B2, B1 | rewrite C2, C1]; auto.
Qed.

Lemma Forall2_eq_map {A B} (f : A -> B) xs ys :
  Forall2 (fun x y => y = f x) xs ys -> ys = map f xs.
Proof. induction 1; simpl; congruence. Qed.

Lemma nullify_pass_text_local :
  acts_locally (nullify_pass text_first "text") (fun ca ca' => ca' = null_text ca) eq.
Proof.
  intros s l t w ca Hh Hwf. exists (null_text ca), (rng s).
  rewrite (nullify_pass_text text_first Hh Hwf).
  auto using well_formed_null_text.
Qed.

Lemma nullify_pass_wav_local :
  acts_locally (nullify_pass text_first "wav") (fun ca ca' => ca' = null_wavs ca) eq.
Proof.
  intros s l t w ca Hh Hwf. exists (null_wavs ca), (rng s).
  rewrite (nullify_pass_wav text_first Hh Hwf).
  auto using well_formed_null_wavs.
Qed.

(** The two passes of the guidance dropout over the copies. *)
Lemma nullify_all ls tws cas (s : Store R) :
  placed s ls tws cas ->
  List.NoDup (map fst tws) -> List.NoDup (map snd tws) ->
  exists s',
    for_ (ConditionAttributes.condition_types text_first)
      (fun condition_type => for_ ls (nullify_pass text_first condition_type)) s
    = Ok (tt, s') /\
    placed s' ls tws (map (fun ca => null_wavs (null_text ca)) cas) /\
    rng s' = rng s /\
    changes_only tws s s'.
Proof.
  intros Hp Hnt Hnw.
  pose proof (for_samples nullify_pass_text_local (@eq_refl _) (@eq_trans _)) as Ftext.
  pose proof (for_samples nullify_pass_wav_local (@eq_refl _) (@eq_trans _)) as Fwav.
  destruct text_first; simpl; unfold sbind.
  - destruct (Ftext _ _ _ _ Hp Hnt Hnw) as (s1 & cas1 & -> & Hp1 & Hc1 & Hg1 & Hch1).
    destruct (Fwav _ _ _ _ Hp1 Hnt Hnw) as (s2 & cas2 & -> & Hp2 & Hc2 & Hg2 & Hch2).
    exists s2. split; [reflexivity|].
    apply Forall2_eq_map in Hc1, Hc2. subst cas1 cas2. rewrite map_map in Hp2.
    split; [exact Hp2|]. split; [congruence|]. eapply changes_only_trans; eassumption.
  - destruct (Fwav _ _ _ _ Hp Hnt Hnw) as (s1 & cas1 & -> & Hp1 & Hc1 & Hg1 & Hch1).
    destruct (Ftext _ _ _ _ Hp1 Hnt Hnw) as (s2 & cas2 & -> & Hp2 & Hc2 & Hg2 & Hch2).
    exists s2. split; [reflexivity|].
    apply Forall2_eq_map in Hc1, Hc2. subst cas1 cas2. rewrite map_map in Hp2.
    split; [exact Hp2|]. split; [congruence|]. eapply changes_only_trans; eassumption.
Qed.

(** What a call of the guidance dropout in training mode does. *)
Lemma guidance_forward_spec (self : ClassifierFreeGuidanceDropout.t)
    samples cas (s : Store R) :
  Forall2 (fun l ca => read_attrs s l = Some ca /\ well_formed ca) samples cas ->
  ClassifierFreeGuidanceDropout.training self = true ->
  let x := Generator.draws (rng s) (Generator.consumed (rng s)) in
  let g' := Generator.make (Generator.draws (rng s)) (S (Generator.consumed (rng s))) in
  if Qltb x (ClassifierFreeGuidanceDropout.p self) then
    exists out s',
      ClassifierFreeGuidanceDropout.forward text_first self samples s = Ok (out, s') /\
      rng s' = g' /\ preserves s s' /\
      Forall2 (fun l ca => read_attrs s' l = Some (null_wavs (null_text ca))) out cas
  else
    ClassifierFreeGuidanceDropout.forward text_first self samples s
    = Ok (samples, mkStore (attrs s) (text_dicts s) (wav_dicts s) g').
Proof.
  intros Hall Htr x g'.
  assert (Hfw : ClassifierFreeGuidanceDropout.forward text_first self samples s
                = (if negb (Qltb x (ClassifierFreeGuidanceDropout.p self))
                   then ret samples
                   else
                     samples <- comprehension samples copy ;;
                     _ <- for_ (ConditionAttributes.condition_types text_first)
                            (fun condition_type =>
                               for_ samples (nullify_pass text_first condition_type)) ;;
                     ret samples)
                    (mkStore (attrs s) (text_dicts s) (wav_dicts s) g')).
  { unfold ClassifierFreeGuidanceDropout.forward. rewrite Htr. reflexivity. }
  rewrite Hfw. clear Hfw.
  destruct (Qltb x (ClassifierFreeGuidanceDropout.p self)) eqn:Hdrop; cbn [negb];
    [|reflexivity].
  set (sr := mkStore (attrs s) (text_dicts s) (wav_dicts s) g').
  assert (Hall' : Forall2 (fun l ca => read_attrs sr l = Some ca /\ well_formed ca)
                    samples cas) by exact Hall.
  destruct (copies Hall') as (ls & tws & s1 & Hrun & Hp1 & Hg1 & Hpl & Hnt & Hnw & Hft & Hfw).
  destruct (nullify_all Hpl Hnt Hnw) as (s2 & Hrun2 & Hpl2 & Hg2 & Hch).
  exists ls, s2. split; [|split; [|split]].
  - unfold sbind. fold sr. rewrite Hrun, Hrun2. reflexivity.
  - rewrite Hg2, Hg1. reflexivity.
  - apply (@preserves_changes R sr s1 s2 tws); assumption.
  - apply placed_read in Hpl2.
    clear -Hpl2. remember (map _ cas) as cas' eqn:E. revert cas E.
    induction Hpl2; intros [|ca cas] E; simpl in E; try discriminate; constructor.
    + injection E as -> _. assumption.
    + injection E as _ E. now apply IHHpl2.
Qed.
End Guidance.


Section PerAttribute.
Context `{Scalar R}.
Variable text_first : bool.
Variable self : AttributeDropout.t.
Local Open Scope store_scope.

Local Abbreviation CA := (ConditionAttributes.t R).
Implicit Types (s : Store R) (ca : CA) (cas : list CA).



Lemma advanced_refl g : advanced g g.
Proof. split; [reflexivity | lia]. Qed.

Lemma advanced_trans g1 g2 g3 : advanced g1 g2 -> advanced g2 g3 -> advanced g1 g3.
Proof. intros [A1 B1] [A2 B2]. split; [congruence | lia]. Qed.


Lemma put_generator (s : Store R) l t w ca g :
  holds s l t w ca ->
  mkStore (attrs s) (text_dicts s) (wav_dicts s) g = put s t w ca g.
Proof.
  intros (Hl & Ht & Hw). unfold put. now rewrite !list_insert_id by assumption.
Qed.

Lemma gated_drop_local (s : Store R) l t w ca c k :
  holds s l t w ca -> well_formed ca ->
  (c = "text" /\ In k (dict_keys (ConditionAttributes.text ca)) \/
   c = "wav" /\ In k (dict_keys (ConditionAttributes.wav ca))) ->
  exists ca' g',
    gated_drop text_first self l c k s = Ok (tt, put s t w ca' g') /\
    well_formed ca' /\ same_keys ca ca' /\ advanced (rng s) g'.
Proof.
  intros Hh Hwf Hk. unfold gated_drop.
  destruct (AttributeDropout.dropouts self !! k) as [p|].
  2:{ exists ca, (rng s). unfold ret. rewrite (put_same Hh).
      repeat split; auto using advanced_refl; apply Hwf. }
  unfold sbind, rand. cbn [Generator.rand].
  set (g1 := Generator.make _ _).
  assert (Hadv : advanced (rng s) g1) by (split; simpl; [reflexivity | lia]).
  rewrite (put_generator g1 Hh).
  destruct (Qltb _ p).
  2:{ exists ca, g1. unfold ret. repeat split; auto; apply Hwf || apply Hadv. }
  pose proof (@holds_put R s l t w ca ca g1 Hh) as Hh1.
  destruct Hwf as (Hnt & Hnw & Hr).
  destruct Hk as [[-> Hk]|[-> Hk]].
  - rewrite (drop_text text_first Hh1 Hk). rewrite put_put. simpl.
    eexists _, g1. split; [reflexivity|].
    repeat split; simpl; try assumption; try apply Hadv;
      rewrite ?dict_keys_set by assumption; try assumption; try reflexivity.
  - destruct (In_keys_dict_get Hk) as [wc Hwc].
    assert (Hr3 : ndim (WavCondition.wav wc) = 3).
    { exact (Forall_dict_get (P := fun v => ndim (WavCondition.wav v) = 3) Hr Hwc). }
    rewrite (drop_wav text_first Hh1 Hwc Hr3). rewrite put_put. simpl.
    eexists _, g1. split; [reflexivity|].
    repeat split; simpl; try assumption; try apply Hadv;
      rewrite ?dict_keys_set by assumption; try assumption; try reflexivity.
    apply (Forall_dict_set (P := fun v => ndim (WavCondition.wav v) = 3)); [assumption|].
    now apply nullified_rank3.
Qed.

Lemma gated_keys_local c ks : forall (s : Store R) l t w ca,
  holds s l t w ca -> well_formed ca ->
  (c = "text" /\ incl ks (dict_keys (ConditionAttributes.text ca)) \/
   c = "wav" /\ incl ks (dict_keys (ConditionAttributes.wav ca))) ->
  exists ca' g',
    for_ ks (gated_drop text_first self l c) s = Ok (tt, put s t w ca' g') /\
    well_formed ca' /\ same_keys ca ca' /\ advanced (rng s) g'.
Proof.
  induction ks as [|k ks IH]; intros s l t w ca Hh Hwf Hks.
  - exists ca, (rng s). simpl. unfold ret. rewrite (put_same Hh).
    split; [reflexivity|]. split; [assumption|].
    split; [split; reflexivity | apply advanced_refl].
  - destruct (@gated_drop_local s l t w ca c k Hh Hwf)
      as (ca1 & g1 & Hrun1 & Hwf1 & [Hkt Hkw] & Hadv1).
    { destruct Hks as [[-> Hks]|[-> Hks]]; [left|right]; (split; [reflexivity|]);
        apply Hks; now left. }
    destruct (IH (put s t w ca1 g1) l t w ca1) as (ca2 & g2 & Hrun2 & Hwf2 & [Hkt2 Hkw2] & Hadv2).
    + eapply holds_put; exact Hh.
    + exact Hwf1.
    + rewrite Hkt, Hkw.
      destruct Hks as [[-> Hks]|[-> Hks]]; [left|right]; (split; [reflexivity|]);
        intros x Hx; apply Hks; now right.
    + exists ca2, g2. simpl. unfold sbind. rewrite Hrun1, Hrun2, put_put.
      split; [reflexivity|]. split; [assumption|].
      split; [split; congruence|]. eapply advanced_trans; eassumption.
Qed.

Lemma gated_pass_local c :
  c = "text" \/ c = "wav" ->
  acts_locally (fun l => gated_pass text_first self l c) same_keys advanced.
Proof.
  intros Hc s l t w ca Hh Hwf. unfold gated_pass, sbind.
  destruct Hc as [-> | ->].
  - rewrite (attribute_keys_text Hh).
    apply gated_keys_local; auto. left. split; [reflexivity | apply incl_refl].
  - rewrite (attribute_keys_wav Hh).
    apply gated_keys_local; auto. right. split; [reflexivity | apply incl_refl].
Qed.

(** The loop over the two condition types, for one example. *)
Lemma gated_types_local :
  acts_locally
    (fun l => for_ (ConditionAttributes.condition_types text_first) (gated_pass text_first self l))
    same_keys advanced.
Proof.
  intros s l t w ca Hh Hwf.
  assert (Hseq : forall a b, (a = "text" \/ a = "wav") -> (b = "text" \/ b = "wav") ->
    exists ca' g', for_ [a; b] (gated_pass text_first self l) s = Ok (tt, put s t w ca' g') /\
      well_formed ca' /\ same_keys ca ca' /\ advanced (rng s) g').
  { intros a b Ha Hb.
    destruct (gated_pass_local Ha Hh Hwf) as (ca1 & g1 & Hrun1 & Hwf1 & [Hkt Hkw] & Hadv1).
    destruct (gated_pass_local Hb (@holds_put R s l t w ca ca1 g1 Hh) Hwf1)
      as (ca2 & g2 & Hrun2 & Hwf2 & [Hkt2 Hkw2] & Hadv2).
    exists ca2, g2. simpl. unfold sbind. rewrite Hrun1, Hrun2, put_put.
    split; [reflexivity|]. split; [assumption|].
    split; [split; congruence|]. eapply advanced_trans; eassumption. }
  destruct text_first; simpl ConditionAttributes.condition_types; apply Hseq; auto.
Qed.

(** What a call of the attribute dropout does when it is active. *)
Lemma attribute_forward_spec samples cas (s : Store R) :
  Forall2 (fun l ca => read_attrs s l = Some ca /\ well_formed ca) samples cas ->
  negb (AttributeDropout.training self) && negb (AttributeDropout.active_on_eval self)
    = false ->
  exists out s' cas',
    AttributeDropout.forward text_first self samples s = Ok (out, s') /\
    preserves s s' /\ advanced (rng s) (rng s') /\
    Forall2 (fun l ca => read_attrs s' l = Some ca) out cas' /\
    Forall2 same_keys cas cas'.
Proof.
  intros Hall Hact. unfold AttributeDropout.forward. rewrite Hact.
  destruct (copies Hall) as (ls & tws & s1 & Hrun & Hp1 & Hg1 & Hpl & Hnt & Hnw & Hft & Hfw).
  destruct (for_samples gated_types_local advanced_refl advanced_trans Hpl Hnt Hnw)
    as (s2 & cas' & Hrun2 & Hpl2 & Hcs & Hadv & Hch).
  exists ls, s2, cas'. split; [|split; [|split; [|split]]].
  - unfold sbind. rewrite Hrun.
    change (for_ ls _ s1) with
      (for_ ls (fun l => for_ (ConditionAttributes.condition_types text_first)
                           (gated_pass text_first self l)) s1).
    rewrite Hrun2. reflexivity.
  - eapply preserves_changes; eassumption.
  - rewrite <- Hg1. exact Hadv.
  - eapply placed_read; eassumption.
  - exact Hcs.
Qed.
End PerAttribute.

Section DropoutClaims.
Context `{Scalar R}.
Variable text_first : bool.

Local Abbreviation CA := (ConditionAttributes.t R).
Implicit Types (s : Store R) (ca : CA) (cas : list CA).





(** C4.  Neither dropout policy mutates the caller's examples: a call of
    either [forward] succeeds, and every object that was in the store
    before the call is in it afterwards, unchanged; in particular every
    example of the input batch still has its text and wav mapping. *)
Theorem dropout_keeps_the_callers_examples
    (attribute_dropout : AttributeDropout.t)
    (guidance_dropout : ClassifierFreeGuidanceDropout.t) batch cas s :
  Forall2 (fun l ca => read_attrs s l = Some ca /\ well_formed ca) batch cas ->
  (exists out s',
     AttributeDropout.forward text_first attribute_dropout batch s = Ok (out, s') /\
     preserves s s' /\
     Forall2 (fun l ca => read_attrs s' l = Some ca) batch cas) /\
  (exists out s',
     ClassifierFreeGuidanceDropout.forward text_first guidance_dropout batch s
       = Ok (out, s') /\
     preserves s s' /\
     Forall2 (fun l ca => read_attrs s' l = Some ca) batch cas).
Proof.
  intros Hall.
  assert (Hkeep : forall s', preserves s s' ->
            Forall2 (fun l ca => read_attrs s' l = Some ca) batch cas).
  { intros s' Hp. eapply Forall2_impl; [exact Hall|].
    intros l ca [Hr _]. eapply preserves_read; eassumption. }
  split.
  - destruct (negb (AttributeDropout.training attribute_dropout)
              && negb (AttributeDropout.active_on_eval attribute_dropout)) eqn:Hact.
    + exists batch, s. unfold AttributeDropout.forward. rewrite Hact.
      split; [reflexivity|]. split; [apply preserves_refl|].
      apply Hkeep, preserves_refl.
    + destruct (attribute_forward_spec text_first Hall Hact)
        as (out & s' & cas' & Hrun & Hp & _).
      exists out, s'. auto.
  - destruct (ClassifierFreeGuidanceDropout.training guidance_dropout) eqn:Htr.
    + pose proof (guidance_forward_spec text_first Hall Htr) as Hspec.
      simpl in Hspec.
      destruct (Qltb _ (ClassifierFreeGuidanceDropout.p guidance_dropout)).
      * destruct Hspec as (out & s' & Hrun & _ & Hp & _).
        exists out, s'. auto.
      * eexists _, _. split; [exact Hspec|].
        assert (Hp : preserves s
                       (mkStore (attrs s) (text_dicts s) (wav_dicts s)
                          (Generator.make (Generator.draws (rng s))
                             (S (Generator.consumed (rng s))))))
          by (repeat split; auto).
        auto.
    + exists batch, s. unfold ClassifierFreeGuidanceDropout.forward. rewrite Htr.
      split; [reflexivity|]. split; [apply preserves_refl|].
      apply Hkeep, preserves_refl.
Qed.

(** C5, as amended.  Outside of training mode the attribute dropout
    returns its input batch and leaves the store as it is, unless it
    was constructed with [active_on_eval], and then it does in
    evaluation mode what it does in training mode.  The guidance
    dropout has no such option: outside of training mode it always
    returns its input batch and leaves the store as it is. *)
Theorem dropout_outside_of_training
    (dropouts : gmap string Q) (p : Q) (batch : list loc) s :
  AttributeDropout.forward text_first (AttributeDropout.make false false dropouts)
    batch s = Ok (batch, s) /\
  AttributeDropout.forward text_first (AttributeDropout.make false true dropouts)
    batch s
  = AttributeDropout.forward text_first (AttributeDropout.make true true dropouts)
      batch s /\
  ClassifierFreeGuidanceDropout.forward text_first
    (ClassifierFreeGuidanceDropout.make false p) batch s = Ok (batch, s).
Proof. repeat split. Qed.
End DropoutClaims.

(** * The condition provider *)
Section WavCollation.
Context `{Scalar R}.
Variable Prepared : Type.
Variable stack_and_pad_audio : list (Tensor R) -> result (Tensor R).

Import ConditionProvider.

Local Abbreviation Wav := (WavCondition.t R).
Implicit Types (acc : ConditionProvider.WavLists R) (w : Wav) (ws : list Wav).


Lemma grows_refl acc a : grows acc acc a [].
Proof. unfold grows; simpl. now rewrite !app_nil_r. Qed.

Lemma grows_trans acc1 acc2 acc3 a ws1 ws2 :
  grows acc1 acc2 a ws1 -> grows acc2 acc3 a ws2 -> grows acc1 acc3 a (ws1 ++ ws2).
Proof.
  intros (A1 & B1 & C1 & D1) (A2 & B2 & C2 & D2). unfold grows.
  rewrite A2, A1, B2, B1, C2, C1, D2, D1.
  rewrite !map_app, !concat_app, !app_assoc. auto.
Qed.

Lemma collect_wav_Ok acc sample a acc' :
  collect_wav acc sample a = Ok acc' ->
  (exists w, dict_get (ConditionAttributes.wav sample) a = Some w /\
             collatable w /\ grows acc acc' a [w]) /\
  (forall a', a' <> a -> grows acc acc' a' []).
Proof.
  unfold collect_wav, dict_item.
  destruct (dict_get (ConditionAttributes.wav sample) a) as [w|]; [|discriminate].
  simpl.
  destruct (ndim (WavCondition.wav w) =? 3) eqn:E3; [|discriminate].
  destruct (size (WavCondition.wav w) 0 =? 1) eqn:E1; [|discriminate].
  destruct (select_first (WavCondition.wav w)) as [w0|]; [|discriminate].
  simpl. intros [= <-]. apply Nat.eqb_eq in E3, E1. split.
  - exists w. split; [reflexivity|]. split; [split; assumption|].
    unfold grows, dd_append; simpl. rewrite !dd_get_extend_eq, !app_nil_r. auto.
  - intros a' Hne. unfold grows, dd_append; simpl.
    rewrite !dd_get_extend_ne, !app_nil_r by assumption. auto.
Qed.

(** The turn of the first loop for one example. *)
Lemma collect_sample_Ok sample attributes : forall acc acc',
  List.NoDup attributes ->
  for_each attributes (fun acc attribute => collect_wav acc sample attribute) acc
    = Ok acc' ->
  forall a,
    (In a attributes ->
     exists w, dict_get (ConditionAttributes.wav sample) a = Some w /\
               collatable w /\ grows acc acc' a [w]) /\
    (~ In a attributes -> grows acc acc' a []).
Proof.
  induction attributes as [|a0 attributes IH]; intros acc acc' Hnd Hrun a; simpl in Hrun.
  - injection Hrun as <-. split; [intros [] | intros _; apply grows_refl].
  - apply List.NoDup_cons_iff in Hnd as [Hnotin Hnd].
    destruct (collect_wav acc sample a0) as [acc1|] eqn:E1; [|discriminate].
    simpl in Hrun. apply collect_wav_Ok in E1 as [(w0 & Hw0 & Hc0 & Hg0) Hother].
    specialize (IH acc1 acc' Hnd Hrun). split.
    + intros [<-|Hin].
      * exists w0. split; [assumption|]. split; [assumption|].
        apply (grows_trans Hg0). now apply IH.
      * destruct (proj1 (IH a) Hin) as (w & Hw & Hc & Hg).
        exists w. split; [assumption|]. split; [assumption|].
        apply (@grows_trans acc acc1 acc' a [] [w]); [|assumption].
        apply Hother. intros ->. contradiction.
    + intros Hnot. apply (@grows_trans acc acc1 acc' a [] []).
      * apply Hother. intros ->. apply Hnot. now left.
      * apply IH. intros Hin. apply Hnot. now right.
Qed.

(** The first loop of [_collate_wavs]. *)
Lemma collect_all_Ok attributes samples : forall acc acc',
  List.NoDup attributes ->
  for_each samples (fun acc sample =>
      for_each attributes (fun acc attribute => collect_wav acc sample attribute) acc)
    acc = Ok acc' ->
  forall a, In a attributes ->
    exists ws,
      Forall2 (fun sample w =>
                 dict_get (ConditionAttributes.wav sample) a = Some w /\ collatable w)
        samples ws /\
      grows acc acc' a ws.
Proof.
  induction samples as [|sample samples IH]; intros acc acc' Hnd Hrun a Ha; simpl in Hrun.
  - injection Hrun as <-. exists []. split; [constructor | apply grows_refl].
  - destruct (for_each attributes _ acc) as [acc1|] eqn:E1; [|discriminate].
    simpl in Hrun.
    destruct (proj1 (collect_sample_Ok Hnd E1 a) Ha) as (w & Hw & Hc & Hg).
    destruct (IH acc1 acc' Hnd Hrun a Ha) as (ws & Hall & Hgs).
    exists (w :: ws). split; [constructor; auto|].
    apply (@grows_trans acc acc1 acc' a [w] ws); assumption.
Qed.

Lemma stack_wav_Ok acc out a out' :
  stack_wav stack_and_pad_audio acc out a = Ok out' ->
  exists sample_rate stacked,
    hd_error (dd_get (sample_rates acc) a) = Some sample_rate /\
    Forall (fun sr => sr = sample_rate) (dd_get (sample_rates acc) a) /\
    out' = dict_set out a
             (WavCondition.make stacked (concat (dd_get (lengths acc) a)) sample_rate
                (dd_get (paths acc) a) (dd_get (seek_times acc) a)).
Proof.
  unfold stack_wav.
  destruct (dd_get (sample_rates acc) a) as [|sr rates] eqn:Er; [discriminate|].
  destruct (forallb _ (sr :: rates)) eqn:Eall; [|discriminate].
  destruct (stack_and_pad_audio _) as [stacked|]; [|discriminate]. simpl.
  unfold cat_long.
  destruct (dd_get (lengths acc) a) as [|l0 ls] eqn:El; [discriminate|].
  simpl. intros [= <-]. exists sr, stacked. split; [reflexivity|]. split; [|reflexivity].
  apply List.Forall_forall. intros x Hx.
  rewrite forallb_forall in Eall. apply Eall in Hx. now apply Z.eqb_eq in Hx.
Qed.

(** The second loop of [_collate_wavs]. *)
Lemma stack_all_Ok acc attributes : forall out out',
  List.NoDup attributes ->
  for_each attributes (stack_wav stack_and_pad_audio acc) out = Ok out' ->
  forall a,
    (In a attributes ->
     exists sample_rate stacked,
       hd_error (dd_get (sample_rates acc) a) = Some sample_rate /\
       Forall (fun sr => sr = sample_rate) (dd_get (sample_rates acc) a) /\
       dict_get out' a
       = Some (WavCondition.make stacked (concat (dd_get (lengths acc) a)) sample_rate
                 (dd_get (paths acc) a) (dd_get (seek_times acc) a))) /\
    (~ In a attributes -> dict_get out' a = dict_get out a).
Proof.
  induction attributes as [|a0 attributes IH]; intros out out' Hnd Hrun a; simpl in Hrun.
  - injection Hrun as <-. split; [intros [] | reflexivity].
  - apply List.NoDup_cons_iff in Hnd as [Hnotin Hnd].
    destruct (stack_wav stack_and_pad_audio acc out a0) as [out1|] eqn:E1; [|discriminate].
    simpl in Hrun. destruct (stack_wav_Ok E1) as (sr & stacked & Hhd & Hall & ->).
    specialize (IH _ out' Hnd Hrun). split.
    + intros [<-|Hin].
      * exists sr, stacked. split; [assumption|]. split; [assumption|].
        rewrite (proj2 (IH a0) Hnotin). apply dict_get_set_eq.
      * now apply IH.
    + intros Hnot. rewrite (proj2 (IH a)) by (intros Hin; apply Hnot; now right).
      apply dict_get_set_ne. intros ->. apply Hnot. now left.
Qed.
Lemma names_of_NoDup f (self : ConditionProvider.t R Prepared) :
  List.NoDup (dict_keys (conditioners self)) -> List.NoDup (names_of f self).
Proof.
  unfold names_of, dict_keys. generalize (conditioners self) as l.
  induction l as [|[k c] l IH]; simpl; intros Hnd; [constructor|].
  apply List.NoDup_cons_iff in Hnd as [Hk Hnd].
  destruct (Family_eqb (family c) f); simpl; [|now apply IH].
  constructor; [|now apply IH].
  intros Hin. apply Hk. apply in_map_iff in Hin as ([k' c'] & <- & Hin).
  apply filter_In in Hin as [Hin _]. apply in_map_iff. now exists (k', c').
Qed.

Lemma Forall2_In_l {A B} (P : A -> B -> Prop) xs ys x :
  Forall2 P xs ys -> In x xs -> exists y, In y ys /\ P x y.
Proof.
  induction 1 as [|x0 y0 xs ys Hxy _ IH]; intros Hin; [destruct Hin|].
  destruct Hin as [<-|Hin].
  - exists y0. split; [now left | assumption].
  - destruct (IH Hin) as (y & Hy & Hp). exists y. split; [now right | assumption].
Qed.

(** What a successful [_collate_wavs] went through. *)
Lemma collate_wavs_Ok (self : ConditionProvider.t R Prepared) samples out :
  List.NoDup (dict_keys (conditioners self)) ->
  _collate_wavs stack_and_pad_audio self samples = Ok out ->
  forall a, In a (wav_conditions self) ->
    exists ws sample_rate stacked,
      Forall2 (fun sample w =>
                 dict_get (ConditionAttributes.wav sample) a = Some w /\ collatable w)
        samples ws /\
      Forall (fun w => WavCondition.sample_rate w = sample_rate) ws /\
      dict_get out a
      = Some (WavCondition.make stacked
                (concat (map (@WavCondition.length R) ws)) sample_rate
                (concat (map (@WavCondition.path R) ws))
                (concat (map (@WavCondition.seek_time R) ws))).
Proof.
  intros Hnd Hrun a Ha. unfold _collate_wavs in Hrun.
  apply (names_of_NoDup WaveformFamily) in Hnd. fold (wav_conditions self) in Hnd.
  destruct (for_each samples _ _) as [acc|] eqn:E1; [|discriminate].
  simpl in Hrun.
  destruct (collect_all_Ok Hnd E1 Ha) as (ws & Hall & Hl & Hr & Hp & Hs).
  destruct (proj1 (stack_all_Ok Hnd Hrun a) Ha) as (sr & stacked & _ & Hsr & Hout).
  change (dd_get (lengths (mkWavLists [] [] [] [] [])) a) with (@nil LongVec) in Hl.
  change (dd_get (sample_rates (mkWavLists (R:=R) [] [] [] [] [])) a) with (@nil Z) in Hr.
  change (dd_get (paths (mkWavLists (R:=R) [] [] [] [] [])) a) with (@nil (option string)) in Hp.
  change (dd_get (seek_times (mkWavLists (R:=R) [] [] [] [] [])) a) with (@nil (option Q)) in Hs.
  simpl in Hl, Hr, Hp, Hs.
  rewrite Hl, Hp, Hs in Hout. rewrite Hr in Hsr.
  exists ws, sr, stacked. split; [exact Hall|]. split; [|exact Hout].
  now apply List.Forall_map in Hsr.
Qed.

(** C9.  Waveform collation raises whenever some example's waveform for
    a registered waveform attribute is not of rank 3 with leading
    dimension 1, and whenever two examples declare different sample
    rates for one waveform attribute; when it succeeds, the collated
    condition of every waveform attribute carries the lengths, the
    paths and the seek times of the examples, in batch order, and their
    common sample rate. *)
Theorem collate_wavs_checks (self : ConditionProvider.t R Prepared) samples :
  List.NoDup (dict_keys (conditioners self)) ->
  (forall sample a w,
      In sample samples -> In a (wav_conditions self) ->
      dict_get (ConditionAttributes.wav sample) a = Some w ->
      ~ collatable w ->
      exists e, _collate_wavs stack_and_pad_audio self samples = Raise e) /\
  (forall sample1 sample2 a w1 w2,
      In sample1 samples -> In sample2 samples -> In a (wav_conditions self) ->
      dict_get (ConditionAttributes.wav sample1) a = Some w1 ->
      dict_get (ConditionAttributes.wav sample2) a = Some w2 ->
      WavCondition.sample_rate w1 <> WavCondition.sample_rate w2 ->
      exists e, _collate_wavs stack_and_pad_audio self samples = Raise e) /\
  (forall out,
      _collate_wavs stack_and_pad_audio self samples = Ok out ->
      forall a, In a (wav_conditions self) ->
        exists collated ws,
          dict_get out a = Some collated /\
          Forall2 (fun sample w =>
                     dict_get (ConditionAttributes.wav sample) a = Some w)
            samples ws /\
          WavCondition.length collated = concat (map (@WavCondition.length R) ws) /\
          WavCondition.path collated = concat (map (@WavCondition.path R) ws) /\
          WavCondition.seek_time collated
            = concat (map (@WavCondition.seek_time R) ws) /\
          Forall (fun w => WavCondition.sample_rate w
                           = WavCondition.sample_rate collated) ws).
Proof.
  intros Hnd. split; [|split].
  - intros sample a w Hin Ha Hw Hbad.
    destruct (_collate_wavs stack_and_pad_audio self samples) as [out|e] eqn:Hrun;
      [|now exists e].
    exfalso. destruct (collate_wavs_Ok Hnd Hrun Ha) as (ws & _ & _ & Hall & _).
    destruct (Forall2_In_l Hall Hin) as (w' & _ & Hw' & Hc).
    rewrite Hw in Hw'. injection Hw' as <-. contradiction.
  - intros sample1 sample2 a w1 w2 Hin1 Hin2 Ha Hw1 Hw2 Hne.
    destruct (_collate_wavs stack_and_pad_audio self samples) as [out|e] eqn:Hrun;
      [|now exists e].
    exfalso. destruct (collate_wavs_Ok Hnd Hrun Ha) as (ws & sr & _ & Hall & Hsr & _).
    destruct (Forall2_In_l Hall Hin1) as (w1' & Hi1 & Hw1' & _).
    destruct (Forall2_In_l Hall Hin2) as (w2' & Hi2 & Hw2' & _).
    rewrite Hw1 in Hw1'. injection Hw1' as <-.
    rewrite Hw2 in Hw2'. injection Hw2' as <-.
    rewrite List.Forall_forall in Hsr.
    apply Hne. rewrite (Hsr _ Hi1), (Hsr _ Hi2). reflexivity.
  - intros out Hrun a Ha.
    destruct (collate_wavs_Ok Hnd Hrun Ha) as (ws & sr & stacked & Hall & Hsr & Hout).
    eexists _, ws. split; [exact Hout|]. simpl.
    split; [|auto].
    eapply Forall2_impl; [exact Hall|]. now intros ? ? [? _].
Qed.

(** The keys of the collated dictionaries are registered names, so the
    check for an unexpected attribute in [prepare] cannot fail. *)
Lemma keys_dict_set_incl {V} (d : pydict V) k v (names : list string) :
  incl (dict_keys d) names -> In k names -> incl (dict_keys (dict_set d k v)) names.
Proof.
  intros Hd Hk x Hx.
  destruct (in_dec string_dec k (dict_keys d)) as [Hin|Hnot].
  - rewrite dict_keys_set in Hx by assumption. now apply Hd.
  - rewrite dict_keys_set_new in Hx by assumption.
    apply in_app_or in Hx as [Hx|[<-|[]]]; [now apply Hd | assumption].
Qed.

Lemma for_each_invariant {A S} (I : S -> Prop) (xs : list A)
    (body : S -> A -> result S) s s' :
  (forall s0 x s1, In x xs -> I s0 -> body s0 x = Ok s1 -> I s1) ->
  I s -> for_each xs body s = Ok s' -> I s'.
Proof.
  revert s. induction xs as [|x xs IH]; intros s Hbody Hs Hrun; simpl in Hrun.
  - now injection Hrun as <-.
  - destruct (body s x) as [s1|] eqn:E; [|discriminate]. simpl in Hrun.
    apply (IH s1); [|apply (Hbody s x s1); auto; now left|exact Hrun].
    intros s0 y s0' Hy. apply Hbody. now right.
Qed.

Lemma names_of_registered f (self : ConditionProvider.t R Prepared) :
  incl (names_of f self) (dict_keys (conditioners self)).
Proof.
  unfold names_of, dict_keys. intros k Hk.
  apply in_map_iff in Hk as (kv & <- & Hin). apply filter_In in Hin as [Hin _].
  now apply in_map.
Qed.

Lemma collate_text_keys (self : ConditionProvider.t R Prepared) samples text :
  _collate_text self samples = Ok text ->
  incl (dict_keys text) (dict_keys (conditioners self)).
Proof.
  unfold _collate_text. intros Hrun.
  eapply (for_each_invariant
            (I := fun out : pydict (list TextCondition) =>
                    incl (dict_keys out) (dict_keys (conditioners self)))
            (s := []));
    [|intros x Hx; destruct Hx|exact Hrun].
  intros out text0 out' _ Hout Hinner.
  eapply (for_each_invariant
            (I := fun out : pydict (list TextCondition) =>
                    incl (dict_keys out) (dict_keys (conditioners self))));
    [|exact Hout|exact Hinner].
  intros o k o' Hk Ho Hstep. unfold dict_item in Hstep.
  destruct (dict_get text0 k); [|discriminate]. simpl in Hstep.
  injection Hstep as <-. unfold dd_append, dd_extend.
  apply keys_dict_set_incl; [exact Ho|]. now apply (@names_of_registered TextFamily).
Qed.

Lemma collate_wavs_keys (self : ConditionProvider.t R Prepared) samples wavs :
  _collate_wavs stack_and_pad_audio self samples = Ok wavs ->
  incl (dict_keys wavs) (dict_keys (conditioners self)).
Proof.
  unfold _collate_wavs.
  destruct (for_each samples _ _) as [acc|]; [|discriminate]. simpl. intros Hrun.
  eapply (for_each_invariant
            (I := fun out : pydict (WavCondition.t R) =>
                    incl (dict_keys out) (dict_keys (conditioners self)))
            (s := []));
    [|intros x Hx; destruct Hx|exact Hrun].
  intros out a out' Ha Hout Hstep.
  destruct (stack_wav_Ok Hstep) as (sr & stacked & _ & _ & ->).
  apply keys_dict_set_incl; [exact Hout|]. now apply (@names_of_registered WaveformFamily).
Qed.

Lemma unexpected_attribute_check_passes
    (self : ConditionProvider.t R Prepared) samples text wavs :
  _collate_text self samples = Ok text ->
  _collate_wavs stack_and_pad_audio self samples = Ok wavs ->
  forallb (fun k => str_in k (dict_keys (conditioners self)))
    (dict_keys text ++ dict_keys wavs) = true.
Proof.
  intros Ht Hw. apply forallb_forall. intros k Hk. apply str_in_In.
  apply in_app_or in Hk as [Hk|Hk];
    [eapply collate_text_keys | eapply collate_wavs_keys]; eassumption.
Qed.

(** On an empty batch, waveform collation indexes the empty list of
    sample rates of the first waveform attribute. *)
Lemma prepare_empty_batch_with_wav (self : ConditionProvider.t R Prepared) :
  wav_conditions self <> [] ->
  prepare stack_and_pad_audio self []
  = Raise (IndexError "list index out of range").
Proof.
  intros Hw. unfold prepare, _collate_text, _collate_wavs. simpl.
  destruct (wav_conditions self) as [|a attributes]; [contradiction | reflexivity].
Qed.

(** C10, as amended.  On an empty batch, a provider with at least one
    registered conditioner and no waveform conditioner raises the
    "did not receive an input" error, naming every registered
    conditioner. *)
Theorem prepare_empty_batch (self : ConditionProvider.t R Prepared) :
  conditioners self <> [] ->
  wav_conditions self = [] ->
  prepare stack_and_pad_audio self []
  = Raise (MissingInputs (dict_keys (conditioners self))).
Proof.
  intros Hne Hw. unfold prepare, _collate_text, _collate_wavs. simpl.
  rewrite Hw. simpl.
  replace (List.filter _ (dict_keys (conditioners self)))
    with (dict_keys (conditioners self)).
  - destruct (conditioners self); [contradiction | reflexivity].
  - symmetry. apply forallb_filter_id. apply forallb_forall. reflexivity.
Qed.
End WavCollation.

(** * The condition fuser *)


Section Fuser.
Context `{Scalar R}.
Variable create_sin_embedding : Tensor Z -> nat -> Tensor R.

Import ConditionFuser.

(** C1.  With [genre] summed, [description] going to cross-attention
    and [lyrics] prepended, the first call of a streaming session on an
    input [[2; 5; 8]] with conditions [[2; 3; 8]] returns a fused input
    [[2; 8; 8]] and a cross-attention stream [[2; 3; 8]], and stores the
    offsets 5; the second call, on a new input [[2; 5; 8]], returns a
    fused input [[2; 5; 8]], nothing being prepended, and stores the
    offsets 10. *)
Theorem fuse_streaming_example
    (scale0 : R) (input1 input2 : Tensor R)
    (description lyrics description2 lyrics2 : ConditionType.t R)
    (conditions1 conditions2 : pydict (ConditionType.t R)) :
  shape input1 = [2; 5; 8] ->
  shape input2 = [2; 5; 8] ->
  shape (ConditionType.condition description) = [2; 3; 8] ->
  shape (ConditionType.condition lyrics) = [2; 3; 8] ->
  shape (ConditionType.condition description2) = [2; 3; 8] ->
  shape (ConditionType.condition lyrics2) = [2; 3; 8] ->
  Permutation conditions1 [("description", description); ("lyrics", lyrics)] ->
  Permutation conditions2 [("description", description2); ("lyrics", lyrics2)] ->
  exists fuser fused1 cross1 fuser1 fused2 cross2 fuser2,
    init Examples.fuse2cond false scale0 = Ok fuser /\
    forward create_sin_embedding (start_streaming fuser) input1 conditions1
      = Ok ((fused1, Some cross1), fuser1) /\
    shape fused1 = [2; 8; 8] /\
    shape cross1 = [2; 3; 8] /\
    dict_get (_streaming_state fuser1) "offsets" = Some [5%Z; 5%Z] /\
    forward create_sin_embedding fuser1 input2 conditions2
      = Ok ((fused2, Some cross2), fuser2) /\
    shape fused2 = [2; 5; 8] /\
    shape cross2 = [2; 3; 8] /\
    dict_get (_streaming_state fuser2) "offsets" = Some [10%Z; 10%Z].
Proof.
  intros Hi1 Hi2 Hd Hl Hd2 Hl2 Hp1 Hp2.
  destruct input1 as [s1 e1], input2 as [s2 e2].
  destruct description as [[sd ed] md], lyrics as [[sl el] ml].
  destruct description2 as [[sd2 ed2] md2], lyrics2 as [[sl2 el2] ml2].
  simpl in *. subst.
  apply Permutation_sym, Permutation_length_2_inv in Hp1, Hp2.
  destruct Hp1 as [-> | ->], Hp2 as [-> | ->];
    do 7 eexists; repeat split; reflexivity.
Qed.
End Fuser.

(** * The properties at concrete inputs *)

Section Nullify.
Context `{Scalar R}.

(** On a waveform [[B, C, T]] with at least one sample, [nullify_wav]
    does what its name says: one zero sample per channel, zero lengths,
    the sample rate kept, paths and seek times cleared. *)
Lemma nullify_wav_nonempty (w : WavCondition.t R) b c n :
  shape (WavCondition.wav w) = [b; c; S n] ->
  exists w',
    nullify_wav w = Ok w' /\
    shape (WavCondition.wav w') = [b; c; 1] /\
    (forall idx, elem (WavCondition.wav w') idx = zero) /\
    WavCondition.length w' = map (fun _ => 0%Z) (WavCondition.length w) /\
    WavCondition.sample_rate w' = WavCondition.sample_rate w /\
    WavCondition.path w' = repeat None (List.length (WavCondition.path w)) /\
    WavCondition.seek_time w'
      = repeat None (List.length (WavCondition.seek_time w)) /\
    WavCondition.is_nullified w' = true.
Proof.
  intros Hs. unfold nullify_wav, slice3_first. rewrite Hs. simpl.
  eexists. split; [reflexivity|]. repeat split.
Qed.
End Nullify.

(** C8.  The waveform without samples that
    [WavCondition.dummy_wav_condition(duration=0)] builds, shape
    [[1; 1; 0]], is "nullified" to a tensor whose last dimension has size
    0, not 1, and [is_nullified] is false of the result. *)
Theorem nullify_wav_of_empty_waveform :
  exists w',
    nullify_wav Examples.empty_wav = Ok w' /\
    shape (WavCondition.wav Examples.empty_wav) = [1; 1; 0] /\
    shape (WavCondition.wav w') = [1; 1; 0] /\
    WavCondition.is_nullified w' = false.
Proof. eexists. repeat split. Qed.

(** The witness of C3: at [Examples.empty_conditioner], built with
    [pad_empty=True] and producing a raw condition of shape [[2; 0; 4]],
    the conditioner returns a condition of shape [[2; 0; 4]]: the time
    dimension is 0. *)
Lemma pad_empty_keeps_zero_length_witness :
  exists out,
    BaseConditioner.forward Examples.empty_conditioner tt = Ok out /\
    shape (ConditionType.condition out) = [2; 0; 4] /\
    shape (ConditionType.mask out) = [2; 0] /\
    size (ConditionType.condition out) 1 <> 1.
Proof.
  apply (@pad_empty_keeps_zero_length Z _ unit 4 4 true true false true
           (fun _ => 1%Z) (fun _ => 7%Z) (fun x => x)
           (fun _ => Ok Examples.raw_empty) tt Examples.raw_empty 2);
    [reflexivity | reflexivity | reflexivity | lia].
Defined.



(** The witness of C4, at [Examples.store0]: after either policy, active,
    the example at location 0 is what it was. *)
Lemma dropout_keeps_the_callers_examples_witness :
  (exists out s',
     AttributeDropout.forward true
       (AttributeDropout.make true false {[ "genre" := 1%Q ]}) [0] Examples.store0
       = Ok (out, s') /\
     read_attrs s' 0 = Some Examples.rock) /\
  (exists out s',
     ClassifierFreeGuidanceDropout.forward true
       (ClassifierFreeGuidanceDropout.make true 1) [0] Examples.store0
       = Ok (out, s') /\
     read_attrs s' 0 = Some Examples.rock).
Proof.
  assert (Hwf : Forall2 (fun l ca => read_attrs Examples.store0 l = Some ca
                                     /\ well_formed ca) [0] [Examples.rock]).
  { repeat constructor; simpl; intuition discriminate. }
  destruct (@dropout_keeps_the_callers_examples Z _ true
              (AttributeDropout.make true false {[ "genre" := 1%Q ]})
              (ClassifierFreeGuidanceDropout.make true 1) [0] [Examples.rock]
              Examples.store0 Hwf)
    as [(out1 & s1 & Hrun1 & _ & Hk1) (out2 & s2 & Hrun2 & _ & Hk2)].
  split; [exists out1, s1 | exists out2, s2]; (split; [assumption|]).
  - now inversion Hk1.
  - now inversion Hk2.
Defined.

(** The counterexample to C5 as stated.  In evaluation mode the guidance
    dropout with [p = 1] returns the batch as it is, while in training
    mode it returns a nullified copy; and no choice of its only option
    [p] makes the two modes agree. *)
Lemma guidance_dropout_is_inactive_in_eval :
  ClassifierFreeGuidanceDropout.forward true
    (ClassifierFreeGuidanceDropout.make false 1) [0] Examples.store0
    = Ok ([0], Examples.store0) /\
  (exists s',
     ClassifierFreeGuidanceDropout.forward true
       (ClassifierFreeGuidanceDropout.make true 1) [0] Examples.store0
       = Ok ([1], s') /\
     read_attrs s' 1
     = Some (ConditionAttributes.make [("genre", None); ("mood", None)]
               [("self_wav", nullified Examples.wav_a)])) /\
  ~ (exists p : Q,
       ClassifierFreeGuidanceDropout.forward true
         (ClassifierFreeGuidanceDropout.make false p) [0] Examples.store0
       = ClassifierFreeGuidanceDropout.forward true
           (ClassifierFreeGuidanceDropout.make true p) [0] Examples.store0).
Proof.
  split; [reflexivity|]. split.
  - eexists. split; [vm_compute; reflexivity | vm_compute; reflexivity].
  - intros [p E]. unfold ClassifierFreeGuidanceDropout.forward in E. simpl in E.
    unfold sbind, rand in E. simpl in E.
    destruct (Qltb 0 p); simpl in E; discriminate E.
Qed.

(** C6.  [Examples.rock_with_mood] carries the text attribute [mood],
    which [Examples.genre_provider] has no conditioner for; [prepare]
    does not fail, it ignores the attribute and prepares [genre]. *)
Theorem prepare_ignores_unknown_attribute :
  In "mood" (ConditionAttributes.text_attributes Examples.rock_with_mood) /\
  ~ In "mood" (dict_keys (ConditionProvider.conditioners Examples.genre_provider)) /\
  ConditionProvider.prepare Examples.stack_and_pad_audio Examples.genre_provider
    [Examples.rock_with_mood]
  = Ok [("genre", ConditionProvider.TextBatch [Some "rock"])].
Proof.
  split; [simpl; auto|]. split; [|reflexivity].
  simpl. intros [E|[]]. discriminate E.
Qed.

(** The witness of C9, at [Examples.wav_provider]: a batch of two
    collatable waveforms is collated with their lengths, paths and seek
    times; a waveform with a batch of two, or at another sample rate,
    makes collation raise. *)
Lemma collate_wavs_checks_witness :
  (exists collated,
     ConditionProvider._collate_wavs Examples.stack_and_pad_audio
       Examples.wav_provider
       [Examples.with_wav Examples.wav_a; Examples.with_wav Examples.wav_b]
     = Ok [("self_wav", collated)] /\
     WavCondition.length collated = [4%Z; 3%Z] /\
     WavCondition.path collated = [Some "a.wav"; Some "b.wav"] /\
     WavCondition.seek_time collated = [Some 0%Q; None]) /\
  (exists e,
     ConditionProvider._collate_wavs Examples.stack_and_pad_audio
       Examples.wav_provider
       [Examples.with_wav Examples.wav_a; Examples.with_wav Examples.wav_pair]
     = Raise e) /\
  (exists e,
     ConditionProvider._collate_wavs Examples.stack_and_pad_audio
       Examples.wav_provider
       [Examples.with_wav Examples.wav_a; Examples.with_wav Examples.wav_b_16k]
     = Raise e).
Proof.
  assert (Hnd : List.NoDup
                  (dict_keys (ConditionProvider.conditioners Examples.wav_provider))).
  { repeat constructor. simpl. tauto. }
  split; [|split].
  - destruct (@collate_wavs_checks Z _ Examples.stack_and_pad_audio
                Examples.wav_provider
                [Examples.with_wav Examples.wav_a; Examples.with_wav Examples.wav_b]
                Hnd) as (_ & _ & Hok).
    eexists. split; [reflexivity|].
    destruct (Hok _ eq_refl "self_wav" (or_introl eq_refl))
      as (collated & ws & Hget & Hws & Hl & Hp & Hs & _).
    injection Hget as <-. repeat split.
  - destruct (@collate_wavs_checks Z _ Examples.stack_and_pad_audio
                Examples.wav_provider
                [Examples.with_wav Examples.wav_a; Examples.with_wav Examples.wav_pair]
                Hnd) as (Hbad & _ & _).
    apply (Hbad (Examples.with_wav Examples.wav_pair) "self_wav" Examples.wav_pair);
      [simpl; auto | simpl; auto | reflexivity |].
    intros [_ Hsize]. discriminate Hsize.
  - destruct (@collate_wavs_checks Z _ Examples.stack_and_pad_audio
                Examples.wav_provider
                [Examples.with_wav Examples.wav_a; Examples.with_wav Examples.wav_b_16k]
                Hnd) as (_ & Hrate & _).
    apply (Hrate (Examples.with_wav Examples.wav_a)
             (Examples.with_wav Examples.wav_b_16k) "self_wav"
             Examples.wav_a Examples.wav_b_16k);
      [simpl; auto | simpl; auto | simpl; auto | reflexivity | reflexivity |].
    simpl. discriminate.
Defined.

(** The counterexample to C10 as stated.  On the empty batch,
    [Examples.wav_provider], whose one conditioner is a waveform
    conditioner, raises the index error of waveform collation and not
    the error that names the conditioners without input. *)
Lemma empty_batch_index_error :
  ConditionProvider.conditioners Examples.wav_provider <> [] /\
  ConditionProvider.prepare Examples.stack_and_pad_audio Examples.wav_provider []
  = Raise (IndexError "list index out of range") /\
  ConditionProvider.prepare Examples.stack_and_pad_audio Examples.wav_provider []
  <> Raise (MissingInputs ["self_wav"]).
Proof. split; [discriminate|]. split; [reflexivity | discriminate]. Qed.

(** The witness of C10 as amended, at [Examples.genre_provider]. *)
Lemma prepare_empty_batch_witness :
  ConditionProvider.prepare Examples.stack_and_pad_audio Examples.genre_provider []
  = Raise (MissingInputs ["genre"]).
Proof.
  apply (@prepare_empty_batch Z _ Examples.stack_and_pad_audio
           Examples.genre_provider);
    [discriminate | reflexivity].
Defined.

(** The witness of C1, at tensors of ones. *)
Lemma fuse_streaming_example_witness :
  exists fuser fused1 cross1 fuser1 fused2 cross2 fuser2,
    ConditionFuser.init Examples.fuse2cond false 1%Z = Ok fuser /\
    ConditionFuser.forward (fun _ _ => Examples.ones [1])
      (ConditionFuser.start_streaming fuser) (Examples.ones [2; 5; 8])
      [("description", Examples.condition_238); ("lyrics", Examples.condition_238)]
    = Ok ((fused1, Some cross1), fuser1) /\
    shape fused1 = [2; 8; 8] /\
    shape cross1 = [2; 3; 8] /\
    dict_get (ConditionFuser._streaming_state fuser1) "offsets" = Some [5%Z; 5%Z] /\
    ConditionFuser.forward (fun _ _ => Examples.ones [1]) fuser1
      (Examples.ones [2; 5; 8])
      [("description", Examples.condition_238); ("lyrics", Examples.condition_238)]
    = Ok ((fused2, Some cross2), fuser2) /\
    shape fused2 = [2; 5; 8] /\
    shape cross2 = [2; 3; 8] /\
    dict_get (ConditionFuser._streaming_state fuser2) "offsets" = Some [10%Z; 10%Z].
Proof.
  apply (@fuse_streaming_example Z _ (fun _ _ => Examples.ones [1]) 1%Z
           (Examples.ones [2; 5; 8]) (Examples.ones [2; 5; 8])
           Examples.condition_238 Examples.condition_238
           Examples.condition_238 Examples.condition_238);
    try reflexivity; apply Permutation_refl.
Defined.

(** * Further properties: the condition fuser *)

Section FuserFacts.
Context `{Scalar R}.
Variable create_sin_embedding : Tensor Z -> nat -> Tensor R.

Import ConditionFuser.

Lemma fold_dict_set_get {V} (conds : list string) (m : V) : forall acc c,
  dict_get (fold_left (fun c2f condition => dict_set c2f condition m) conds acc) c
  = if str_in c conds then Some m else dict_get acc c.
Proof.
  induction conds as [|c0 conds IH]; intros acc c; simpl; [reflexivity|].
  rewrite IH. unfold str_in. simpl.
  destruct (existsb (String.eqb c) conds); [now rewrite orb_true_r|].
  rewrite orb_false_r. destruct (String.eqb c c0) eqn:E0.
  - apply String.eqb_eq in E0. subst. apply dict_get_set_eq.
  - apply dict_get_set_ne. intros ->. now rewrite String.eqb_refl in E0.
Qed.

(** The inverse mapping that [__init__] derives. *)
Lemma cond2fuse_last_wins (f1 f2 : pydict (list string)) m conds c : forall acc,
  In c conds ->
  (forall m' conds', In (m', conds') f2 -> ~ In c conds') ->
  dict_get
    (fold_left (fun c2f mc =>
        fold_left (fun c2f condition => dict_set c2f condition (fst mc))
          (snd mc) c2f)
      (f1 ++ (m, conds) :: f2) acc) c
  = Some m.
Proof.
  intros acc Hc Hlater. rewrite fold_left_app. simpl.
  generalize (fold_left
    (fun c2f mc => fold_left (fun c2f condition => dict_set c2f condition (fst mc))
                     (snd mc) c2f) f1 acc) as acc1.
  intros acc1.
  assert (Hhere : dict_get (fold_left (fun c2f condition => dict_set c2f condition m)
                              conds acc1) c = Some m).
  { rewrite fold_dict_set_get. apply str_in_In in Hc. now rewrite Hc. }
  revert Hhere.
  generalize (fold_left (fun c2f condition => dict_set c2f condition m) conds acc1)
    as acc2.
  induction f2 as [|[m' conds'] f2 IH]; intros acc2 Hhere; simpl; [exact Hhere|].
  apply IH.
  - intros m'' conds'' Hin. apply (Hlater m'' conds''). now right.
  - rewrite fold_dict_set_get.
    destruct (str_in c conds') eqn:E; [|exact Hhere].
    apply str_in_In in E. exfalso. apply (Hlater m' conds'); [now left | exact E].
Qed.

Lemma cond2fuse_unlisted (f : pydict (list string)) c : forall acc,
  (forall m conds, In (m, conds) f -> ~ In c conds) ->
  dict_get
    (fold_left (fun c2f mc =>
        fold_left (fun c2f condition => dict_set c2f condition (fst mc))
          (snd mc) c2f)
      f acc) c
  = dict_get acc c.
Proof.
  induction f as [|[m conds] f IH]; intros acc Hnot; simpl; [reflexivity|].
  rewrite IH by (intros m' conds' Hin; apply (Hnot m' conds'); now right).
  rewrite fold_dict_set_get.
  destruct (str_in c conds) eqn:E; [|reflexivity].
  apply str_in_In in E. exfalso. apply (Hnot m conds); [now left | exact E].
Qed.

Lemma forallb_false_witness {A} (f : A -> bool) (l : list A) :
  forallb f l = false -> exists x, In x l /\ f x = false.
Proof.
  induction l as [|x l IH]; simpl; [discriminate|].
  destruct (f x) eqn:E; simpl.
  - intros Hl. destruct (IH Hl) as (y & Hy & Hf). exists y. auto.
  - intros _. exists x. auto.
Qed.

(** X1.  The constructor of the fuser accepts a configuration exactly
    when all its keys are fusing methods.  The fuser it builds is not
    in streaming mode and holds no offsets; its inverse mapping sends a
    condition to the last method of the configuration that lists it,
    and has no entry for a condition no method lists. *)
Theorem fuser_init_inverse_mapping (fuse2cond : pydict (list string))
    (pos_emb : bool) (scale0 : R) :
  match init fuse2cond pos_emb scale0 with
  | Ok fuser =>
      (forall k, In k (dict_keys fuse2cond) -> In k FUSING_METHODS) /\
      _is_streaming fuser = false /\
      _streaming_state fuser = [] /\
      (forall f1 m conds f2 c,
          fuse2cond = f1 ++ (m, conds) :: f2 ->
          In c conds ->
          (forall m' conds', In (m', conds') f2 -> ~ In c conds') ->
          dict_get (cond2fuse fuser) c = Some m) /\
      (forall c,
          (forall m conds, In (m, conds) fuse2cond -> ~ In c conds) ->
          dict_get (cond2fuse fuser) c = None)
  | Raise e =>
      e = AssertionError "Got invalid fuse method" /\
      exists k, In k (dict_keys fuse2cond) /\ ~ In k FUSING_METHODS
  end.
Proof.
  unfold init.
  destruct (forallb (fun k => str_in k FUSING_METHODS) (dict_keys fuse2cond)) eqn:Hall.
  - split; [|split; [reflexivity|split; [reflexivity|split]]].
    + intros k Hk. rewrite forallb_forall in Hall. now apply str_in_In, Hall.
    + intros f1 m conds f2 c -> Hc Hlater. simpl. now apply cond2fuse_last_wins.
    + intros c Hnot. simpl. now rewrite cond2fuse_unlisted.
  - split; [reflexivity|].
    destruct (forallb_false_witness Hall) as (k & Hk & Hbad).
    exists k. split; [exact Hk|]. intros Hin. apply str_in_In in Hin. congruence.
Qed.

Lemma wrap64_add_l a b : wrap64 (wrap64 a + b) = wrap64 (a + b).
Proof.
  unfold wrap64. f_equal.
  replace ((a + 2 ^ 63) mod 2 ^ 64 - 2 ^ 63 + b + 2 ^ 63)%Z
    with ((a + 2 ^ 63) mod 2 ^ 64 + b)%Z by lia.
  rewrite Zplus_mod_idemp_l. f_equal. lia.
Qed.

Lemma wrap64_small z : (- 2 ^ 63 <= z < 2 ^ 63)%Z -> wrap64 z = z.
Proof. intros Hz. unfold wrap64. rewrite Z.mod_small; lia. Qed.

(** What a successful call leaves in the fuser. *)
Lemma forward_state (self : t R) input conditions r self' :
  forward create_sin_embedding self input conditions = Ok (r, self') ->
  cond2fuse self' = cond2fuse self /\
  cross_attention_pos_emb self' = cross_attention_pos_emb self /\
  _is_streaming self' = _is_streaming self /\
  (_is_streaming self = false -> self' = self) /\
  (_is_streaming self = true ->
   dict_get (_streaming_state self') "offsets"
   = Some (map (fun o => wrap64 (o + Z.of_nat (size input 1)))
             (match dict_get (_streaming_state self) "offsets" with
              | Some offsets => offsets
              | None => repeat 0%Z (size input 0)
              end))).
Proof.
  unfold forward, size.
  destruct (shape input) as [|B [|T [|D [|? ?]]]]; try discriminate.
  destruct (dict_get (_streaming_state self) "offsets") as [os|];
    (destruct (forallb _ (dict_keys conditions)); [|discriminate]);
    (destruct (for_each conditions _ _) as [[fused cross]|]; [|discriminate]);
    simpl;
    (destruct cross as [c|];
     [destruct (cross_attention_pos_emb self) eqn:Ep;
      [destruct (pointwise add c _); [|discriminate]|]|]);
    simpl; intros [= <- <-];
    (destruct (_is_streaming self) eqn:Es; simpl;
     [rewrite dict_get_set_eq|];
     repeat split; try reflexivity; try assumption; intros; try congruence).
Qed.

(** X2.  Outside of streaming mode a successful call leaves the fuser as
    it is: no offsets are stored, and the next call is a first step
    again, which prepends. *)
Theorem forward_single_shot_keeps_fuser (self : t R) input conditions r self' :
  _is_streaming self = false ->
  forward create_sin_embedding self input conditions = Ok (r, self') ->
  self' = self.
Proof. intros Hs Hrun. now apply (forward_state Hrun). Qed.

Lemma offsets_accumulate (Ts : list nat) : forall (os : list Z) a,
  fold_left (fun os T => map (fun o => wrap64 (o + Z.of_nat T)) os) Ts
    (map (fun o => wrap64 (o + a)) os)
  = map (fun o => wrap64 (o + a + Z.of_nat (list_sum Ts))) os.
Proof.
  induction Ts as [|T Ts IH]; intros os a; simpl.
  - apply map_ext. intros o. f_equal. lia.
  - rewrite map_map.
    rewrite (map_ext (fun o => wrap64 (wrap64 (o + a) + Z.of_nat T))
                     (fun o => wrap64 (o + (a + Z.of_nat T))))
      by (intros o; rewrite wrap64_add_l; f_equal; lia).
    rewrite IH. apply map_ext. intros o. f_equal. lia.
Qed.

Lemma session_offsets calls : forall (self : t R) os outs self',
  _is_streaming self = true ->
  dict_get (_streaming_state self) "offsets" = Some os ->
  session create_sin_embedding self calls = Ok (outs, self') ->
  dict_get (_streaming_state self') "offsets"
  = Some (fold_left (fun os T => map (fun o => wrap64 (o + Z.of_nat T)) os)
            (map (fun call => size (fst call) 1) calls) os).
Proof.
  induction calls as [|[input conditions] calls IH]; intros self os outs self' Hs Hos Hrun;
    simpl in Hrun.
  - injection Hrun as _ <-. exact Hos.
  - destruct (forward create_sin_embedding self input conditions) as [[r self1]|] eqn:E1;
      [|discriminate].
    simpl in Hrun.
    destruct (session create_sin_embedding self1 calls) as [[rs self2]|] eqn:E2;
      [|discriminate].
    simpl in Hrun. injection Hrun as _ <-.
    destruct (forward_state E1) as (_ & _ & Hs1 & _ & Hst).
    specialize (Hst Hs). rewrite Hos in Hst. rewrite Hs in Hs1.
    simpl. exact (IH self1 _ rs self2 Hs1 Hst E2).
Qed.

(** X3.  In a streaming session that starts without offsets, after any
    number of successful calls the fuser holds, for each example of the
    batch, the total number of time steps of the inputs it was called
    on, in 64-bit arithmetic. *)
Theorem streaming_offsets_total (self : t R) input conditions calls outs self' :
  _is_streaming self = true ->
  dict_get (_streaming_state self) "offsets" = None ->
  session create_sin_embedding self ((input, conditions) :: calls) = Ok (outs, self') ->
  let total := list_sum (map (fun call => size (fst call) 1)
                           ((input, conditions) :: calls)) in
  dict_get (_streaming_state self') "offsets"
    = Some (repeat (wrap64 (Z.of_nat total)) (size input 0)) /\
  ((Z.of_nat total < 2 ^ 63)%Z ->
   dict_get (_streaming_state self') "offsets"
     = Some (repeat (Z.of_nat total) (size input 0))).
Proof.
  intros Hs Hnone Hrun total.
  assert (Hoff : dict_get (_streaming_state self') "offsets"
                 = Some (repeat (wrap64 (Z.of_nat total)) (size input 0))).
  { simpl in Hrun.
    destruct (forward create_sin_embedding self input conditions) as [[r self1]|] eqn:E1;
      [|discriminate].
    simpl in Hrun.
    destruct (session create_sin_embedding self1 calls) as [[rs self2]|] eqn:E2;
      [|discriminate].
    simpl in Hrun. injection Hrun as _ <-.
    destruct (forward_state E1) as (_ & _ & Hs1 & _ & Hst).
    specialize (Hst Hs). rewrite Hnone in Hst. rewrite Hs in Hs1.
    rewrite (session_offsets Hs1 Hst E2).
    rewrite (offsets_accumulate (map (fun call => size (fst call) 1) calls)
               (repeat 0%Z (size input 0)) (Z.of_nat (size input 1))).
    rewrite map_repeat. subst total. simpl. do 3 f_equal. lia. }
  split; [exact Hoff|].
  intros Hsmall. rewrite Hoff, wrap64_small; [reflexivity | lia].
Qed.

(** X4.  A condition whose attribute no fusing method lists makes
    [forward] fail with its assertion, whatever the other conditions
    and the streaming state are. *)
Theorem forward_rejects_unknown_attribute (self : t R) input conditions B T D k :
  shape input = [B; T; D] ->
  In k (dict_keys conditions) ->
  dict_get (cond2fuse self) k = None ->
  forward create_sin_embedding self input conditions
  = Raise (AssertionError "given conditions contain unknown attributes for fuser").
Proof.
  intros Hshape Hk Hnone. unfold forward. rewrite Hshape.
  assert (Hall : forallb (fun k => str_in k (dict_keys (cond2fuse self)))
                   (dict_keys conditions) = false).
  { destruct (forallb _ (dict_keys conditions)) eqn:E; [|reflexivity].
    rewrite forallb_forall in E. apply E in Hk. apply str_in_In in Hk.
    destruct (In_keys_dict_get Hk) as [m Hm]. congruence. }
  destruct (dict_get (_streaming_state self) "offsets"); now rewrite Hall.
Qed.

(** After the first step the prepended conditions are skipped. *)
Lemma fuse_later_steps_skip_prepend (self : t R) conditions : forall acc,
  for_each conditions (fuse_one self false) acc
  = for_each (List.filter (fun item => negb (fused_by self "prepend" item)) conditions)
      (fuse_one self false) acc.
Proof.
  induction conditions as [|item conditions IH]; intros acc; simpl; [reflexivity|].
  unfold fused_by at 1.
  destruct (dict_get (cond2fuse self) (fst item)) as [op|] eqn:Eop; simpl.
  - destruct (String.eqb op "prepend") eqn:Ep; simpl.
    + apply String.eqb_eq in Ep. subst op.
      unfold fuse_one at 1. destruct acc as [input cross].
      unfold dict_item. rewrite Eop. simpl. apply IH.
    + destruct (fuse_one self false acc item); simpl; [apply IH | reflexivity].
  - destruct (fuse_one self false acc item); simpl; [apply IH | reflexivity].
Qed.

Lemma known_keys_skip_prepend (self : t R) (conditions : pydict (ConditionType.t R)) :
  forallb (fun k => str_in k (dict_keys (cond2fuse self)))
    (dict_keys (List.filter (fun item => negb (fused_by self "prepend" item)) conditions))
  = forallb (fun k => str_in k (dict_keys (cond2fuse self))) (dict_keys conditions).
Proof.
  induction conditions as [|item conditions IH]; simpl; [reflexivity|].
  unfold fused_by at 1.
  destruct (dict_get (cond2fuse self) (fst item)) as [op|] eqn:Eop; simpl.
  - destruct (String.eqb op "prepend"); simpl; [|now rewrite IH].
    apply dict_get_In_keys, str_in_In in Eop. now rewrite Eop.
  - now rewrite IH.
Qed.

(** X5.  Once the fuser holds offsets, the conditions to prepend have
    no effect at all: a call returns, raises and stores what it does
    without them. *)
Theorem forward_later_steps_ignore_prepend (self : t R) input conditions offsets :
  dict_get (_streaming_state self) "offsets" = Some offsets ->
  forward create_sin_embedding self input conditions
  = forward create_sin_embedding self input
      (List.filter (fun item => negb (fused_by self "prepend" item)) conditions).
Proof.
  intros Hos. unfold forward.
  destruct (shape input) as [|B [|T [|D [|? ?]]]]; try reflexivity.
  rewrite Hos, known_keys_skip_prepend, <- fuse_later_steps_skip_prepend. reflexivity.
Qed.

Lemma broadcast_over_time B T D : broadcast_shapes [B; T; D] [B; 1; D] = Some [B; T; D].
Proof.
  unfold broadcast_shapes; simpl. rewrite !Nat.eqb_refl.
  destruct (T =? 1) eqn:E; simpl; reflexivity.
Qed.

Lemma iadd_over_time (input cond : Tensor R) B T D :
  shape input = [B; T; D] -> shape cond = [B; 1; D] ->
  exists r, iadd input cond = Ok r /\ shape r = [B; T; D].
Proof.
  intros Hi Hc. unfold iadd, pointwise. rewrite Hi, Hc, broadcast_over_time.
  simpl. rewrite bool_decide_eq_true_2 by reflexivity. eexists. split; reflexivity.
Qed.

Lemma cat1_time (a b : Tensor R) B Ta Tb D :
  shape a = [B; Ta; D] -> shape b = [B; Tb; D] ->
  exists r, cat1 a b = Ok r /\ shape r = [B; Ta + Tb; D].
Proof.
  intros Ha Hb. unfold cat1. rewrite Ha, Hb.
  destruct (decide (B = B /\ [D] = [D])) as [_|Hne]; [|exfalso; apply Hne; auto].
  eexists. split; reflexivity.
Qed.

Lemma time_steps_cons (item : string * ConditionType.t R) items :
  list_sum (map (@time_steps R) (item :: items))
  = time_steps item + list_sum (map (@time_steps R) items).
Proof. reflexivity. Qed.

Lemma fuse_loop_shapes (self : t R) (first_step : bool) B D conditions :
  forall (input : Tensor R) (cross : option (Tensor R)) T,
    shape input = [B; T; D] ->
    (forall c, cross = Some c -> exists n, shape c = [B; n; D]) ->
    Forall (fusible self B D) conditions ->
    exists input' cross',
      for_each conditions (fuse_one self first_step) (input, cross)
        = Ok (input', cross') /\
      shape input'
        = [B;
           (if first_step
            then list_sum (map (@time_steps R)
                             (List.filter (fused_by self "prepend") conditions))
            else 0) + T;
           D] /\
      match cross' with
      | Some c' =>
          shape c'
          = [B;
             match cross with Some c => size c 1 | None => 0 end
             + list_sum (map (@time_steps R)
                           (List.filter (fused_by self "cross") conditions));
             D] /\
          (cross <> None \/ List.filter (fused_by self "cross") conditions <> [])
      | None => cross = None /\ List.filter (fused_by self "cross") conditions = []
      end.
Proof.
  induction conditions as [|item conditions IH]; intros input cross T Hi Hcross Hall.
  - exists input, cross. simpl. split; [reflexivity|].
    split; [now destruct first_step|].
    destruct cross as [c|]; [|auto].
    destruct (Hcross c eq_refl) as [n Hn]. unfold size. rewrite Hn. simpl.
    split; [do 2 f_equal; lia | left; discriminate].
  - inversion Hall as [|? ? Hitem Hrest]; subst. unfold fusible in Hitem.
    destruct (dict_get (cond2fuse self) (fst item)) as [op|] eqn:Eop; [|contradiction].
    assert (Hp : fused_by self "prepend" item = String.eqb op "prepend")
      by (unfold fused_by; now rewrite Eop).
    assert (Hx : fused_by self "cross" item = String.eqb op "cross")
      by (unfold fused_by; now rewrite Eop).
    cbn [for_each List.filter]. rewrite Hp, Hx.
    destruct Hitem as [[-> Hs] | [[-> | ->] [n Hn]]]; cbn [String.eqb Ascii.eqb Bool.eqb];
      try assert (Ht : time_steps item = n) by (unfold time_steps, size; now rewrite Hn).
    + (* sum *)
      destruct (iadd_over_time Hi Hs) as (r & Hadd & Hr).
      assert (Hstep : fuse_one self first_step (input, cross) item = Ok (r, cross)).
      { unfold fuse_one, dict_item. rewrite Eop. simpl. now rewrite Hadd. }
      rewrite Hstep. cbn [rbind].
      destruct (IH r cross T Hr Hcross Hrest) as (input' & cross' & Hrun & Hsh & Hc).
      exists input', cross'. auto.
    + (* prepend *)
      destruct first_step.
      * destruct (cat1_time Hn Hi) as (r & Hcat & Hr).
        assert (Hstep : fuse_one self true (input, cross) item = Ok (r, cross)).
        { unfold fuse_one, dict_item. rewrite Eop. simpl. now rewrite Hcat. }
        rewrite Hstep. cbn [rbind].
        destruct (IH r cross (n + T) Hr Hcross Hrest) as (input' & cross' & Hrun & Hsh & Hc).
        exists input', cross'. split; [exact Hrun|]. split; [|exact Hc].
        rewrite Hsh. rewrite time_steps_cons, Ht.
        do 2 f_equal. lia.
      * assert (Hstep : fuse_one self false (input, cross) item = Ok (input, cross)).
        { unfold fuse_one, dict_item. rewrite Eop. reflexivity. }
        rewrite Hstep. cbn [rbind].
        destruct (IH input cross T Hi Hcross Hrest) as (input' & cross' & Hrun & Hsh & Hc).
        exists input', cross'. auto.
    + (* cross *)
      destruct cross as [c|].
      * destruct (Hcross c eq_refl) as [n0 Hn0].
        destruct (cat1_time Hn0 Hn) as (r & Hcat & Hr).
        assert (Hstep : fuse_one self first_step (input, Some c) item = Ok (input, Some r)).
        { unfold fuse_one, dict_item. rewrite Eop. simpl. now rewrite Hcat. }
        rewrite Hstep. cbn [rbind].
        destruct (IH input (Some r) T Hi) as (input' & cross' & Hrun & Hsh & Hc);
          [intros ? [= <-]; eauto | exact Hrest |].
        exists input', cross'. split; [exact Hrun|]. split; [exact Hsh|].
        destruct cross' as [c'|]; [|destruct Hc as [Hc _]; discriminate].
        destruct Hc as [Hc _]. split; [|left; discriminate].
        rewrite Hc. rewrite time_steps_cons, Ht.
        unfold size. rewrite Hr, Hn0. simpl. do 2 f_equal. lia.
      * assert (Hstep : fuse_one self first_step (input, None) item
                        = Ok (input, Some (ConditionType.condition (snd item)))).
        { unfold fuse_one, dict_item. rewrite Eop. reflexivity. }
        rewrite Hstep. cbn [rbind].
        destruct (IH input (Some (ConditionType.condition (snd item))) T Hi)
          as (input' & cross' & Hrun & Hsh & Hc);
          [intros ? [= <-]; eauto | exact Hrest |].
        exists input', cross'. split; [exact Hrun|]. split; [exact Hsh|].
        destruct cross' as [c'|]; [|destruct Hc as [Hc _]; discriminate].
        destruct Hc as [Hc _]. split; [|right; discriminate].
        rewrite Hc. rewrite time_steps_cons, Ht.
        unfold size. rewrite Hn. simpl. reflexivity.
Qed.

(** X6.  On an input [[B; T; D]] and conditions the fuser can fuse,
    [forward] succeeds.  On a first step the fused input has the time
    steps of all prepended conditions and the [T] of the input, on a
    later step it has [T]; the cross-attention stream is [None] exactly
    when no condition goes to cross-attention, and otherwise it has
    the time steps of all the conditions that do. *)
Theorem forward_shapes (self : t R) input conditions B T D :
  shape input = [B; T; D] ->
  cross_attention_pos_emb self = false ->
  Forall (fusible self B D) conditions ->
  let first_step :=
    match dict_get (_streaming_state self) "offsets" with
    | Some _ => false
    | None => true
    end in
  exists fused cross self',
    forward create_sin_embedding self input conditions = Ok ((fused, cross), self') /\
    shape fused
      = [B;
         (if first_step
          then list_sum (map (@time_steps R)
                           (List.filter (fused_by self "prepend") conditions))
          else 0) + T;
         D] /\
    match cross with
    | Some c =>
        List.filter (fused_by self "cross") conditions <> [] /\
        shape c
        = [B;
           list_sum (map (@time_steps R)
                       (List.filter (fused_by self "cross") conditions));
           D]
    | None => List.filter (fused_by self "cross") conditions = []
    end.
Proof.
  intros Hi Hpos Hall first_step.
  assert (Hknown : forallb (fun k => str_in k (dict_keys (cond2fuse self)))
                     (dict_keys conditions) = true).
  { apply forallb_forall. intros k Hk. apply str_in_In.
    apply in_map_iff in Hk as (item & <- & Hin).
    rewrite List.Forall_forall in Hall. specialize (Hall item Hin).
    unfold fusible in Hall.
    destruct (dict_get (cond2fuse self) (fst item)) eqn:E; [|contradiction].
    eapply dict_get_In_keys; eassumption. }
  destruct (@fuse_loop_shapes self first_step B D conditions input None T Hi)
    as (fused & cross & Hrun & Hsh & Hc); [discriminate | exact Hall |].
  unfold forward. rewrite Hi.
  assert (Hpair : (let '(first_step, offsets) :=
                     match dict_get (_streaming_state self) "offsets" with
                     | Some offsets => (false, offsets)
                     | None => (true, repeat 0%Z B)
                     end in first_step) = first_step).
  { subst first_step. now destruct (dict_get (_streaming_state self) "offsets"). }
  subst first_step.
  destruct (dict_get (_streaming_state self) "offsets") as [os|];
    rewrite Hknown, Hrun; simpl; rewrite Hpos;
    (destruct cross as [c|]; simpl;
     [destruct Hc as [Hc [Hf|Hf]]; [congruence|];
      eexists _, _, _; split; [reflexivity|]; split; [exact Hsh|];
      split; [exact Hf | exact Hc]
     |destruct Hc as [_ Hc];
      eexists _, _, _; split; [reflexivity|]; split; [exact Hsh | exact Hc]]).
Qed.
End FuserFacts.

(** * Further properties: the condition provider *)

Section TextCollation.
Context `{Scalar R}.
Variable Prepared : Type.
Variable stack_and_pad_audio : list (Tensor R) -> result (Tensor R).

Import ConditionProvider.

Implicit Types (self : ConditionProvider.t R Prepared)
  (samples : list (ConditionAttributes.t R)).

(** The turn of the loop of [_collate_text] for one example. *)
Lemma collate_text_sample (text : pydict TextCondition) conditions :
  forall (out out' : pydict (list TextCondition)),
    List.NoDup conditions ->
    for_each conditions (fun out condition =>
        v <- dict_item text condition ;; Ok (dd_append out condition v)) out
      = Ok out' ->
    forall c,
      (In c conditions ->
       exists v, dict_get text c = Some v /\ dd_get out' c = dd_get out c ++ [v]) /\
      (~ In c conditions -> dd_get out' c = dd_get out c).
Proof.
  induction conditions as [|c0 conditions IH]; intros out out' Hnd Hrun c; simpl in Hrun.
  - injection Hrun as <-. split; [intros [] | reflexivity].
  - apply List.NoDup_cons_iff in Hnd as [Hnotin Hnd].
    unfold dict_item in Hrun.
    destruct (dict_get text c0) as [v0|] eqn:E0; [|discriminate]. simpl in Hrun.
    specialize (IH _ out' Hnd Hrun). split.
    + intros [<-|Hin].
      * exists v0. split; [exact E0|].
        rewrite (proj2 (IH c0) Hnotin). apply dd_get_extend_eq.
      * destruct (proj1 (IH c) Hin) as (v & Hv & Hout). exists v. split; [exact Hv|].
        rewrite Hout. unfold dd_append. rewrite dd_get_extend_ne; [reflexivity|].
        intros ->. contradiction.
    + intros Hnot. rewrite (proj2 (IH c)) by (intros Hin; apply Hnot; now right).
      unfold dd_append. apply dd_get_extend_ne. intros ->. apply Hnot. now left.
Qed.

Lemma collate_text_sample_keys (text : pydict TextCondition) conditions :
  forall (out out' : pydict (list TextCondition)),
    for_each conditions (fun out condition =>
        v <- dict_item text condition ;; Ok (dd_append out condition v)) out
      = Ok out' ->
    (incl conditions (dict_keys out) -> dict_keys out' = dict_keys out) /\
    (List.NoDup conditions -> (forall c, In c conditions -> ~ In c (dict_keys out)) ->
     dict_keys out' = dict_keys out ++ conditions).
Proof.
  induction conditions as [|c0 conditions IH]; intros out out' Hrun; simpl in Hrun.
  - injection Hrun as <-. split; intros; [reflexivity | now rewrite app_nil_r].
  - unfold dict_item in Hrun.
    destruct (dict_get text c0) as [v0|]; [|discriminate]. simpl in Hrun.
    destruct (IH _ out' Hrun) as [IHold IHnew]. split.
    + intros Hincl.
      assert (Hc0 : In c0 (dict_keys out)) by (apply Hincl; now left).
      unfold dd_append, dd_extend in *. rewrite IHold; rewrite dict_keys_set by assumption;
        [reflexivity|]. intros x Hx. apply Hincl. now right.
    + intros Hnd Hfresh. apply List.NoDup_cons_iff in Hnd as [Hnotin Hnd].
      unfold dd_append, dd_extend in *.
      assert (Hk : dict_keys (dict_set out c0 (dd_get out c0 ++ [v0]))
                   = dict_keys out ++ [c0]).
      { apply dict_keys_set_new. apply Hfresh. now left. }
      rewrite IHnew; [rewrite Hk, <- app_assoc; reflexivity | exact Hnd |].
      intros c Hc. rewrite Hk. intros Hin. apply in_app_or in Hin as [Hin|[<-|[]]].
      * apply (Hfresh c); [now right | exact Hin].
      * contradiction.
Qed.

(** What a successful [_collate_text] returns. *)
Lemma collate_text_Ok self samples : forall out0 out,
  List.NoDup (text_conditions self) ->
  for_each (map (@ConditionAttributes.text R) samples)
    (fun out text =>
       for_each (text_conditions self) (fun out condition =>
         v <- dict_item text condition ;; Ok (dd_append out condition v)) out)
    out0 = Ok out ->
  forall c, In c (text_conditions self) ->
    exists vs,
      Forall2 (fun sample v => dict_get (ConditionAttributes.text sample) c = Some v)
        samples vs /\
      dd_get out c = dd_get out0 c ++ vs.
Proof.
  induction samples as [|sample samples IH]; intros out0 out Hnd Hrun c Hc; simpl in Hrun.
  - injection Hrun as <-. exists []. split; [constructor | now rewrite app_nil_r].
  - destruct (for_each (text_conditions self) _ out0) as [out1|] eqn:E1; [|discriminate].
    simpl in Hrun.
    destruct (proj1 (collate_text_sample Hnd E1 c) Hc) as (v & Hv & Hout1).
    destruct (IH out1 out Hnd Hrun c Hc) as (vs & Hall & Hout).
    exists (v :: vs). split; [constructor; assumption|].
    rewrite Hout, Hout1, <- app_assoc. reflexivity.
Qed.

Lemma collate_text_keys_exact self samples : forall out0 out,
  List.NoDup (text_conditions self) ->
  for_each (map (@ConditionAttributes.text R) samples)
    (fun out text =>
       for_each (text_conditions self) (fun out condition =>
         v <- dict_item text condition ;; Ok (dd_append out condition v)) out)
    out0 = Ok out ->
  (dict_keys out0 = text_conditions self -> dict_keys out = text_conditions self) /\
  (out0 = [] -> samples <> [] -> dict_keys out = text_conditions self).
Proof.
  induction samples as [|sample samples IH]; intros out0 out Hnd Hrun; simpl in Hrun.
  - injection Hrun as <-. split; [auto | intros _ Hne; contradiction].
  - destruct (for_each (text_conditions self) _ out0) as [out1|] eqn:E1; [|discriminate].
    simpl in Hrun.
    destruct (collate_text_sample_keys E1) as [Hold Hnew].
    destruct (IH out1 out Hnd Hrun) as [IHkeep _]. split.
    + intros Hk. apply IHkeep. rewrite Hold; [exact Hk|]. rewrite Hk. apply incl_refl.
    + intros -> _. apply IHkeep. rewrite Hnew; [reflexivity | exact Hnd |].
      intros c _ [].
Qed.

(** [_collate_text] raises nothing but the [KeyError] of an example that
    lacks a registered text attribute. *)
Lemma collate_text_sample_Raise (text : pydict TextCondition) conditions :
  forall (out : pydict (list TextCondition)) e,
    for_each conditions (fun out condition =>
        v <- dict_item text condition ;; Ok (dd_append out condition v)) out
      = Raise e ->
    exists k, e = KeyError k /\ In k conditions /\ dict_get text k = None.
Proof.
  induction conditions as [|c0 conditions IH]; intros out e Hrun; simpl in Hrun;
    [discriminate|].
  unfold dict_item in Hrun.
  destruct (dict_get text c0) as [v0|] eqn:E0; simpl in Hrun.
  - destruct (IH _ e Hrun) as (k & -> & Hk & Hnone). exists k. simpl. auto.
  - injection Hrun as <-. exists c0. simpl. auto.
Qed.

Lemma collate_text_Raise self samples : forall out0 e,
  for_each (map (@ConditionAttributes.text R) samples)
    (fun out text =>
       for_each (text_conditions self) (fun out condition =>
         v <- dict_item text condition ;; Ok (dd_append out condition v)) out)
    out0 = Raise e ->
  exists k sample,
    e = KeyError k /\ In k (text_conditions self) /\ In sample samples /\
    dict_get (ConditionAttributes.text sample) k = None.
Proof.
  induction samples as [|sample samples IH]; intros out0 e Hrun; simpl in Hrun;
    [discriminate|].
  destruct (for_each (text_conditions self) _ out0) as [out1|e1] eqn:E1; simpl in Hrun.
  - destruct (IH out1 e Hrun) as (k & s & -> & Hk & Hs & Hnone).
    exists k, s. simpl. auto.
  - injection Hrun as <-.
    destruct (collate_text_sample_Raise E1) as (k & -> & Hk & Hnone).
    exists k, sample. simpl. auto.
Qed.

(** X7.  Text collation either returns, for every registered text
    attribute, the values of the examples in batch order, under the
    registered text attributes as keys, in the order of the registry
    (and nothing at all for an empty batch); or it raises the
    [KeyError] of a registered text attribute that an example lacks. *)
Theorem collate_text_spec self samples :
  List.NoDup (dict_keys (conditioners self)) ->
  match _collate_text self samples with
  | Ok out =>
      (forall c, In c (text_conditions self) ->
         exists vs,
           Forall2 (fun sample v =>
                      dict_get (ConditionAttributes.text sample) c = Some v)
             samples vs /\
           dd_get out c = vs) /\
      (samples <> [] -> dict_keys out = text_conditions self) /\
      (samples = [] -> out = [])
  | Raise e =>
      exists k sample,
        e = KeyError k /\ In k (text_conditions self) /\ In sample samples /\
        dict_get (ConditionAttributes.text sample) k = None
  end.
Proof.
  intros Hnd. apply (names_of_NoDup TextFamily) in Hnd.
  fold (text_conditions self) in Hnd.
  unfold _collate_text.
  destruct (for_each _ _ _) as [out|e] eqn:Hrun.
  - split; [|split].
    + intros c Hc. destruct (collate_text_Ok Hnd Hrun Hc) as (vs & Hall & Hout).
      exists vs. split; [exact Hall | exact Hout].
    + intros Hne. now apply (collate_text_keys_exact Hnd Hrun).
    + intros ->. simpl in Hrun. now injection Hrun as <-.
  - exact (collate_text_Raise Hrun).
Qed.

(** ** [prepare] *)

Lemma names_of_get f self name :
  List.NoDup (dict_keys (conditioners self)) ->
  In name (names_of f self) <->
  exists c, dict_get (conditioners self) name = Some c /\ family c = f.
Proof.
  unfold names_of, dict_keys. generalize (conditioners self) as l.
  induction l as [|[k c] l IH]; simpl; intros Hnd.
  - split; [intros [] | intros (c & Hc & _); discriminate].
  - apply List.NoDup_cons_iff in Hnd as [Hk Hnd]. specialize (IH Hnd).
    destruct (String.eqb_spec name k) as [->|Hne].
    + split.
      * intros Hin. exists c. split; [reflexivity|].
        destruct (Family_eqb (family c) f) eqn:Ef.
        -- destruct (family c), f; simpl in Ef; congruence.
        -- exfalso. apply Hk. apply IH in Hin as (c' & Hc' & _).
           now apply dict_get_In_keys in Hc'.
      * intros (c' & [= <-] & Hf). subst f.
        replace (Family_eqb (family c) (family c)) with true
          by (destruct (family c); reflexivity).
        now left.
    + rewrite <- IH. destruct (Family_eqb (family c) f); simpl; [|reflexivity].
      split; [intros [->|Hin]; [contradiction | exact Hin] | now right].
Qed.

Lemma families_disjoint self name :
  List.NoDup (dict_keys (conditioners self)) ->
  In name (text_conditions self) -> ~ In name (wav_conditions self).
Proof.
  intros Hnd Ht Hw.
  apply (names_of_get TextFamily name Hnd) in Ht as (c & Hc & Hf).
  apply (names_of_get WaveformFamily name Hnd) in Hw as (c' & Hc' & Hf').
  congruence.
Qed.

Lemma families_apart self :
  List.NoDup (dict_keys (conditioners self)) ->
  List.NoDup (text_conditions self ++ wav_conditions self).
Proof.
  intros Hnd. apply List.NoDup_app.
  - now apply names_of_NoDup.
  - now apply names_of_NoDup.
  - intros name. now apply families_disjoint.
Qed.

Lemma stack_all_keys acc attributes : forall out out',
  List.NoDup attributes ->
  (forall a, In a attributes -> ~ In a (dict_keys out)) ->
  for_each attributes (stack_wav stack_and_pad_audio acc) out = Ok out' ->
  dict_keys out' = dict_keys out ++ attributes.
Proof.
  induction attributes as [|a0 attributes IH]; intros out out' Hnd Hfresh Hrun;
    simpl in Hrun.
  - injection Hrun as <-. now rewrite app_nil_r.
  - apply List.NoDup_cons_iff in Hnd as [Hnotin Hnd].
    destruct (stack_wav stack_and_pad_audio acc out a0) as [out1|] eqn:E1; [|discriminate].
    simpl in Hrun. destruct (stack_wav_Ok E1) as (sr & stacked & _ & _ & ->).
    apply (IH _ out' Hnd) in Hrun.
    + rewrite Hrun, dict_keys_set_new by (apply Hfresh; now left).
      now rewrite <- app_assoc.
    + intros a Ha. rewrite dict_keys_set_new by (apply Hfresh; now left).
      intros Hin. apply in_app_or in Hin as [Hin|[<-|[]]].
      * apply (Hfresh a); [now right | exact Hin].
      * contradiction.
Qed.

Lemma collate_wavs_keys_exact self samples wavs :
  List.NoDup (dict_keys (conditioners self)) ->
  _collate_wavs stack_and_pad_audio self samples = Ok wavs ->
  dict_keys wavs = wav_conditions self.
Proof.
  intros Hnd. unfold _collate_wavs.
  destruct (for_each samples _ _) as [acc|]; [|discriminate]. simpl. intros Hrun.
  apply stack_all_keys in Hrun; [exact Hrun | now apply names_of_NoDup | intros a _ []].
Qed.

(** The last loop of [prepare]. *)
Lemma prepare_each self (items : list (string * RawBatch R)) :
  forall output0 output : pydict Prepared,
    List.NoDup (map fst items) ->
    (forall k, In k (map fst items) -> ~ In k (dict_keys output0)) ->
    for_each items
      (fun output ab =>
         c <- dict_item (conditioners self) (fst ab) ;;
         pr <- prepare_input c (snd ab) ;;
         Ok (dict_set output (fst ab) pr))
      output0 = Ok output ->
    dict_keys output = dict_keys output0 ++ map fst items /\
    (forall k batch, In (k, batch) items ->
       exists c pr,
         dict_get (conditioners self) k = Some c /\
         prepare_input c batch = Ok pr /\
         dict_get output k = Some pr) /\
    (forall k, ~ In k (map fst items) -> dict_get output k = dict_get output0 k).
Proof.
  induction items as [|[k0 b0] items IH]; intros output0 output Hnd Hfresh Hrun;
    simpl in Hrun.
  - injection Hrun as <-. rewrite app_nil_r.
    split; [reflexivity|]. split; [intros ? ? [] | reflexivity].
  - simpl in Hnd. apply List.NoDup_cons_iff in Hnd as [Hnotin Hnd].
    destruct (dict_item (conditioners self) k0) as [c0|] eqn:Ec; [|discriminate].
    cbn [rbind] in Hrun. unfold dict_item in Ec.
    destruct (dict_get (conditioners self) k0) as [c0'|] eqn:Ec'; [|discriminate].
    injection Ec as ->. rename Ec' into Ec.
    destruct (prepare_input c0 b0) as [pr0|] eqn:Ep; [|discriminate].
    cbn [rbind] in Hrun.
    assert (Hk0 : dict_keys (dict_set output0 k0 pr0) = dict_keys output0 ++ [k0]).
    { apply dict_keys_set_new. apply Hfresh. now left. }
    destruct (IH (dict_set output0 k0 pr0) output Hnd) as (Hkeys & Hitems & Hothers);
      [|exact Hrun|].
    { intros k Hk. rewrite Hk0. intros Hin. apply in_app_or in Hin as [Hin|[<-|[]]].
      - apply (Hfresh k); [now right | exact Hin].
      - contradiction. }
    split; [|split].
    + rewrite Hkeys, Hk0, <- app_assoc. reflexivity.
    + intros k batch [[= <- <-]|Hin].
      * exists c0, pr0. split; [exact Ec|]. split; [exact Ep|].
        rewrite Hothers by exact Hnotin. apply dict_get_set_eq.
      * now apply Hitems.
    + intros k Hk. rewrite Hothers by (intros Hin; apply Hk; now right).
      apply dict_get_set_ne. intros ->. apply Hk. now left.
Qed.

Lemma collated_items_keys (text : pydict (list TextCondition))
    (wavs : pydict (WavCondition.t R)) :
  map fst (map (fun kv => (fst kv, TextBatch (R := R) (snd kv))) text
           ++ map (fun kv => (fst kv, WavBatch (snd kv))) wavs)
  = dict_keys text ++ dict_keys wavs.
Proof.
  unfold dict_keys. rewrite map_app, !map_map. reflexivity.
Qed.

Lemma nothing_missing (registered fed : list string) :
  List.filter (fun k => negb (str_in k fed)) registered = [] ->
  incl registered fed.
Proof.
  induction registered as [|k registered IH]; simpl; intros Hm x Hx; [destruct Hx|].
  destruct (str_in k fed) eqn:Ek; simpl in Hm; [|discriminate].
  destruct Hx as [<-|Hx]; [now apply str_in_In | now apply IH].
Qed.

Lemma dict_get_In {V} (d : pydict V) k v :
  List.NoDup (dict_keys d) -> In (k, v) d -> dict_get d k = Some v.
Proof.
  induction d as [|[k' v'] d IH]; simpl; intros Hnd Hin; [destruct Hin|].
  apply List.NoDup_cons_iff in Hnd as [Hk Hnd].
  destruct Hin as [[= -> ->]|Hin].
  - now rewrite String.eqb_refl.
  - destruct (String.eqb_spec k k') as [->|_]; [|now apply IH].
    exfalso. apply Hk. apply in_map_iff. now exists (k', v).
Qed.

Lemma dict_get_In_items {V} (d : pydict V) k v : dict_get d k = Some v -> In (k, v) d.
Proof.
  induction d as [|[k' v'] d IH]; simpl; [discriminate|].
  destruct (String.eqb_spec k k') as [->|_].
  - intros [= ->]. now left.
  - intros Hg. right. now apply IH.
Qed.

(** X8.  When [prepare] returns, its result has one entry for every
    registered conditioner and no other entry, the text conditioners
    first; every registered conditioner is a text or a waveform
    conditioner, and its entry is what its own [prepare] made of the
    collated texts, or of the collated waveform, of its attribute. *)
Theorem prepare_returns self inputs output :
  List.NoDup (dict_keys (conditioners self)) ->
  prepare stack_and_pad_audio self inputs = Ok output ->
  exists text wavs,
    _collate_text self inputs = Ok text /\
    _collate_wavs stack_and_pad_audio self inputs = Ok wavs /\
    dict_keys output = text_conditions self ++ wav_conditions self /\
    (forall name, In name (dict_keys (conditioners self)) <-> In name (dict_keys output)) /\
    (forall name c, dict_get (conditioners self) name = Some c ->
       (family c = TextFamily /\
        exists pr, prepare_input c (TextBatch (dd_get text name)) = Ok pr /\
                   dict_get output name = Some pr) \/
       (family c = WaveformFamily /\
        exists w pr, dict_get wavs name = Some w /\
                     prepare_input c (WavBatch w) = Ok pr /\
                     dict_get output name = Some pr)).
Proof.
  intros Hnd Hrun. unfold prepare in Hrun.
  destruct (_collate_text self inputs) as [text|] eqn:Et; [|discriminate].
  destruct (_collate_wavs stack_and_pad_audio self inputs) as [wavs|] eqn:Ew;
    [|discriminate].
  cbn [rbind] in Hrun.
  destruct (forallb _ (dict_keys text ++ dict_keys wavs)); [|discriminate].
  destruct (List.filter _ (dict_keys (conditioners self))) eqn:Em; [|discriminate].
  apply nothing_missing in Em.
  pose proof (collate_wavs_keys_exact Hnd Ew) as Hwk.
  pose proof (collate_text_spec inputs Hnd) as Hts. rewrite Et in Hts.
  destruct Hts as (Hvals & Hfull & Hnone).
  assert (Htk : dict_keys text = text_conditions self).
  { destruct inputs as [|input inputs]; [|now apply Hfull].
    rewrite (Hnone eq_refl). simpl.
    destruct (text_conditions self) as [|name names] eqn:En; [reflexivity|].
    exfalso.
    assert (Hin : In name (text_conditions self)) by (rewrite En; now left).
    pose proof Hin as Hreg. apply (@names_of_registered _ _ TextFamily _) in Hreg.
    apply Em in Hreg. rewrite (Hnone eq_refl), Hwk in Hreg. simpl in Hreg.
    exact (families_disjoint Hnd Hin Hreg). }
  pose proof (families_apart Hnd) as Hap. rewrite <- Htk, <- Hwk in Hap.
  apply prepare_each in Hrun; [|now rewrite collated_items_keys | intros k _ []].
  destruct Hrun as (Hkeys & Hitems & _). rewrite collated_items_keys in Hkeys.
  simpl in Hkeys.
  exists text, wavs. split; [reflexivity|]. split; [reflexivity|].
  split; [now rewrite Hkeys, Htk, Hwk|]. split.
  - intros name. rewrite Hkeys. split; [apply Em|].
    rewrite Htk, Hwk. intros Hin. apply in_app_or in Hin as [Hin|Hin];
      eapply names_of_registered; exact Hin.
  - intros name c Hc.
    assert (Hin : In name (dict_keys text ++ dict_keys wavs)).
    { apply Em. now apply dict_get_In_keys in Hc. }
    apply in_app_or in Hin as [Hin|Hin].
    + left. pose proof Hin as Hfam. rewrite Htk in Hfam.
      apply (names_of_get TextFamily name Hnd) in Hfam as (c' & Hc' & Hf).
      rewrite Hc in Hc'. injection Hc' as <-. split; [exact Hf|].
      apply In_keys_dict_get in Hin as (vs & Hvs).
      destruct (Hitems name (TextBatch vs)) as (c' & pr & Hc' & Hp & Hout).
      { apply in_or_app. left. apply in_map_iff. exists (name, vs).
        split; [reflexivity | now apply dict_get_In_items]. }
      rewrite Hc in Hc'. injection Hc' as <-. exists pr. unfold dd_get. rewrite Hvs.
      split; assumption.
    + right. pose proof Hin as Hfam. rewrite Hwk in Hfam.
      apply (names_of_get WaveformFamily name Hnd) in Hfam as (c' & Hc' & Hf).
      rewrite Hc in Hc'. injection Hc' as <-. split; [exact Hf|].
      apply In_keys_dict_get in Hin as (w & Hw).
      destruct (Hitems name (WavBatch w)) as (c' & pr & Hc' & Hp & Hout).
      { apply in_or_app. right. apply in_map_iff. exists (name, w).
        split; [reflexivity | now apply dict_get_In_items]. }
      rewrite Hc in Hc'. injection Hc' as <-. exists w, pr. auto.
Qed.

(** X9.  With a registered conditioner that is neither a text nor a
    waveform conditioner, [prepare] raises on every batch: when both
    collations succeed, this conditioner is among those that "did not
    receive an input". *)
Theorem prepare_other_family self inputs name c :
  List.NoDup (dict_keys (conditioners self)) ->
  dict_get (conditioners self) name = Some c ->
  family c = OtherFamily ->
  exists e,
    prepare stack_and_pad_audio self inputs = Raise e /\
    (forall text wavs,
        _collate_text self inputs = Ok text ->
        _collate_wavs stack_and_pad_audio self inputs = Ok wavs ->
        exists names, e = MissingInputs names /\ In name names).
Proof.
  intros Hnd Hc Hf.
  destruct (prepare stack_and_pad_audio self inputs) as [output|e] eqn:Hrun.
  - exfalso. destruct (prepare_returns Hnd Hrun) as (text & wavs & _ & _ & _ & _ & Hfam).
    destruct (Hfam name c Hc) as [[Hf' _]|[Hf' _]]; congruence.
  - exists e. split; [reflexivity|]. intros text wavs Et Ew.
    unfold prepare in Hrun. rewrite Et, Ew in Hrun. cbn [rbind] in Hrun.
    rewrite (unexpected_attribute_check_passes Et Ew) in Hrun.
    destruct (List.filter _ (dict_keys (conditioners self))) as [|n names] eqn:Em.
    + exfalso. apply nothing_missing in Em.
      assert (Hin : In name (dict_keys text ++ dict_keys wavs)).
      { apply Em. now apply dict_get_In_keys in Hc. }
      rewrite (collate_wavs_keys_exact Hnd Ew) in Hin.
      apply in_app_or in Hin as [Hin|Hin].
      * pose proof (collate_text_spec inputs Hnd) as Hts. rewrite Et in Hts.
        destruct Hts as (_ & Hfull & Hnone).
        destruct inputs as [|input inputs].
        -- rewrite (Hnone eq_refl) in Hin. destruct Hin.
        -- rewrite Hfull in Hin by discriminate.
           apply (names_of_get TextFamily name Hnd) in Hin as (c' & Hc' & Hf').
           congruence.
      * apply (names_of_get WaveformFamily name Hnd) in Hin as (c' & Hc' & Hf').
        congruence.
    + injection Hrun as <-. eexists. split; [reflexivity|]. rewrite <- Em.
      apply filter_In. split; [now apply dict_get_In_keys in Hc|].
      apply negb_true_iff. apply not_true_iff_false. intros Hin.
      apply str_in_In in Hin.
      rewrite (collate_wavs_keys_exact Hnd Ew) in Hin.
      apply in_app_or in Hin as [Hin|Hin].
      * pose proof (collate_text_spec inputs Hnd) as Hts. rewrite Et in Hts.
        destruct Hts as (_ & Hfull & Hnone).
        destruct inputs as [|input inputs].
        -- rewrite (Hnone eq_refl) in Hin. destruct Hin.
        -- rewrite Hfull in Hin by discriminate.
           apply (names_of_get TextFamily name Hnd) in Hin as (c' & Hc' & Hf').
           congruence.
      * apply (names_of_get WaveformFamily name Hnd) in Hin as (c' & Hc' & Hf').
        congruence.
Qed.
End TextCollation.

(** * The attribute dropout, decision by decision *)

Section GateFacts.
Context `{Scalar R}.
Variable self : AttributeDropout.t.
Variable draws : nat -> Q.

Local Abbreviation CA := (ConditionAttributes.t R).

Lemma gate_keys {V} (null : V -> V) (d : pydict V) : forall n,
  dict_keys (fst (gate self draws null d n)) = dict_keys d.
Proof.
  induction d as [|[k v] d IH]; intros n; simpl; [reflexivity|].
  destruct (AttributeDropout.dropouts self !! k); simpl; now rewrite IH.
Qed.

Lemma gate_Forall {V} (P : V -> Prop) (null : V -> V) (d : pydict V) : forall n,
  (forall v, P v -> P (null v)) ->
  Forall (fun kv => P (snd kv)) d ->
  Forall (fun kv => P (snd kv)) (fst (gate self draws null d n)).
Proof.
  intros n Hnull Hd. revert n.
  induction Hd as [|[k v] d Hv Hd IH]; intros n; simpl; [constructor|].
  destruct (AttributeDropout.dropouts self !! k); simpl; constructor; auto.
  simpl. destruct (Qltb _ _); auto.
Qed.

Lemma gate_count {V} (null : V -> V) (d : pydict V) : forall n,
  snd (gate self draws null d n)
  = n + List.length (List.filter (configured self) (dict_keys d)).
Proof.
  induction d as [|[k v] d IH]; intros n; simpl; [lia|].
  unfold configured at 1.
  destruct (AttributeDropout.dropouts self !! k); simpl; rewrite IH; lia.
Qed.

(** Every entry is kept or nullified, and only a configured one is
    nullified. *)
Lemma gate_get {V} (null : V -> V) (d : pydict V) k v : forall n,
  dict_get d k = Some v ->
  dict_get (fst (gate self draws null d n)) k = Some v \/
  configured self k = true /\
  dict_get (fst (gate self draws null d n)) k = Some (null v).
Proof.
  induction d as [|[k0 v0] d IH]; intros n; simpl; [discriminate|].
  destruct (String.eqb_spec k k0) as [->|Hne].
  - intros [= ->]. unfold configured.
    destruct (AttributeDropout.dropouts self !! k0); simpl;
      rewrite String.eqb_refl; [|now left].
    destruct (Qltb _ _); [right | left]; auto.
  - intros Hk. apply String.eqb_neq in Hne.
    destruct (AttributeDropout.dropouts self !! k0); simpl; rewrite Hne; apply IH;
      exact Hk.
Qed.

Lemma gate_always {V} (null : V -> V) (d : pydict V) : forall n,
  (forall k p m, AttributeDropout.dropouts self !! k = Some p ->
                 Qltb (draws m) p = true) ->
  fst (gate self draws null d n)
  = map (fun kv => (fst kv, if configured self (fst kv) then null (snd kv)
                            else snd kv)) d.
Proof.
  intros n Hp. revert n.
  induction d as [|[k v] d IH]; intros n; simpl; [reflexivity|].
  unfold configured at 1.
  destruct (AttributeDropout.dropouts self !! k) as [p|] eqn:Ek; simpl.
  - now rewrite (Hp k p n Ek), IH.
  - now rewrite IH.
Qed.

Lemma gate_never {V} (null : V -> V) (d : pydict V) : forall n,
  (forall k p m, AttributeDropout.dropouts self !! k = Some p ->
                 Qltb (draws m) p = false) ->
  fst (gate self draws null d n) = d.
Proof.
  intros n Hp. revert n.
  induction d as [|[k v] d IH]; intros n; simpl; [reflexivity|].
  destruct (AttributeDropout.dropouts self !! k) as [p|] eqn:Ek; simpl.
  - now rewrite (Hp k p n Ek), IH.
  - now rewrite IH.
Qed.

Lemma gate_example_well_formed text_first (ca : CA) n :
  well_formed ca -> well_formed (fst (gate_example self draws text_first ca n)).
Proof.
  intros (Ht & Hw & Hr).
  unfold gate_example, well_formed. destruct text_first; simpl;
    rewrite !gate_keys; (split; [exact Ht|]); (split; [exact Hw|]);
    apply (gate_Forall (P := fun v => ndim (WavCondition.wav v) = 3));
    auto using nullified_rank3.
Qed.

Lemma gate_example_count text_first (ca : CA) n :
  snd (gate_example self draws text_first ca n) = n + configured_count self ca.
Proof.
  unfold gate_example, configured_count.
  destruct text_first; simpl; rewrite !gate_count; lia.
Qed.

Lemma gate_batch_count text_first (cas : list CA) : forall n,
  snd (gate_batch self draws text_first cas n)
  = n + list_sum (map (configured_count self) cas).
Proof.
  induction cas as [|ca cas IH]; intros n; simpl; [lia|].
  rewrite IH, gate_example_count. lia.
Qed.

Lemma gate_batch_each text_first (cas : list CA) : forall n,
  Forall2 (fun ca ca' => exists m, ca' = fst (gate_example self draws text_first ca m))
    cas (fst (gate_batch self draws text_first cas n)).
Proof.
  induction cas as [|ca cas IH]; intros n; simpl; constructor; eauto.
Qed.
End GateFacts.

Section AttributeExact.
Context `{Scalar R}.
Variable text_first : bool.
Variable self : AttributeDropout.t.
Local Open Scope store_scope.

Local Abbreviation CA := (ConditionAttributes.t R).
Implicit Types (s : Store R) (ca : CA) (cas : list CA).

Lemma generator_eta g :
  Generator.make (Generator.draws g) (Generator.consumed g) = g.
Proof. now destruct g. Qed.

Lemma dict_set_middle {V} (pre d : pydict V) k v v' :
  ~ In k (dict_keys pre) ->
  dict_set (pre ++ (k, v) :: d) k v' = pre ++ (k, v') :: d.
Proof.
  induction pre as [|[k0 v0] pre IH]; simpl; intros Hk.
  - now rewrite String.eqb_refl.
  - destruct (String.eqb_spec k k0) as [->|_]; [exfalso; apply Hk; now left|].
    f_equal. apply IH. tauto.
Qed.

Lemma dict_get_middle {V} (pre d : pydict V) k v :
  ~ In k (dict_keys pre) -> dict_get (pre ++ (k, v) :: d) k = Some v.
Proof.
  induction pre as [|[k0 v0] pre IH]; simpl; intros Hk.
  - now rewrite String.eqb_refl.
  - destruct (String.eqb_spec k k0) as [->|_]; [exfalso; apply Hk; now left|].
    apply IH. tauto.
Qed.

Lemma middle_key_fresh {V} (pre d : pydict V) k v :
  List.NoDup (dict_keys (pre ++ (k, v) :: d)) -> ~ In k (dict_keys pre).
Proof.
  unfold dict_keys. rewrite map_app. simpl. intros Hnd Hin.
  apply List.NoDup_remove_2 in Hnd. apply Hnd. apply in_or_app. now left.
Qed.

Lemma middle_shift {V} (pre d : pydict V) kv : (pre ++ [kv]) ++ d = pre ++ kv :: d.
Proof. now rewrite <- app_assoc. Qed.

(** One turn of the innermost loop, on an entry of the text dictionary
    and on one of the wav dictionary. *)
Lemma gated_drop_text s l t w pre k v d wd :
  holds s l t w (ConditionAttributes.make (pre ++ (k, v) :: d) wd) ->
  List.NoDup (dict_keys (pre ++ (k, v) :: d)) ->
  let r := gate self (Generator.draws (rng s)) (fun _ => None) [(k, v)]
             (Generator.consumed (rng s)) in
  gated_drop text_first self l "text" k s
  = Ok (tt, put s t w (ConditionAttributes.make (pre ++ fst r ++ d) wd)
              (Generator.make (Generator.draws (rng s)) (snd r))).
Proof.
  intros Hh Hnd. pose proof (middle_key_fresh Hnd) as Hfresh.
  unfold gated_drop. cbn [gate].
  destruct (AttributeDropout.dropouts self !! k) as [p|]; cbn [fst snd app].
  2:{ unfold ret. now rewrite generator_eta, (put_same Hh). }
  unfold sbind, rand. cbn [Generator.rand].
  set (g1 := Generator.make _ _).
  rewrite (put_generator g1 Hh).
  destruct (Qltb _ p); [|reflexivity].
  pose proof (@holds_put R s l t w _ (ConditionAttributes.make (pre ++ (k, v) :: d) wd)
                g1 Hh) as Hh1.
  rewrite (drop_text text_first (k := k) Hh1).
  - rewrite put_put. simpl. now rewrite dict_set_middle.
  - simpl. unfold dict_keys. rewrite map_app. apply in_or_app. right. now left.
Qed.

Lemma gated_drop_wav s l t w pre k v d td :
  holds s l t w (ConditionAttributes.make td (pre ++ (k, v) :: d)) ->
  List.NoDup (dict_keys (pre ++ (k, v) :: d)) ->
  ndim (WavCondition.wav v) = 3 ->
  let r := gate self (Generator.draws (rng s)) (@nullified R _) [(k, v)]
             (Generator.consumed (rng s)) in
  gated_drop text_first self l "wav" k s
  = Ok (tt, put s t w (ConditionAttributes.make td (pre ++ fst r ++ d))
              (Generator.make (Generator.draws (rng s)) (snd r))).
Proof.
  intros Hh Hnd Hr3. pose proof (middle_key_fresh Hnd) as Hfresh.
  unfold gated_drop. cbn [gate].
  destruct (AttributeDropout.dropouts self !! k) as [p|]; cbn [fst snd app].
  2:{ unfold ret. now rewrite generator_eta, (put_same Hh). }
  unfold sbind, rand. cbn [Generator.rand].
  set (g1 := Generator.make _ _).
  rewrite (put_generator g1 Hh).
  destruct (Qltb _ p); [|reflexivity].
  pose proof (@holds_put R s l t w _ (ConditionAttributes.make td (pre ++ (k, v) :: d))
                g1 Hh) as Hh1.
  rewrite (drop_wav text_first (k := k) (wc := v) Hh1).
  - rewrite put_put. simpl. now rewrite dict_set_middle.
  - simpl. now apply dict_get_middle.
  - exact Hr3.
Qed.

Lemma gate_cons {V} draws (null : V -> V) kv (d : pydict V) n :
  gate self draws null (kv :: d) n
  = (fst (gate self draws null [kv] n)
       ++ fst (gate self draws null d (snd (gate self draws null [kv] n))),
     snd (gate self draws null d (snd (gate self draws null [kv] n)))).
Proof.
  destruct kv as [k v]. simpl.
  destruct (AttributeDropout.dropouts self !! k); reflexivity.
Qed.

Lemma gate_one_keys {V} draws (null : V -> V) k v n :
  exists v', fst (gate self draws null [(k, v)] n) = [(k, v')] /\
             (v' = v \/ v' = null v).
Proof.
  simpl. destruct (AttributeDropout.dropouts self !! k); simpl.
  - destruct (Qltb _ _); eauto.
  - eauto.
Qed.

(** The loop over the keys of one dictionary. *)
Lemma gated_text_loop d : forall pre s l t w wd,
  holds s l t w (ConditionAttributes.make (pre ++ d) wd) ->
  List.NoDup (dict_keys (pre ++ d)) ->
  let r := gate self (Generator.draws (rng s)) (fun _ => None) d
             (Generator.consumed (rng s)) in
  for_ (dict_keys d) (gated_drop text_first self l "text") s
  = Ok (tt, put s t w (ConditionAttributes.make (pre ++ fst r) wd)
              (Generator.make (Generator.draws (rng s)) (snd r))).
Proof.
  induction d as [|[k v] d IH]; intros pre s l t w wd Hh Hnd r.
  - subst r. simpl. unfold ret. rewrite generator_eta, app_nil_r.
    rewrite app_nil_r in Hh. now rewrite (put_same Hh).
  - subst r. cbn [dict_keys map fst for_]. unfold sbind.
    rewrite (gated_drop_text Hh Hnd). cbv zeta.
    rewrite (@gate_cons _ _ _ (k, v) d). cbn [fst snd].
    destruct (gate_one_keys (Generator.draws (rng s)) (fun _ : TextCondition => None)
                k v (Generator.consumed (rng s))) as (v' & Hone & _).
    rewrite Hone. cbn [app].
    set (n1 := snd (gate self (Generator.draws (rng s)) (fun _ => None) [(k, v)]
                      (Generator.consumed (rng s)))).
    set (s1 := put s t w (ConditionAttributes.make (pre ++ (k, v') :: d) wd)
                 (Generator.make (Generator.draws (rng s)) n1)).
    assert (Hh1 : holds s1 l t w (ConditionAttributes.make ((pre ++ [(k, v')]) ++ d) wd)).
    { rewrite middle_shift. eapply holds_put. exact Hh. }
    assert (Hnd1 : List.NoDup (dict_keys ((pre ++ [(k, v')]) ++ d))).
    { rewrite middle_shift. unfold dict_keys in *. rewrite map_app in *. exact Hnd. }
    change (for_ (map fst d) (gated_drop text_first self l "text") s1)
      with (for_ (dict_keys d) (gated_drop text_first self l "text") s1).
    rewrite (IH _ _ _ _ _ _ Hh1 Hnd1). cbv zeta.
    unfold s1. rewrite put_put. simpl. now rewrite middle_shift.
Qed.

Lemma gated_wav_loop d : forall pre s l t w td,
  holds s l t w (ConditionAttributes.make td (pre ++ d)) ->
  List.NoDup (dict_keys (pre ++ d)) ->
  Forall (fun kv => ndim (WavCondition.wav (snd kv)) = 3) d ->
  let r := gate self (Generator.draws (rng s)) (@nullified R _) d
             (Generator.consumed (rng s)) in
  for_ (dict_keys d) (gated_drop text_first self l "wav") s
  = Ok (tt, put s t w (ConditionAttributes.make td (pre ++ fst r))
              (Generator.make (Generator.draws (rng s)) (snd r))).
Proof.
  induction d as [|[k v] d IH]; intros pre s l t w td Hh Hnd Hr3 r.
  - subst r. simpl. unfold ret. rewrite generator_eta, app_nil_r.
    rewrite app_nil_r in Hh. now rewrite (put_same Hh).
  - subst r. cbn [dict_keys map fst for_]. unfold sbind.
    apply List.Forall_cons_iff in Hr3 as [Hv Hr3]. simpl in Hv.
    rewrite (gated_drop_wav Hh Hnd Hv). cbv zeta.
    rewrite (@gate_cons _ _ _ (k, v) d). cbn [fst snd].
    destruct (gate_one_keys (Generator.draws (rng s)) (@nullified R _)
                k v (Generator.consumed (rng s))) as (v' & Hone & _).
    rewrite Hone. cbn [app].
    set (n1 := snd (gate self (Generator.draws (rng s)) (@nullified R _) [(k, v)]
                      (Generator.consumed (rng s)))).
    set (s1 := put s t w (ConditionAttributes.make td (pre ++ (k, v') :: d))
                 (Generator.make (Generator.draws (rng s)) n1)).
    assert (Hh1 : holds s1 l t w (ConditionAttributes.make td ((pre ++ [(k, v')]) ++ d))).
    { rewrite middle_shift. eapply holds_put. exact Hh. }
    assert (Hnd1 : List.NoDup (dict_keys ((pre ++ [(k, v')]) ++ d))).
    { rewrite middle_shift. unfold dict_keys in *. rewrite map_app in *. exact Hnd. }
    change (for_ (map fst d) (gated_drop text_first self l "wav") s1)
      with (for_ (dict_keys d) (gated_drop text_first self l "wav") s1).
    rewrite (IH _ _ _ _ _ _ Hh1 Hnd1 Hr3). cbv zeta.
    unfold s1. rewrite put_put. simpl. now rewrite middle_shift.
Qed.

(** One example: the two passes, in the order of the condition types. *)
Lemma gated_pass_text s l t w ca :
  holds s l t w ca -> well_formed ca ->
  let r := gate self (Generator.draws (rng s)) (fun _ => None)
             (ConditionAttributes.text ca) (Generator.consumed (rng s)) in
  gated_pass text_first self l "text" s
  = Ok (tt, put s t w (ConditionAttributes.make (fst r) (ConditionAttributes.wav ca))
              (Generator.make (Generator.draws (rng s)) (snd r))).
Proof.
  intros Hh (Ht & _) r. unfold gated_pass, sbind.
  rewrite (attribute_keys_text Hh). destruct ca as [td wd]; simpl in *.
  exact (gated_text_loop (pre := []) Hh Ht).
Qed.

Lemma gated_pass_wav s l t w ca :
  holds s l t w ca -> well_formed ca ->
  let r := gate self (Generator.draws (rng s)) (@nullified R _)
             (ConditionAttributes.wav ca) (Generator.consumed (rng s)) in
  gated_pass text_first self l "wav" s
  = Ok (tt, put s t w (ConditionAttributes.make (ConditionAttributes.text ca) (fst r))
              (Generator.make (Generator.draws (rng s)) (snd r))).
Proof.
  intros Hh (_ & Hw & Hr3) r. unfold gated_pass, sbind.
  rewrite (attribute_keys_wav Hh). destruct ca as [td wd]; simpl in *.
  exact (gated_wav_loop (pre := []) Hh Hw Hr3).
Qed.

Lemma gated_types_exact s l t w ca :
  holds s l t w ca -> well_formed ca ->
  let r := gate_example self (Generator.draws (rng s)) text_first ca
             (Generator.consumed (rng s)) in
  for_ (ConditionAttributes.condition_types text_first)
    (gated_pass text_first self l) s
  = Ok (tt, put s t w (fst r) (Generator.make (Generator.draws (rng s)) (snd r))).
Proof.
  intros Hh Hwf r. subst r.
  pose proof Hwf as (Ht & Hw & Hr3).
  assert (Htw : for_ ["text"; "wav"] (gated_pass text_first self l) s
                = Ok (tt, put s t w
                            (fst (gate_example self (Generator.draws (rng s)) true ca
                                    (Generator.consumed (rng s))))
                            (Generator.make (Generator.draws (rng s))
                               (snd (gate_example self (Generator.draws (rng s)) true ca
                                       (Generator.consumed (rng s))))))).
  { cbn [for_]. unfold sbind, gate_example.
    rewrite (gated_pass_text Hh Hwf). cbv zeta.
    set (rt := gate self (Generator.draws (rng s)) (fun _ => None)
                 (ConditionAttributes.text ca) (Generator.consumed (rng s))).
    set (ca1 := ConditionAttributes.make (fst rt) (ConditionAttributes.wav ca)).
    set (g1 := Generator.make (Generator.draws (rng s)) (snd rt)).
    assert (Hh1 : holds (put s t w ca1 g1) l t w ca1) by (eapply holds_put; exact Hh).
    assert (Hwf1 : well_formed ca1).
    { split; [|split]; simpl; [|exact Hw|exact Hr3]. unfold rt. now rewrite gate_keys. }
    rewrite (gated_pass_wav Hh1 Hwf1). cbv zeta. unfold ret.
    rewrite put_put. reflexivity. }
  assert (Hwt : for_ ["wav"; "text"] (gated_pass text_first self l) s
                = Ok (tt, put s t w
                            (fst (gate_example self (Generator.draws (rng s)) false ca
                                    (Generator.consumed (rng s))))
                            (Generator.make (Generator.draws (rng s))
                               (snd (gate_example self (Generator.draws (rng s)) false ca
                                       (Generator.consumed (rng s))))))).
  { cbn [for_]. unfold sbind, gate_example.
    rewrite (gated_pass_wav Hh Hwf). cbv zeta.
    set (rw := gate self (Generator.draws (rng s)) (@nullified R _)
                 (ConditionAttributes.wav ca) (Generator.consumed (rng s))).
    set (ca1 := ConditionAttributes.make (ConditionAttributes.text ca) (fst rw)).
    set (g1 := Generator.make (Generator.draws (rng s)) (snd rw)).
    assert (Hh1 : holds (put s t w ca1 g1) l t w ca1) by (eapply holds_put; exact Hh).
    assert (Hwf1 : well_formed ca1).
    { split; [|split]; simpl; [exact Ht| |].
      - unfold rw. now rewrite gate_keys.
      - apply gate_Forall with (P := fun v => ndim (WavCondition.wav v) = 3);
          auto using nullified_rank3. }
    rewrite (gated_pass_text Hh1 Hwf1). cbv zeta. unfold ret.
    rewrite put_put. reflexivity. }
  destruct text_first; [exact Htw | exact Hwt].
Qed.

(** The batch: its examples in order. *)
Lemma gated_batch_exact ls : forall tws cas s,
  placed s ls tws cas ->
  List.NoDup (map fst tws) -> List.NoDup (map snd tws) ->
  let r := gate_batch self (Generator.draws (rng s)) text_first cas
             (Generator.consumed (rng s)) in
  exists s',
    for_ ls (fun l => for_ (ConditionAttributes.condition_types text_first)
                        (gated_pass text_first self l)) s = Ok (tt, s') /\
    placed s' ls tws (fst r) /\
    rng s' = Generator.make (Generator.draws (rng s)) (snd r) /\
    changes_only tws s s'.
Proof.
  induction ls as [|l ls IH]; intros tws cas s Hp Hnt Hnw r;
    inversion Hp as [|? t w ca ? tws0 cas0 Hh Hwf Hp0]; subst.
  - exists s. simpl. repeat split; try constructor; auto.
    now rewrite generator_eta.
  - simpl in Hnt, Hnw.
    apply List.NoDup_cons_iff in Hnt as [Ht Hnt].
    apply List.NoDup_cons_iff in Hnw as [Hw Hnw].
    pose proof (gated_types_exact Hh Hwf) as Hrun. cbv zeta in Hrun.
    set (r1 := gate_example self (Generator.draws (rng s)) text_first ca
                 (Generator.consumed (rng s))) in *.
    set (g1 := Generator.make (Generator.draws (rng s)) (snd r1)) in *.
    set (s1 := put s t w (fst r1) g1) in *.
    assert (Hp1 : placed s1 ls tws0 cas0).
    { eapply placed_stable; [exact Hp0|reflexivity| |];
        intros x Hx; apply list_lookup_insert_ne; intros ->; contradiction. }
    destruct (IH tws0 cas0 s1 Hp1 Hnt Hnw) as (s' & Hrun' & Hp' & Hg' & Ha & Htx & Hwx).
    exists s'. split; [|split; [|split]].
    + simpl. unfold sbind. now rewrite Hrun.
    + unfold r. cbn [gate_batch fst]. fold r1.
      constructor; [| now apply gate_example_well_formed | exact Hp'].
      pose proof (@holds_put R s l t w ca (fst r1) g1 Hh) as (Hl1 & Ht1 & Hw1).
      fold s1 in Hl1, Ht1, Hw1.
      unfold holds. now rewrite Ha, Htx, Hwx.
    + rewrite Hg'. unfold r. cbn [gate_batch snd]. fold r1. reflexivity.
    + destruct (@changes_only_put R s l t w ca (fst r1) g1 tws0 Hh) as (Ha0 & Htx0 & Hwx0).
      fold s1 in Ha0, Htx0, Hwx0.
      split; [congruence|]. split; intros x Hx.
      * rewrite Htx; [now apply Htx0|]. intros Hc'. apply Hx. now right.
      * rewrite Hwx; [now apply Hwx0|]. intros Hc'. apply Hx. now right.
Qed.

(** What an active call of the attribute dropout computes. *)
Lemma attribute_forward_exact samples cas s :
  Forall2 (fun l ca => read_attrs s l = Some ca /\ well_formed ca) samples cas ->
  negb (AttributeDropout.training self) && negb (AttributeDropout.active_on_eval self)
    = false ->
  let r := gate_batch self (Generator.draws (rng s)) text_first cas
             (Generator.consumed (rng s)) in
  exists out s',
    AttributeDropout.forward text_first self samples s = Ok (out, s') /\
    preserves s s' /\
    rng s' = Generator.make (Generator.draws (rng s)) (snd r) /\
    Forall2 (fun l ca => read_attrs s' l = Some ca) out (fst r).
Proof.
  intros Hall Hact r. unfold AttributeDropout.forward. rewrite Hact.
  destruct (copies Hall) as (ls & tws & s1 & Hrun & Hp1 & Hg1 & Hpl & Hnt & Hnw & Hft & Hfw).
  destruct (gated_batch_exact Hpl Hnt Hnw) as (s2 & Hrun2 & Hpl2 & Hg2 & Hch).
  rewrite Hg1 in Hpl2, Hg2.
  exists ls, s2. split; [|split; [|split]].
  - unfold sbind. rewrite Hrun.
    change (for_ ls _ s1) with
      (for_ ls (fun l => for_ (ConditionAttributes.condition_types text_first)
                           (gated_pass text_first self l)) s1).
    rewrite Hrun2. reflexivity.
  - eapply preserves_changes; eassumption.
  - exact Hg2.
  - eapply placed_read; eassumption.
Qed.
End AttributeExact.

Section DropoutFacts.
Context `{Scalar R}.
Variable text_first : bool.
Local Open Scope store_scope.

Local Abbreviation CA := (ConditionAttributes.t R).
Implicit Types (s : Store R) (ca : CA) (cas : list CA).

Lemma Forall2_map_r {A B C} (P : A -> C -> Prop) (f : B -> C) xs ys :
  Forall2 P xs (map f ys) -> Forall2 (fun x y => P x (f y)) xs ys.
Proof.
  revert xs. induction ys as [|y ys IH]; intros xs Hall; simpl in Hall;
    inversion Hall; subst; constructor; auto.
Qed.

Lemma Forall2_refine {A B} (P : A -> Prop) (Q Q' : A -> B -> Prop) xs ys :
  (forall x y, P x -> Q x y -> Q' x y) ->
  Forall P xs -> Forall2 Q xs ys -> Forall2 Q' xs ys.
Proof.
  intros Himp Hp Hq. induction Hq as [|x y xs ys Hxy Hq IH]; constructor;
    apply List.Forall_cons_iff in Hp as [Hx Hp]; auto.
Qed.

Lemma batch_well_formed {A} (P : A -> CA -> Prop) (xs : list A) cas :
  Forall2 (fun l ca => P l ca /\ well_formed ca) xs cas -> Forall well_formed cas.
Proof. induction 1 as [|? ? ? ? [_ ?]]; constructor; auto. Qed.

(** X10.  [dropout_condition_] raises [ValueError] for a condition type
    other than "text" and "wav", and for an attribute the example does
    not have; for an attribute the example has, it sets this text
    attribute to [None], or replaces this waveform by [nullify_wav] of
    it, in place, and leaves every other attribute, every other object of
    the store and the generator as they are. *)
Theorem dropout_condition_spec s l t w ca condition_type k :
  holds s l t w ca -> well_formed ca ->
  (condition_type <> "text" -> condition_type <> "wav" ->
   dropout_condition_ text_first l condition_type k s
   = Raise (ValueError "dropout_condition got an unexpected condition type!")) /\
  (~ In k (dict_keys (ConditionAttributes.text ca)) ->
   dropout_condition_ text_first l "text" k s
   = Raise (ValueError "dropout_condition received an unexpected condition!")) /\
  (~ In k (dict_keys (ConditionAttributes.wav ca)) ->
   dropout_condition_ text_first l "wav" k s
   = Raise (ValueError "dropout_condition received an unexpected condition!")) /\
  (In k (dict_keys (ConditionAttributes.text ca)) ->
   exists s' ca',
     dropout_condition_ text_first l "text" k s = Ok (tt, s') /\
     rng s' = rng s /\ changes_only [(t, w)] s s' /\
     read_attrs s' l = Some ca' /\
     same_keys ca ca' /\
     ConditionAttributes.wav ca' = ConditionAttributes.wav ca /\
     dict_get (ConditionAttributes.text ca') k = Some None /\
     forall k', k' <> k ->
       dict_get (ConditionAttributes.text ca') k'
       = dict_get (ConditionAttributes.text ca) k') /\
  (forall wc, dict_get (ConditionAttributes.wav ca) k = Some wc ->
   exists s' ca' wc',
     dropout_condition_ text_first l "wav" k s = Ok (tt, s') /\
     rng s' = rng s /\ changes_only [(t, w)] s s' /\
     read_attrs s' l = Some ca' /\
     same_keys ca ca' /\
     ConditionAttributes.text ca' = ConditionAttributes.text ca /\
     nullify_wav wc = Ok wc' /\
     dict_get (ConditionAttributes.wav ca') k = Some wc' /\
     forall k', k' <> k ->
       dict_get (ConditionAttributes.wav ca') k'
       = dict_get (ConditionAttributes.wav ca) k').
Proof.
  intros Hh Hwf. split; [|split; [|split; [|split]]].
  - intros Ht Hw. unfold dropout_condition_.
    replace (str_in condition_type (ConditionAttributes.condition_types text_first))
      with false; [reflexivity|].
    symmetry. apply not_true_iff_false. intros Hin. apply str_in_In in Hin.
    destruct text_first; simpl in Hin; intuition congruence.
  - intros Hk. unfold dropout_condition_.
    rewrite condition_types_text. cbn [negb].
    unfold sbind at 1. rewrite (attribute_keys_text Hh).
    replace (str_in k (dict_keys (ConditionAttributes.text ca))) with false;
      [reflexivity|].
    symmetry. apply not_true_iff_false. intros Hin. now apply str_in_In in Hin.
  - intros Hk. unfold dropout_condition_.
    rewrite condition_types_wav. cbn [negb].
    unfold sbind at 1. rewrite (attribute_keys_wav Hh).
    replace (str_in k (dict_keys (ConditionAttributes.wav ca))) with false;
      [reflexivity|].
    symmetry. apply not_true_iff_false. intros Hin. now apply str_in_In in Hin.
  - intros Hk. eexists _, _. split; [exact (drop_text text_first Hh Hk)|].
    split; [reflexivity|]. split; [exact (changes_only_put _ _ [] Hh)|].
    split; [apply (holds_read (t := t) (w := w)); eapply holds_put; exact Hh|].
    split; [split; simpl; [now apply dict_keys_set | reflexivity]|].
    split; [reflexivity|]. split; [apply dict_get_set_eq|].
    intros k' Hne. simpl. now apply dict_get_set_ne.
  - intros wc Hwc.
    assert (Hr3 : ndim (WavCondition.wav wc) = 3).
    { destruct Hwf as (_ & _ & Hr).
      exact (Forall_dict_get (P := fun v => ndim (WavCondition.wav v) = 3) Hr Hwc). }
    eexists _, _, (nullified wc).
    split; [exact (drop_wav text_first Hh Hwc Hr3)|].
    split; [reflexivity|]. split; [exact (changes_only_put _ _ [] Hh)|].
    split; [apply (holds_read (t := t) (w := w)); eapply holds_put; exact Hh|].
    split; [split; simpl; [reflexivity|]|].
    { apply dict_keys_set. eapply dict_get_In_keys. exact Hwc. }
    split; [reflexivity|]. split; [now apply nullify_wav_rank3|].
    split; [apply dict_get_set_eq|].
    intros k' Hne. simpl. now apply dict_get_set_ne.
Qed.

Variable self : AttributeDropout.t.

Lemma gate_example_outcome draws ca m :
  well_formed ca ->
  let ca' := fst (gate_example self draws text_first ca m) in
  same_keys ca ca' /\
  (forall k v, dict_get (ConditionAttributes.text ca) k = Some v ->
     dict_get (ConditionAttributes.text ca') k = Some v \/
     configured self k = true /\
     dict_get (ConditionAttributes.text ca') k = Some None) /\
  (forall k wc, dict_get (ConditionAttributes.wav ca) k = Some wc ->
     dict_get (ConditionAttributes.wav ca') k = Some wc \/
     configured self k = true /\
     exists wc', nullify_wav wc = Ok wc' /\
                 dict_get (ConditionAttributes.wav ca') k = Some wc').
Proof.
  intros (_ & _ & Hr) ca'. subst ca'. unfold gate_example, same_keys.
  destruct text_first; simpl; rewrite !gate_keys;
    (split; [split; reflexivity|]); (split; [intros k v Hk; now apply gate_get|]);
    intros k wc Hk;
    pose proof (Forall_dict_get (P := fun v => ndim (WavCondition.wav v) = 3) Hr Hk)
      as Hr3;
    match goal with
    | |- context [gate self draws (@nullified R _) _ ?n] =>
        destruct (gate_get self draws (@nullified R _) n Hk) as [Hkeep|[Hc Hdrop]]
    end;
    [now left | right | now left | right];
    (split; [exact Hc|]); exists (nullified wc);
    (split; [now apply nullify_wav_rank3 | exact Hdrop]).
Qed.

(** X11.  The attribute dropout decides attribute by attribute: an active
    call returns examples with the keys of the given ones, in which every
    attribute is as it was given, or, if it has a dropout probability,
    nullified: a text attribute [None], a waveform [nullify_wav] of the
    given one.  An attribute without a dropout probability is returned
    as it was given. *)
Theorem attribute_dropout_per_attribute samples cas s :
  Forall2 (fun l ca => read_attrs s l = Some ca /\ well_formed ca) samples cas ->
  negb (AttributeDropout.training self) && negb (AttributeDropout.active_on_eval self)
    = false ->
  exists out s' cas',
    AttributeDropout.forward text_first self samples s = Ok (out, s') /\
    Forall2 (fun l ca' => read_attrs s' l = Some ca') out cas' /\
    Forall2 (fun ca ca' =>
        same_keys ca ca' /\
        (forall k v, dict_get (ConditionAttributes.text ca) k = Some v ->
           dict_get (ConditionAttributes.text ca') k = Some v \/
           configured self k = true /\
           dict_get (ConditionAttributes.text ca') k = Some None) /\
        (forall k wc, dict_get (ConditionAttributes.wav ca) k = Some wc ->
           dict_get (ConditionAttributes.wav ca') k = Some wc \/
           configured self k = true /\
           exists wc', nullify_wav wc = Ok wc' /\
                       dict_get (ConditionAttributes.wav ca') k = Some wc'))
      cas cas'.
Proof.
  intros Hall Hact.
  destruct (attribute_forward_exact text_first Hall Hact) as (out & s' & Hrun & _ & _ & Hout).
  eexists out, s', _. split; [exact Hrun|]. split; [exact Hout|].
  eapply Forall2_refine; [|exact (batch_well_formed Hall)|apply gate_batch_each].
  intros ca ca' Hwf [m ->]. now apply gate_example_outcome.
Qed.

(** X12.  An active call of the attribute dropout takes one draw of the
    generator for every attribute of every example that has a dropout
    probability, whether the attribute is dropped or not, and none for
    the other attributes. *)
Theorem attribute_dropout_draws samples cas s :
  Forall2 (fun l ca => read_attrs s l = Some ca /\ well_formed ca) samples cas ->
  negb (AttributeDropout.training self) && negb (AttributeDropout.active_on_eval self)
    = false ->
  exists out s',
    AttributeDropout.forward text_first self samples s = Ok (out, s') /\
    Generator.draws (rng s') = Generator.draws (rng s) /\
    Generator.consumed (rng s')
    = Generator.consumed (rng s) + list_sum (map (configured_count self) cas).
Proof.
  intros Hall Hact.
  destruct (attribute_forward_exact text_first Hall Hact) as (out & s' & Hrun & _ & Hg & _).
  exists out, s'. split; [exact Hrun|]. rewrite Hg. simpl.
  split; [reflexivity | apply gate_batch_count].
Qed.

Lemma gate_batch_always draws cas : forall n,
  (forall k p m, AttributeDropout.dropouts self !! k = Some p ->
                 Qltb (draws m) p = true) ->
  fst (gate_batch self draws text_first cas n) = map (drop_configured self) cas.
Proof.
  intros n Hp. revert n. induction cas as [|ca cas IH]; intros n; simpl; [reflexivity|].
  rewrite IH. f_equal. unfold gate_example, drop_configured.
  destruct text_first; simpl; now rewrite !gate_always.
Qed.

Lemma gate_batch_never draws cas : forall n,
  (forall k p m, AttributeDropout.dropouts self !! k = Some p ->
                 Qltb (draws m) p = false) ->
  fst (gate_batch self draws text_first cas n) = cas.
Proof.
  intros n Hp. revert n. induction cas as [|ca cas IH]; intros n; simpl; [reflexivity|].
  rewrite IH. f_equal. unfold gate_example.
  destruct text_first; simpl; rewrite !gate_never by assumption; now destruct ca.
Qed.

(** X13.  With draws in [[0, 1)], as [torch.rand] makes them, an active
    attribute dropout whose probabilities are all at least 1 nullifies
    every attribute that has a probability, in every example, and
    nothing else; one whose probabilities are all at most 0 returns
    copies with the content of the given examples. *)
Theorem attribute_dropout_certain samples cas s :
  Forall2 (fun l ca => read_attrs s l = Some ca /\ well_formed ca) samples cas ->
  negb (AttributeDropout.training self) && negb (AttributeDropout.active_on_eval self)
    = false ->
  (forall n, (0 <= Generator.draws (rng s) n)%Q /\ (Generator.draws (rng s) n < 1)%Q) ->
  ((forall k p, AttributeDropout.dropouts self !! k = Some p -> (1 <= p)%Q) ->
   exists out s',
     AttributeDropout.forward text_first self samples s = Ok (out, s') /\
     Forall2 (fun l ca => read_attrs s' l = Some (drop_configured self ca)) out cas) /\
  ((forall k p, AttributeDropout.dropouts self !! k = Some p -> (p <= 0)%Q) ->
   exists out s',
     AttributeDropout.forward text_first self samples s = Ok (out, s') /\
     Forall2 (fun l ca => read_attrs s' l = Some ca) out cas).
Proof.
  intros Hall Hact Hdraws.
  destruct (attribute_forward_exact text_first Hall Hact) as (out & s' & Hrun & _ & _ & Hout).
  split; intros Hp; exists out, s'; (split; [exact Hrun|]).
  - rewrite gate_batch_always in Hout; [now apply Forall2_map_r in Hout|].
    intros k p m Hk. unfold Qltb. apply negb_true_iff, not_true_iff_false.
    intros Hle. apply Qle_bool_iff in Hle.
    apply (Qlt_not_le _ _ (proj2 (Hdraws m))).
    eapply Qle_trans; [exact (Hp k p Hk) | exact Hle].
  - rewrite gate_batch_never in Hout; [exact Hout|].
    intros k p m Hk. unfold Qltb. apply negb_false_iff, Qle_bool_iff.
    eapply Qle_trans; [exact (Hp k p Hk) | exact (proj1 (Hdraws m))].
Qed.
End DropoutFacts.

Section NullifyTwice.
Context `{Scalar R}.

(** X14.  [nullify_wav] raises on a waveform of fewer than three
    dimensions; on any other it succeeds, keeps the sample rate and the
    numbers of lengths, paths and seek times, and nullifying its result
    again changes nothing. *)
Theorem nullify_wav_idempotent (w : WavCondition.t R) :
  (ndim (WavCondition.wav w) < 3 ->
   nullify_wav w = Raise (IndexError "too many indices for tensor")) /\
  (3 <= ndim (WavCondition.wav w) ->
   exists w',
     nullify_wav w = Ok w' /\
     nullify_wav w' = Ok w' /\
     ndim (WavCondition.wav w') = ndim (WavCondition.wav w) /\
     WavCondition.sample_rate w' = WavCondition.sample_rate w /\
     List.length (WavCondition.length w') = List.length (WavCondition.length w) /\
     List.length (WavCondition.path w') = List.length (WavCondition.path w) /\
     List.length (WavCondition.seek_time w')
     = List.length (WavCondition.seek_time w)).
Proof.
  unfold ndim, nullify_wav, slice3_first.
  destruct (shape (WavCondition.wav w)) as [|b [|c [|n s']]] eqn:Es; simpl;
    (split; [intros Hlt; try reflexivity; lia | intros Hge; try lia]).
  eexists. split; [reflexivity|]. simpl.
  rewrite !List.repeat_length, List.map_map, !List.length_map.
  repeat split. now destruct n.
Qed.
End NullifyTwice.

(** * The conditioner contract, position by position *)

Section Projection.
Context `{Scalar R}.


(** The projection of a position reads the condition at this position
    only. *)
Lemma linear_elem b t c (x weight : Tensor R) bias out_f in_f B T projected :
  shape weight = [out_f; in_f] -> shape x = [B; T; in_f] ->
  linear x weight bias = Ok projected ->
  shape projected = [B; T; out_f] /\
  elem projected [b; t; c]
  = let dot := sum_upto in_f (fun i => mul (elem x [b; t; i]) (elem weight [c; i])) in
    match bias with
    | Some bias => add dot (elem bias [c])
    | None => dot
    end.
Proof.
  intros Hw Hx. unfold linear. rewrite Hw, Hx. simpl. rewrite Nat.eqb_refl.
  destruct (match bias with Some b0 => bool_decide (shape b0 = [out_f]) | None => true end);
    [|discriminate].
  intros [= <-]. split; reflexivity.
Qed.
End Projection.

Section ConditionerFacts.
Context `{Scalar R}.
Variable Prepared : Type.

Import BaseConditioner.

Variables (dim output_dim : nat)
  (force_linear pad_empty output_bias learn_padding : bool)
  (weight0 padding0 : list nat -> R) (to_dtype : R -> R)
  (get_condition : Prepared -> result (ConditionType.t R)).

Let self : BaseConditioner.t R Prepared :=
  init dim output_dim force_linear pad_empty output_bias learn_padding
    weight0 padding0 to_dtype get_condition.

(** The projection a constructor builds, element by element. *)
Lemma output_proj_elem (cond : Tensor R) B T :
  shape cond = [B; T; dim] ->
  exists projected,
    apply_output_proj (output_proj self) cond = Ok projected /\
    shape projected = [B; T; output_dim] /\
    forall b t c, c < output_dim ->
      elem projected [b; t; c]
      = if force_linear || negb (dim =? output_dim) then
          sum_upto dim (fun i => mul (to_dtype (elem cond [b; t; i])) (weight0 [c; i]))
        else elem cond [b; t; c].
Proof.
  intros Hc. unfold self, init; simpl.
  destruct (force_linear || negb (dim =? output_dim)) eqn:E; simpl.
  - destruct (linear (tmap to_dtype cond) (mkTensor [output_dim; dim] weight0)
                (if output_bias then Some (zeros [output_dim]) else None))
      as [projected|e] eqn:Hlin.
    + exists projected. split; [reflexivity|].
      split; [exact (proj1 (linear_elem 0 0 0 (x := tmap to_dtype cond)
                              (weight := mkTensor [output_dim; dim] weight0)
                              (B := B) (T := T) eq_refl Hc Hlin))|].
      intros b t c Hcc.
      destruct (linear_elem b t c (x := tmap to_dtype cond)
                  (weight := mkTensor [output_dim; dim] weight0)
                  (B := B) (T := T) eq_refl Hc Hlin) as [_ ->].
      simpl. destruct output_bias; simpl; [apply add_zero_r | reflexivity].
    + exfalso. unfold linear in Hlin. simpl in Hlin. rewrite Hc in Hlin. simpl in Hlin.
      rewrite Nat.eqb_refl in Hlin.
      destruct output_bias; simpl in Hlin;
        rewrite ?bool_decide_eq_true_2 in Hlin by reflexivity; discriminate.
  - apply orb_false_elim in E as [_ E]. apply negb_false_iff, Nat.eqb_eq in E.
    exists cond. split; [reflexivity|]. split; [now rewrite <- E | reflexivity].
Qed.

(** What [forward] returns, element by element. *)
Lemma forward_elements inputs cm B T :
  get_condition inputs = Ok cm ->
  shape (ConditionType.condition cm) = [B; T; dim] ->
  shape (ConditionType.mask cm) = [B; T] ->
  0 < dim ->
  exists out,
    forward self inputs = Ok out /\
    shape (ConditionType.condition out) = [B; T; output_dim] /\
    shape (ConditionType.mask out) = [B; T] /\
    forall b t c, b < B -> t < T -> c < output_dim ->
      elem (ConditionType.mask out) [b; t] = elem (ConditionType.mask cm) [b; t] /\
      elem (ConditionType.condition out) [b; t; c] =
        blend_value
          (if force_linear || negb (dim =? output_dim) then
             sum_upto dim (fun i =>
               mul (to_dtype (elem (ConditionType.condition cm) [b; t; i]))
                   (weight0 [c; i]))
           else elem (ConditionType.condition cm) [b; t; c])
          (elem (ConditionType.mask cm) [b; t])
          (padding_at (learnt_padding self) c).
Proof.
  intros Hget Hc Hm Hdim.
  pose proof output_proj_elem as Hop.
  pose proof (@learnt_padding_shape R _ Prepared dim output_dim force_linear pad_empty
                output_bias learn_padding weight0 padding0 to_dtype get_condition)
    as Hlp.
  assert (Hg : _get_condition self inputs = Ok cm) by exact Hget.
  fold self in Hlp. clearbody self.
  destruct (Hop _ _ _ Hc) as (projected & Hproj & Hps & Hpe).
  unfold forward. rewrite Hg. cbn [rbind]. rewrite Hc.
  destruct ((T =? 0) && BaseConditioner.pad_empty self) eqn:E.
  - apply andb_true_iff in E as [E _]. apply Nat.eqb_eq in E. subst T.
    assert (Hsel : select_last (zeros (R:=R) [B; 0; dim])
                   = Ok (mkTensor [B; 0] (fun idx => zero))).
    { unfold select_last; simpl. destruct dim; [lia | reflexivity]. }
    rewrite Hsel. cbn [rbind shape].
    destruct (Hop (zeros [B; 0; dim]) B 0 eq_refl) as (pz & Hpz & Hpzs & _).
    rewrite Hpz. cbn [rbind].
    destruct (@blend_raw R _ pz (full [B; 0] false) (learnt_padding self)
                B 0 output_dim Hpzs eq_refl Hlp)
      as (out & Hout & Hos & _).
    rewrite Hout. cbn [rbind].
    exists (ConditionType.make out (full [B; 0] false)).
    split; [reflexivity|]. split; [exact Hos|]. split; [reflexivity|].
    intros b t c Hb Ht Hcc. lia.
  - cbn [rbind]. rewrite Hproj. cbn [rbind].
    destruct (@blend_raw R _ projected (ConditionType.mask cm)
                (learnt_padding self) B T output_dim Hps Hm Hlp)
      as (out & Hout & Hos & Hel).
    rewrite Hout. cbn [rbind].
    exists (ConditionType.make out (ConditionType.mask cm)).
    split; [reflexivity|]. split; [exact Hos|]. split; [exact Hm|].
    intros b t c Hb Ht Hcc. split; [reflexivity|].
    simpl. rewrite (Hel b t c Hb Ht Hcc), (Hpe b t c Hcc). reflexivity.
Qed.

End ConditionerFacts.

Section FreshBias.
Context `{Scalar R}.
Variable Prepared : Type.

Import BaseConditioner.

(** X16.  The bias of the output projection is zeroed at construction:
    a conditioner built with [output_bias] returns, until its parameters
    are changed, what the conditioner built without it returns. *)
Theorem fresh_output_bias_is_zero
    (dim output_dim : nat) (force_linear pad_empty learn_padding : bool)
    (weight0 padding0 : list nat -> R) (to_dtype : R -> R)
    (get_condition : Prepared -> result (ConditionType.t R)) inputs cm B T :
  get_condition inputs = Ok cm ->
  shape (ConditionType.condition cm) = [B; T; dim] ->
  shape (ConditionType.mask cm) = [B; T] ->
  0 < dim ->
  exists out out',
    forward (init dim output_dim force_linear pad_empty true learn_padding
               weight0 padding0 to_dtype get_condition) inputs = Ok out /\
    forward (init dim output_dim force_linear pad_empty false learn_padding
               weight0 padding0 to_dtype get_condition) inputs = Ok out' /\
    shape (ConditionType.condition out) = shape (ConditionType.condition out') /\
    forall b t c, b < B -> t < T -> c < output_dim ->
      elem (ConditionType.mask out) [b; t] = elem (ConditionType.mask out') [b; t] /\
      elem (ConditionType.condition out) [b; t; c]
      = elem (ConditionType.condition out') [b; t; c].
Proof.
  intros Hg Hc Hm Hdim.
  destruct (@forward_elements R _ Prepared dim output_dim force_linear pad_empty true
              learn_padding weight0 padding0 to_dtype get_condition inputs cm B T
              Hg Hc Hm Hdim) as (out & Hrun & Hs & _ & Hel).
  destruct (@forward_elements R _ Prepared dim output_dim force_linear pad_empty false
              learn_padding weight0 padding0 to_dtype get_condition inputs cm B T
              Hg Hc Hm Hdim) as (out' & Hrun' & Hs' & _ & Hel').
  exists out, out'. split; [exact Hrun|]. split; [exact Hrun'|].
  split; [congruence|]. intros b t c Hb Ht Hcc.
  destruct (Hel b t c Hb Ht Hcc) as [-> ->].
  destruct (Hel' b t c Hb Ht Hcc) as [-> ->].
  split; reflexivity.
Qed.
End FreshBias.

(** * The further properties at concrete inputs *)

(** At [Examples.fuse2cond], the constructor builds [Cases.fuser], which
    sends [description] to cross-attention. *)
Lemma fuser_init_inverse_mapping_witness :
  ConditionFuser.init Examples.fuse2cond false 1%Z = Ok Cases.fuser /\
  dict_get (ConditionFuser.cond2fuse Cases.fuser) "description" = Some "cross" /\
  dict_get (ConditionFuser.cond2fuse Cases.fuser) "tempo" = None.
Proof.
  pose proof (fuser_init_inverse_mapping Examples.fuse2cond false 1%Z) as Hinit.
  change (ConditionFuser.init Examples.fuse2cond false 1%Z) with (Ok Cases.fuser)
    in Hinit.
  destruct Hinit as (_ & _ & _ & Hlast & Hnone).
  split; [reflexivity|]. split.
  - apply (Hlast [("sum", ["genre"])] "cross" ["description"]
             [("prepend", ["lyrics"])] "description" eq_refl).
    + now left.
    + intros m' conds' [[= <- <-]|[]] [E|[]]. discriminate E.
  - apply Hnone. intros m conds Hin Hc.
    repeat (destruct Hin as [[= <- <-]|Hin];
            [repeat (destruct Hc as [E|Hc]; [discriminate E|]); destruct Hc|]).
    destruct Hin.
Defined.

Lemma forward_single_shot_keeps_fuser_witness :
  exists r self',
    ConditionFuser.forward Cases.sin_embedding Cases.fuser (Examples.ones [2; 5; 8])
      Cases.conditions = Ok (r, self') /\
    self' = Cases.fuser.
Proof.
  eexists _, _. split; [reflexivity|].
  apply (forward_single_shot_keeps_fuser
           (create_sin_embedding := Cases.sin_embedding) (self := Cases.fuser)
           (input := Examples.ones [2; 5; 8]) (conditions := Cases.conditions)
           eq_refl eq_refl).
Defined.

Lemma streaming_offsets_total_witness :
  exists outs self',
    session Cases.sin_embedding (ConditionFuser.start_streaming Cases.fuser)
      [(Examples.ones [2; 5; 8], Cases.conditions);
       (Examples.ones [2; 7; 8], Cases.conditions)] = Ok (outs, self') /\
    dict_get (ConditionFuser._streaming_state self') "offsets" = Some [12%Z; 12%Z].
Proof.
  eexists _, _. split; [reflexivity|].
  refine (proj2 (streaming_offsets_total
                   (create_sin_embedding := Cases.sin_embedding)
                   (self := ConditionFuser.start_streaming Cases.fuser)
                   (input := Examples.ones [2; 5; 8]) (conditions := Cases.conditions)
                   (calls := [(Examples.ones [2; 7; 8], Cases.conditions)])
                   eq_refl eq_refl eq_refl) _).
  reflexivity.
Defined.

Lemma forward_rejects_unknown_attribute_witness :
  ConditionFuser.forward Cases.sin_embedding Cases.fuser (Examples.ones [2; 5; 8])
    [("tempo", Examples.condition_238)]
  = Raise (AssertionError "given conditions contain unknown attributes for fuser").
Proof.
  apply (forward_rejects_unknown_attribute Cases.sin_embedding (self := Cases.fuser)
           (B := 2) (T := 5) (D := 8) (k := "tempo"));
    [reflexivity | now left | reflexivity].
Defined.

Lemma forward_later_steps_ignore_prepend_witness :
  ConditionFuser.forward Cases.sin_embedding Cases.fuser_later
    (Examples.ones [2; 5; 8]) Cases.conditions
  = ConditionFuser.forward Cases.sin_embedding Cases.fuser_later
      (Examples.ones [2; 5; 8]) [("description", Examples.condition_238)].
Proof.
  exact (forward_later_steps_ignore_prepend Cases.sin_embedding
           (self := Cases.fuser_later) (Examples.ones [2; 5; 8]) Cases.conditions
           (offsets := [5%Z; 5%Z]) eq_refl).
Defined.

Lemma forward_shapes_witness :
  exists fused cross self',
    ConditionFuser.forward Cases.sin_embedding
      (ConditionFuser.start_streaming Cases.fuser) (Examples.ones [2; 5; 8])
      Cases.conditions = Ok ((fused, Some cross), self') /\
    shape fused = [2; 8; 8] /\
    shape cross = [2; 3; 8].
Proof.
  destruct (forward_shapes Cases.sin_embedding
              (self := ConditionFuser.start_streaming Cases.fuser)
              (input := Examples.ones [2; 5; 8]) (conditions := Cases.conditions)
              (B := 2) (T := 5) (D := 8) eq_refl eq_refl)
    as (fused & cross & self' & Hrun & Hfused & Hcross).
  - apply List.Forall_cons; [|apply List.Forall_cons; [|apply List.Forall_nil]].
    + right. split; [now right | now exists 3].
    + right. split; [now left | now exists 3].
  - destruct cross as [c|]; [|discriminate Hcross].
    exists fused, c, self'. split; [exact Hrun|]. split; [exact Hfused|].
    exact (proj2 Hcross).
Defined.

(** Text collation at [Examples.genre_provider]: the genres of the two
    examples, in batch order; the unknown [mood] is not collated. *)
Lemma collate_text_spec_witness :
  exists out vs,
    ConditionProvider._collate_text Examples.genre_provider
      [Examples.rock_with_mood; Examples.rock] = Ok out /\
    Forall2 (fun sample v => dict_get (ConditionAttributes.text sample) "genre" = Some v)
      [Examples.rock_with_mood; Examples.rock] vs /\
    dd_get out "genre" = vs /\
    dict_keys out = ["genre"].
Proof.
  assert (Hnd : List.NoDup
                  (dict_keys (ConditionProvider.conditioners Examples.genre_provider))).
  { repeat constructor. simpl. tauto. }
  pose proof (collate_text_spec (self := Examples.genre_provider)
                [Examples.rock_with_mood; Examples.rock] Hnd) as Hspec.
  change (ConditionProvider._collate_text Examples.genre_provider
            [Examples.rock_with_mood; Examples.rock])
    with (Ok (A := pydict (list TextCondition)) [("genre", [Some "rock"; Some "rock"])])
    in Hspec.
  destruct Hspec as (Hvals & Hkeys & _).
  destruct (Hvals "genre" (or_introl eq_refl)) as (vs & Hall & Hout).
  eexists _, vs. split; [reflexivity|]. split; [exact Hall|]. split; [exact Hout|].
  apply Hkeys. discriminate.
Defined.

(** [prepare] at [Cases.full_provider]: one entry per conditioner, the
    text conditioner first. *)
Lemma prepare_returns_witness :
  exists output,
    ConditionProvider.prepare Examples.stack_and_pad_audio Cases.full_provider
      [Examples.rock] = Ok output /\
    dict_keys output = ["genre"; "self_wav"].
Proof.
  assert (Hnd : List.NoDup
                  (dict_keys (ConditionProvider.conditioners Cases.full_provider))).
  { repeat constructor; simpl; intuition discriminate. }
  eexists. split; [reflexivity|].
  destruct (prepare_returns (stack_and_pad_audio := Examples.stack_and_pad_audio)
              (self := Cases.full_provider) (inputs := [Examples.rock]) Hnd eq_refl)
    as (text & wavs & _ & _ & Hkeys & _).
  exact Hkeys.
Defined.

(** [prepare] at [Cases.misc_provider]: the conditioner [misc] receives
    no input. *)
Lemma prepare_other_family_witness :
  exists e names,
    ConditionProvider.prepare Examples.stack_and_pad_audio Cases.misc_provider
      [Examples.rock] = Raise e /\
    e = MissingInputs names /\ In "misc" names.
Proof.
  assert (Hnd : List.NoDup
                  (dict_keys (ConditionProvider.conditioners Cases.misc_provider))).
  { repeat constructor; simpl; intuition discriminate. }
  destruct (prepare_other_family Examples.stack_and_pad_audio
              (self := Cases.misc_provider) [Examples.rock]
              (name := "misc") (c := Cases.other_conditioner) Hnd eq_refl eq_refl)
    as (e & Hrun & Hwhy).
  destruct (Hwhy _ _ eq_refl eq_refl) as (names & He & Hin).
  exists e, names. auto.
Defined.

Lemma rock_in_store0 :
  Forall2 (fun l ca => read_attrs Examples.store0 l = Some ca /\ well_formed ca)
    [0] [Examples.rock].
Proof. repeat constructor; simpl; intuition discriminate. Defined.

Lemma rock_well_formed : well_formed Examples.rock.
Proof. repeat constructor; simpl; intuition discriminate. Defined.

(** [dropout_condition_] at [Examples.store0]: an unknown condition type
    and an unknown attribute raise, and dropping [genre] sets it to
    [None]. *)
Lemma dropout_condition_spec_witness :
  dropout_condition_ true 0 "audio" "genre" Examples.store0
  = Raise (ValueError "dropout_condition got an unexpected condition type!") /\
  dropout_condition_ true 0 "wav" "genre" Examples.store0
  = Raise (ValueError "dropout_condition received an unexpected condition!") /\
  exists s' ca',
    dropout_condition_ true 0 "text" "genre" Examples.store0 = Ok (tt, s') /\
    read_attrs s' 0 = Some ca' /\
    dict_get (ConditionAttributes.text ca') "genre" = Some None.
Proof.
  assert (Hh : holds Examples.store0 0 0 0 Examples.rock) by (repeat split).
  destruct (dropout_condition_spec true "audio" "genre" Hh rock_well_formed)
    as (Htype & _ & _ & _ & _).
  destruct (dropout_condition_spec true "wav" "genre" Hh rock_well_formed)
    as (_ & _ & Hwav & Htext & _).
  split; [apply Htype; discriminate|]. split.
  - apply Hwav. simpl. intros [E|[]]. discriminate E.
  - destruct Htext as (s' & ca' & Hrun & _ & _ & Hread & _ & _ & Hnone & _);
      [simpl; auto|].
    exists s', ca'. auto.
Defined.

(** The attribute dropout at [Examples.store0] with [Cases.genre_dropout]:
    [mood] and the waveform have no probability and are returned as
    given. *)
Lemma attribute_dropout_per_attribute_witness :
  exists out s' ca',
    AttributeDropout.forward true Cases.genre_dropout [0] Examples.store0
      = Ok (out, s') /\
    Forall2 (fun l ca' => read_attrs s' l = Some ca') out [ca'] /\
    dict_get (ConditionAttributes.text ca') "mood" = Some None /\
    dict_get (ConditionAttributes.wav ca') "self_wav" = Some Examples.wav_a.
Proof.
  destruct (attribute_dropout_per_attribute true (self := Cases.genre_dropout)
              rock_in_store0 eq_refl)
    as (out & s' & cas' & Hrun & Hout & Hrel).
  inversion Hrel as [|? ca' ? cas0 (_ & Htext & Hwav) Hrest]; subst.
  inversion Hrest; subst.
  exists out, s', ca'. split; [exact Hrun|]. split; [exact Hout|]. split.
  - destruct (Htext "mood" None eq_refl) as [Hkeep|[Hc _]]; [exact Hkeep|].
    vm_compute in Hc. discriminate Hc.
  - destruct (Hwav "self_wav" Examples.wav_a eq_refl) as [Hkeep|[Hc _]]; [exact Hkeep|].
    vm_compute in Hc. discriminate Hc.
Defined.

(** One draw: of the three attributes of [Examples.rock], [genre] alone
    has a probability. *)
Lemma attribute_dropout_draws_witness :
  exists out s',
    AttributeDropout.forward true Cases.genre_dropout [0] Examples.store0
      = Ok (out, s') /\
    Generator.consumed (rng s') = 1.
Proof.
  destruct (attribute_dropout_draws true (self := Cases.genre_dropout)
              rock_in_store0 eq_refl)
    as (out & s' & Hrun & _ & Hn).
  exists out, s'. split; [exact Hrun|]. rewrite Hn. vm_compute. reflexivity.
Defined.

(** [genre] has probability 1: it is dropped, and nothing else. *)
Lemma attribute_dropout_certain_witness :
  exists out s',
    AttributeDropout.forward true Cases.genre_dropout [0] Examples.store0
      = Ok (out, s') /\
    Forall2 (fun l ca => read_attrs s' l
                         = Some (drop_configured Cases.genre_dropout ca))
      out [Examples.rock].
Proof.
  apply (attribute_dropout_certain true (self := Cases.genre_dropout)
           rock_in_store0 eq_refl).
  - intros n. simpl. split; [apply Qle_refl | reflexivity].
  - intros k p Hk. unfold Cases.genre_dropout in Hk.
    cbn [AttributeDropout.dropouts] in Hk.
    apply lookup_singleton_Some in Hk as [_ <-]. apply Qle_refl.
Defined.

(** Nullifying [Examples.wav_a] twice. *)
Lemma nullify_wav_idempotent_witness :
  exists w',
    nullify_wav Examples.wav_a = Ok w' /\
    nullify_wav w' = Ok w' /\
    WavCondition.is_nullified w' = true.
Proof.
  destruct (proj2 (nullify_wav_idempotent Examples.wav_a)) as (w' & Hrun & Hagain & _).
  - unfold ndim. simpl. lia.
  - exists w'. split; [exact Hrun|]. split; [exact Hagain|].
    injection Hrun as <-. reflexivity.
Defined.


(** At [Examples.raw_short], with and without [output_bias]. *)
Lemma fresh_output_bias_is_zero_witness :
  exists out out',
    BaseConditioner.forward
      (BaseConditioner.init 2 3 true true true true
         (fun idx => Z.of_nat (nth 0 idx 0 + 1)) (fun idx => Z.of_nat (70 + nth 2 idx 0))
         (fun x => x) (fun _ : unit => Ok Examples.raw_short)) tt = Ok out /\
    BaseConditioner.forward
      (BaseConditioner.init 2 3 true true false true
         (fun idx => Z.of_nat (nth 0 idx 0 + 1)) (fun idx => Z.of_nat (70 + nth 2 idx 0))
         (fun x => x) (fun _ : unit => Ok Examples.raw_short)) tt = Ok out' /\
    elem (ConditionType.condition out) [0; 0; 2]
      = elem (ConditionType.condition out') [0; 0; 2].
Proof.
  destruct (fresh_output_bias_is_zero 3 true true true
              (fun idx => Z.of_nat (nth 0 idx 0 + 1))
              (fun idx => Z.of_nat (70 + nth 2 idx 0)) (fun x => x)
              (get_condition := fun _ : unit => Ok Examples.raw_short)
              (inputs := tt) (cm := Examples.raw_short) (B := 1) (T := 2)
              eq_refl eq_refl eq_refl)
    as (out & out' & Hrun & Hrun' & _ & Hel).
  - lia.
  - exists out, out'. split; [exact Hrun|]. split; [exact Hrun'|]. apply Hel; lia.
Defined.


